(** * anoo front end: a shallow embedding of the API clients, page
      controllers and Express routes, with the properties of the
      specification stated over it.

    The development follows the layering of the repository:
    - [JS]        the fragment of JavaScript values the code manipulates;
    - [Http]      the fetch wrapper seen as an oracle, and the monad in which
                  the asynchronous client functions run;
    - [PostApi], [ImageApi], [FeedbackApi], [CommentApi]   domain API clients;
    - [PostCard], [Feed], [MyPosts], [PostDetail]   the post card and the
                  paginated page controllers;
    - [Server], [AiRoute]   the Express image proxy and the Gemini proxy;
    - [Json], [WritePage]   the draft cache, the image strip and the
                  submission of the write page;
    - [Layout]    the shared modal;
    - [Spec]      the notions of the specification, and sample inputs.

    Asynchronous functions are modelled as run to completion: the
    [isLoading] flags of the pages serialise their loads, and the
    interleaving of background uploads with user events is not modelled. *)

From Stdlib Require Import ZArith NArith Lia Bool String Ascii List Permutation.
From stdpp Require Import base option gmap strings.
Import ListNotations.

Set Default Proof Using "Type".
Set Warnings "-register-all".
Open Scope string_scope.
Open Scope list_scope.

(* ===================================================================== *)
(** ** JavaScript values *)
(* ===================================================================== *)

Module JS.

(** A JavaScript string is a sequence of UTF-16 code units; [length] and
    [trim] count and inspect code units, so that is what is modelled. *)
Definition jsstring := list N.

(** ASCII literals of the source, as code units. *)
Definition js (s : string) : jsstring :=
  List.map N_of_ascii (list_ascii_of_string s).

(** The numbers the code computes with: page sizes, ids and counters.
    Finite values are integers; NaN and the infinities are kept because
    [Number(x) || d], [Math.min] and [Math.max] treat them specially. *)
Inductive jsnum :=
| NaN
| PosInf
| NegInf
| Fin (z : Z).

Inductive jsval :=
| VUndef
| VNull
| VBool (b : bool)
| VNum (n : jsnum)
| VStr (s : jsstring)
| VArr (xs : list jsval)
| VObj (fields : list (string * jsval)).

Definition jsnum_eqb (a b : jsnum) : bool :=
  match a, b with
  | NaN, NaN => true
  | PosInf, PosInf => true
  | NegInf, NegInf => true
  | Fin x, Fin y => Z.eqb x y
  | _, _ => false
  end.

Definition jsstring_eqb (a b : jsstring) : bool :=
  bool_decide (a = b).

(** [x === y] on the values compared by the code.  NaN is not equal to
    itself; two array or object values are distinct references. *)
Definition strict_eq (a b : jsval) : bool :=
  match a, b with
  | VUndef, VUndef => true
  | VNull, VNull => true
  | VBool x, VBool y => Bool.eqb x y
  | VNum NaN, VNum _ => false
  | VNum x, VNum y => jsnum_eqb x y
  | VStr x, VStr y => jsstring_eqb x y
  | _, _ => false
  end.

(** SameValueZero, the comparison of [Array.prototype.includes] and of
    [Set.prototype.has]: as [===], except that NaN equals NaN. *)
Definition same_value_zero (a b : jsval) : bool :=
  match a, b with
  | VNum x, VNum y => jsnum_eqb x y
  | _, _ => strict_eq a b
  end.

Definition nullish (v : jsval) : bool :=
  match v with
  | VUndef | VNull => true
  | _ => false
  end.

(** [a ?? b] *)
Definition coalesce (a b : jsval) : jsval :=
  if nullish a then b else a.

(** ToBoolean *)
Definition truthy (v : jsval) : bool :=
  match v with
  | VUndef | VNull => false
  | VBool b => b
  | VNum NaN => false
  | VNum (Fin z) => negb (Z.eqb z 0)
  | VNum _ => true
  | VStr s => negb (Nat.eqb (List.length s) 0)
  | VArr _ | VObj _ => true
  end.

(** A default parameter value applies when the argument is [undefined]. *)
Definition default_param (v d : jsval) : jsval :=
  match v with
  | VUndef => d
  | _ => v
  end.

(** [a || b] *)
Definition or_else (a b : jsval) : jsval :=
  if truthy a then a else b.

Fixpoint lookup_field (k : string) (fields : list (string * jsval)) : jsval :=
  match fields with
  | [] => VUndef
  | (k', v) :: rest => if String.eqb k k' then v else lookup_field k rest
  end.

(** [o.k] for a value that is not nullish: own data properties of plain
    objects, [length] of strings and arrays, [undefined] otherwise. *)
Definition get_prop (o : jsval) (k : string) : jsval :=
  match o with
  | VObj fields => lookup_field k fields
  | VArr xs => if String.eqb k "length" then VNum (Fin (Z.of_nat (List.length xs))) else VUndef
  | VStr s => if String.eqb k "length" then VNum (Fin (Z.of_nat (List.length s))) else VUndef
  | _ => VUndef
  end.

(** [o?.k] *)
Definition opt_prop (o : jsval) (k : string) : jsval :=
  if nullish o then VUndef else get_prop o k.

(** WhiteSpace and LineTerminator code points, the set [trim] strips. *)
Definition is_white_space (c : N) : bool :=
  match c with
  | 9 | 10 | 11 | 12 | 13 | 32 | 160 | 5760
  | 8232 | 8233 | 8239 | 8287 | 12288 | 65279 => true
  | _ => (N.leb 8192 c && N.leb c 8202)%bool
  end%N.

Fixpoint trimStart (s : jsstring) : jsstring :=
  match s with
  | [] => []
  | c :: rest => if is_white_space c then trimStart rest else s
  end.

Definition trimEnd (s : jsstring) : jsstring :=
  List.rev (trimStart (List.rev s)).

(** [s.trim()] *)
Definition trim (s : jsstring) : jsstring := trimEnd (trimStart s).

(** [s.includes(sub)] *)
Fixpoint starts_with (sub s : jsstring) : bool :=
  match sub, s with
  | [], _ => true
  | _ :: _, [] => false
  | a :: sub', b :: s' => (N.eqb a b && starts_with sub' s')%bool
  end.

Fixpoint includes (s sub : jsstring) : bool :=
  (starts_with sub s ||
   match s with
   | [] => false
   | _ :: s' => includes s' sub
   end)%bool.

(** The conversions of the language that the code relies on but that are
    not arithmetic on numbers: [Number(x)] for a string, array or object
    argument.  The built-in is kept abstract. *)
Class Coercions := { to_number_other : jsval -> jsnum }.

(** [Number(v)] *)
Definition Number `{Coercions} (v : jsval) : jsnum :=
  match v with
  | VUndef => NaN
  | VNull => Fin 0
  | VBool b => Fin (if b then 1 else 0)
  | VNum n => n
  | other => to_number_other other
  end.

Definition jsnum_le (a b : jsnum) : bool :=
  match a, b with
  | NaN, _ | _, NaN => false
  | NegInf, _ => true
  | _, PosInf => true
  | PosInf, _ => false
  | _, NegInf => false
  | Fin x, Fin y => Z.leb x y
  end.

(** [Math.max(a, b)] and [Math.min(a, b)] *)
Definition Math_max (a b : jsnum) : jsnum :=
  match a, b with
  | NaN, _ | _, NaN => NaN
  | _, _ => if jsnum_le a b then b else a
  end.

Definition Math_min (a b : jsnum) : jsnum :=
  match a, b with
  | NaN, _ | _, NaN => NaN
  | _, _ => if jsnum_le a b then a else b
  end.

(** A conversion used where a concrete one is needed: strings of decimal
    digits denote their value, everything else is not a number. *)
Fixpoint digits_value (acc : Z) (s : jsstring) : jsnum :=
  match s with
  | [] => Fin acc
  | c :: rest =>
      if (N.leb 48 c && N.leb c 57)%bool
      then digits_value (10 * acc + Z.of_N (c - 48)) rest
      else NaN
  end.

Definition decimal_coercions : Coercions :=
  {| to_number_other v :=
       match v with
       | VStr (c :: s) => digits_value 0 (c :: s)
       | VStr [] => Fin 0
       | _ => NaN
       end |}.

End JS.

(* ===================================================================== *)
(** ** The HTTP client wrapper, as seen by the API clients *)
(* ===================================================================== *)

Module Http.
Import JS.

Inductive method := GET | POST | PATCH | DELETE.

(** A request path is a template literal: fixed text and interpolated
    values, e.g. [`/posts/${postId}`]. *)
Inductive segment :=
| Lit (s : string)
| Param (v : jsval).

(** One call [get(path, options)], [post(path, options)], ... *)
Record request := mkRequest {
  req_method : method;
  req_path : list segment;
  req_options : jsval;
}.

(** What a function can throw: [new Error(message)], a [TypeError] of
    the runtime, or the error built by the wrapper, carrying [status]. *)
Inductive exn :=
| Error (message : string)
| TypeError (message : string)
| HttpError (status : Z) (message : string).

(** The wrapper with the backend behind it.  Its answer may depend on the
    requests already made, so that a second attempt can succeed where
    the first one failed. *)
Definition wrapper := list request -> request -> exn + jsval.

(** Asynchronous client code: it reads the wrapper, appends to the log
    of requests sent, and either throws or returns. *)
Definition api (A : Type) : Type :=
  wrapper -> list request -> (exn + A) * list request.

Definition ret {A} (a : A) : api A := fun _ log => (inr a, log).

Definition throw {A} (e : exn) : api A := fun _ log => (inl e, log).

Definition bind {A B} (m : api A) (k : A -> api B) : api B :=
  fun w log =>
    match m w log with
    | (inl e, log') => (inl e, log')
    | (inr a, log') => k a w log'
    end.

(** [try { m } catch (error) { h error }] *)
Definition try_catch {A} (m : api A) (h : exn -> api A) : api A :=
  fun w log =>
    match m w log with
    | (inl e, log') => h e w log'
    | (inr a, log') => (inr a, log')
    end.

Definition call (r : request) : api jsval :=
  fun w log => (w log r, log ++ [r]).

Definition get (path : list segment) (options : jsval) : api jsval :=
  call (mkRequest GET path options).
Definition post (path : list segment) (options : jsval) : api jsval :=
  call (mkRequest POST path options).
Definition patch (path : list segment) (options : jsval) : api jsval :=
  call (mkRequest PATCH path options).
Definition del (path : list segment) (options : jsval) : api jsval :=
  call (mkRequest DELETE path options).

(** [o.k], which throws when [o] is [null] or [undefined]. *)
Definition prop (o : jsval) (k : string) : api jsval :=
  if nullish o
  then throw (TypeError "Cannot read properties of undefined")
  else ret (get_prop o k).

(** [s.trim()], which throws when [s] has no such method. *)
Definition call_trim (s : jsval) : api jsval :=
  match s with
  | VStr x => ret (VStr (trim x))
  | _ => throw (TypeError "trim is not a function")
  end.

(** The query object of a request and one of its parameters. *)
Definition query_param (r : request) (k : string) : jsval :=
  get_prop (get_prop (req_options r) "query") k.

Definition body_field (r : request) (k : string) : jsval :=
  get_prop (get_prop (req_options r) "body") k.

End Http.

Notation "'await' x ':=' m 'in' k" := (Http.bind m (fun x => k))
  (at level 10, x name, m at level 100, k at level 200).
Notation "m ';;;' k" := (Http.bind m (fun _ => k))
  (at level 100, k at level 200, right associativity).

(* ===================================================================== *)
(** ** services/post/postApi.js *)
(* ===================================================================== *)

Module PostApi.
Import JS Http.

(** [v.trim().length] of a string value. *)
Definition str_length (v : jsval) : Z :=
  match v with
  | VStr s => Z.of_nat (List.length (trim s))
  | _ => 0
  end.

Definition is_string (v : jsval) : bool :=
  match v with
  | VStr _ => true
  | _ => false
  end.

Definition validateTitle (title : jsval) : api unit :=
  if (negb (is_string title) || Z.eqb (str_length title) 0)%bool
  then throw (Error "제목을 입력해주세요.")
  else if (Z.ltb (str_length title) 2 || Z.ltb 26 (str_length title))%bool
  then throw (Error "제목은 2~26자 사이로 입력해주세요.")
  else ret tt.

Definition validateContent (content : jsval) : api unit :=
  if (negb (is_string content) || Z.eqb (str_length content) 0)%bool
  then throw (Error "본문 내용을 입력해주세요.")
  else
    let length := str_length content in
    if (Z.ltb length 2 || Z.ltb 10000 length)%bool
    then throw (Error "본문은 2~10000자 사이로 입력해주세요.")
    else ret tt.

Definition is_NaN (n : jsnum) : bool :=
  match n with
  | NaN => true
  | _ => false
  end.

Definition normalizeImageIds `{Coercions} (imageIds defaultValue : jsval) : api jsval :=
  if nullish imageIds then ret defaultValue
  else
    match imageIds with
    | VArr ids =>
        ret (VArr (List.map VNum
                     (List.filter (fun id => negb (is_NaN id))
                                  (List.map Number ids))))
    | _ => throw (Error "imageIds는 배열이어야 합니다.")
    end.

(** [xs.includes(v)] on an array value. *)
Definition array_includes (xs v : jsval) : bool :=
  match xs with
  | VArr l => List.existsb (fun x => same_value_zero x v) l
  | _ => false
  end.

Record CreatePostArgs := {
  title : jsval;
  content : jsval;
  imageIds : jsval;
  primaryImageId : jsval;
}.

Definition createPost `{Coercions} (a : CreatePostArgs) : api jsval :=
  validateTitle (title a) ;;;
  validateContent (content a) ;;;
  await normalizedImageIds := normalizeImageIds (imageIds a) (VArr []) in
  await trimmedTitle := call_trim (title a) in
  await trimmedContent := call_trim (content a) in
  let body :=
    [("title", trimmedTitle);
     ("content", trimmedContent);
     ("imageIds", normalizedImageIds)] ++
    (if (negb (strict_eq (primaryImageId a) VUndef)
         && array_includes normalizedImageIds (primaryImageId a))%bool
     then [("primaryImageId", primaryImageId a)]
     else []) in
  await response := post [Lit "/posts"] (VObj [("body", VObj body)]) in
  await data := prop response "data" in
  ret (coalesce data VNull).

Record ListArgs := {
  cursor : jsval;
  sort : jsval;
  limit : jsval;
}.

Definition safeLimit `{Coercions} (limit : jsval) (dflt : Z) : jsnum :=
  Math_min
    (Math_max (Number (or_else (VNum (Number limit)) (VNum (Fin dflt)))) (Fin 1))
    (Fin 50).

Definition safeSort (sort : jsval) : jsval :=
  if strict_eq sort (VStr (js "asc")) then VStr (js "asc") else VStr (js "desc").

Definition list_query `{Coercions} (a : ListArgs) (dflt : Z) : jsval :=
  let sort := default_param (sort a) (VStr (js "desc")) in
  let limit := default_param (limit a) (VNum (Fin dflt)) in
  VObj ([("sort", safeSort sort);
         ("limit", VNum (safeLimit limit dflt))] ++
        (if (negb (strict_eq (cursor a) VUndef)
             && negb (strict_eq (cursor a) VNull)
             && negb (strict_eq (cursor a) (VStr [])))%bool
         then [("cursor", cursor a)]
         else [])).

Definition getPosts `{Coercions} (a : ListArgs) : api jsval :=
  let query := list_query a 10 in
  await response := get [Lit "/posts"] (VObj [("query", query)]) in
  await data := prop response "data" in
  ret (coalesce data VNull).

Definition missing_id (postId : jsval) : bool :=
  (strict_eq postId VUndef || strict_eq postId VNull
   || strict_eq postId (VStr []))%bool.

Definition getPost (postId : jsval) : api jsval :=
  if missing_id postId then throw (Error "게시글 ID가 필요합니다.")
  else
    await response := get [Lit "/posts/"; Param postId] VUndef in
    await data := prop response "data" in
    ret (coalesce data VNull).

Record UpdatePostArgs := {
  u_title : jsval;
  u_content : jsval;
  u_imageIds : jsval;
}.

Definition updatePost `{Coercions} (postId : jsval) (a : UpdatePostArgs) : api jsval :=
  if missing_id postId then throw (Error "게시글 ID가 필요합니다.")
  else
    await p1 :=
      (if negb (strict_eq (u_title a) VUndef)
       then validateTitle (u_title a) ;;;
            await t := call_trim (u_title a) in
            ret [("title", t)]
       else ret []) in
    await p2 :=
      (if negb (strict_eq (u_content a) VUndef)
       then validateContent (u_content a) ;;;
            await c := call_trim (u_content a) in
            ret [("content", c)]
       else ret []) in
    await p3 :=
      (if negb (strict_eq (u_imageIds a) VUndef)
       then await ids := normalizeImageIds (u_imageIds a) (VArr []) in
            ret [("imageIds", ids)]
       else ret []) in
    let payload := p1 ++ p2 ++ p3 in
    if Nat.eqb (List.length payload) 0
    then throw (Error "수정할 항목을 최소 1개 이상 입력해주세요.")
    else
      await response :=
        patch [Lit "/posts/"; Param postId] (VObj [("body", VObj payload)]) in
      await data := prop response "data" in
      ret (coalesce data VNull).

Definition deletePost (postId : jsval) : api jsval :=
  if missing_id postId then throw (Error "게시글 ID가 필요합니다.")
  else
    await response :=
      del [Lit "/posts/"; Param postId] (VObj [("parseJson", VBool true)]) in
    await data := prop response "data" in
    ret (coalesce data VNull).

Definition getMyPosts `{Coercions} (a : ListArgs) : api jsval :=
  let query := list_query a 20 in
  await response := get [Lit "/posts/me"] (VObj [("query", query)]) in
  await data := prop response "data" in
  ret (coalesce data
         (VObj [("posts", VArr []); ("count", VNum (Fin 0));
                ("nextCursor", VNull)])).

End PostApi.

(* ===================================================================== *)
(** ** services/image/imageApi.js, services/feedback/feedbackApi.js *)
(* ===================================================================== *)

Module ImageApi.
Import JS Http.

Definition AI_DAILY_LIMIT : Z := 5.

Definition fallback : jsval :=
  VObj [("remaining", VNum (Fin AI_DAILY_LIMIT));
        ("limit", VNum (Fin AI_DAILY_LIMIT));
        ("used", VNum (Fin 0))].

(** The [catch] clause logs [error.message] and returns the fallback. *)
Definition getAiGenerationRemaining : api jsval :=
  try_catch
    (await response := get [Lit "/ai-generations/remaining"] VUndef in
     await data := prop response "data" in
     ret (coalesce data fallback))
    (fun error => ret fallback).

(** The text shown when the daily count is used up (the bytes of the
    source literal; its content is never inspected). *)
Definition limit_message : jsstring :=
  js "오늘 AI 이미지 생성 횟수를 모두 사용했어요. 내일 다시 시도해주세요.".

Definition checkAiGenerationLimit `{Coercions} : api jsval :=
  await r := getAiGenerationRemaining in
  await remaining := prop r "remaining" in
  await limit := prop r "limit" in
  if jsnum_le (Number remaining) (Fin 0)
  then ret (VObj [("canGenerate", VBool false);
                  ("remaining", VNum (Fin 0));
                  ("message", VStr limit_message)])
  else ret (VObj [("canGenerate", VBool true);
                  ("remaining", remaining);
                  ("limit", limit)]).

(** [body.k = v] on the fields of an object literal. *)
Fixpoint set_field (k : string) (v : jsval) (fields : list (string * jsval))
  : list (string * jsval) :=
  match fields with
  | [] => [(k, v)]
  | (k', v') :: rest =>
      if String.eqb k k' then (k, v) :: rest else (k', v') :: set_field k v rest
  end.

(** [{ ...metadata }] *)
Definition spread (o : jsval) : list (string * jsval) :=
  match o with
  | VObj fields => fields
  | _ => []
  end.

Definition saveImageMetadata (metadata options : jsval) : api jsval :=
  if (negb (truthy metadata)
      || negb (truthy (get_prop metadata "storedFilename")))%bool
  then throw (Error "이미지 메타데이터가 필요합니다.")
  else
    await aiGenerated := prop (default_param options (VObj [])) "aiGenerated" in
    let body :=
      if truthy aiGenerated
      then set_field "aiGenerated" (VBool true) (spread metadata)
      else spread metadata in
    await response := post [Lit "/images/metadata"] (VObj [("body", VObj body)]) in
    await data := prop response "data" in
    ret (coalesce data VNull).

Definition missing_id (imageId : jsval) : bool :=
  (strict_eq imageId VUndef || strict_eq imageId VNull
   || strict_eq imageId (VStr []))%bool.

Definition getImage (imageId : jsval) : api jsval :=
  if missing_id imageId then throw (Error "이미지 ID가 필요합니다.")
  else
    await response := get [Lit "/images/"; Param imageId] VUndef in
    await data := prop response "data" in
    ret (coalesce data VNull).

Definition deleteImage (imageId : jsval) : api jsval :=
  if missing_id imageId then throw (Error "이미지 ID가 필요합니다.")
  else
    await response :=
      del [Lit "/images/"; Param imageId] (VObj [("parseJson", VBool true)]) in
    await data := prop response "data" in
    ret (coalesce data VNull).

End ImageApi.

Module FeedbackApi.
Import JS Http.

Definition submitFeedback (feedbackData : jsval) : api jsval :=
  await response := post [Lit "feedback"] (VObj [("body", feedbackData)]) in
  prop response "data".

End FeedbackApi.

Module CommentApi.
Import JS Http.

(** Modelled from the spec: [getComments] of services/comment/commentApi.js,
    which the post-detail page imports but which is not among the source
    files.  Section 4.4: each list call carries an optional [cursor] and
    [limit]; section 6: the comments of a post are listed under
    [/api/posts/{id}/comments] with the shared cursor envelope.  The
    query is built as [getPosts] builds it. *)
Definition getComments `{Coercions} (postId : jsval) (a : PostApi.ListArgs) : api jsval :=
  let query := PostApi.list_query a 20 in
  await response :=
    get [Lit "/posts/"; Param postId; Lit "/comments"] (VObj [("query", query)]) in
  await data := prop response "data" in
  ret (coalesce data VNull).

End CommentApi.

(* ===================================================================== *)
(** ** Paginated page controllers *)
(* ===================================================================== *)

(** What a controller needs from [await f(...)] inside [try]: the outcome,
    thrown or returned, as a value. *)
Definition attempt {A} (m : Http.api A) : Http.api (Http.exn + A) :=
  fun w log => let '(r, log') := m w log in (inr r, log').

Module PostCard.
Import JS Http.

(** The children a post list can hold. *)
Inductive node :=
| Card (postId : jsval) (postData : jsval)
| EmptyState
| ErrorMessage.

(** component/post-card/post-card.js: no card without an id.  Building
    the elements of the card from the other fields is taken not to throw. *)
Definition createPostCard (postData : jsval) : exn + option node :=
  if nullish postData
  then inl (TypeError "Cannot read properties of undefined")
  else
    let postId := coalesce (get_prop postData "postId") (get_prop postData "id") in
    if nullish postId then inr None else inr (Some (Card postId postData)).

(** [posts.forEach(post => { const postCard = createPostCard(post);
    if (postCard) postsList.appendChild(postCard); })]: the children
    appended before a throw stay in the document. *)
Fixpoint appendCards (posts : list jsval) (children : list node)
  : list node * option exn :=
  match posts with
  | [] => (children, None)
  | post :: rest =>
      match createPostCard post with
      | inl e => (children, Some e)
      | inr None => appendCards rest children
      | inr (Some card) => appendCards rest (children ++ [card])
      end
  end.

Definition card_id (n : node) : option jsval :=
  match n with
  | Card postId _ => Some postId
  | _ => None
  end.

(** The post ids shown, in document order. *)
Definition card_ids (children : list node) : list jsval :=
  omap card_id children.

End PostCard.

Module Feed.
Import JS Http PostCard.

Definition PAGE_SIZE : Z := 10.

Record state := mkState {
  nextCursor : jsval;
  hasNext : jsval;
  isLoading : bool;
  isInitialLoad : bool;
  postsList : option (list node);   (* #posts-list, when it exists *)
}.

Definition initial (postsList : option (list node)) : state :=
  mkState VNull (VBool true) false true postsList.

Definition loadPosts `{Coercions} (st : state) : api state :=
  if (isLoading st || negb (truthy (hasNext st)))%bool then ret st
  else
    match postsList st with
    | None => ret st
    | Some shown =>
        let children := if isInitialLoad st then [] else shown in
        await r := attempt (PostApi.getPosts
                     {| PostApi.cursor := nextCursor st;
                        PostApi.sort := VUndef;
                        PostApi.limit := VNum (Fin PAGE_SIZE) |}) in
        match r with
        | inl error =>
            ret (mkState (nextCursor st) (hasNext st) false (isInitialLoad st)
                   (Some (if isInitialLoad st then [ErrorMessage] else children)))
        | inr result =>
            let posts := coalesce (opt_prop result "posts") (VArr []) in
            let hasNext' := coalesce (opt_prop result "hasNext") (VBool false) in
            let nextCursor' := coalesce (opt_prop result "nextCursor") VNull in
            if (isInitialLoad st
                && strict_eq (get_prop posts "length") (VNum (Fin 0)))%bool
            then ret (mkState nextCursor' hasNext' false false (Some [EmptyState]))
            else
              match posts with
              | VArr items =>
                  match appendCards items children with
                  | (children', None) =>
                      ret (mkState nextCursor' hasNext' false false (Some children'))
                  | (children', Some error) =>
                      ret (mkState nextCursor' hasNext' false (isInitialLoad st)
                             (Some (if isInitialLoad st then [ErrorMessage]
                                    else children')))
                  end
              | _ =>
                  (* posts.forEach is not a function: caught *)
                  ret (mkState nextCursor' hasNext' false (isInitialLoad st)
                         (Some (if isInitialLoad st then [ErrorMessage]
                                else children)))
              end
        end
    end.

End Feed.

Module MyPosts.
Import JS Http PostCard.

Definition MY_POSTS_PAGE_SIZE : Z := 20.

(** The static template provides [#emptyState] and [#postsCount]; only
    [#postsList] is looked up defensively by the code. *)
Record state := mkState {
  myPostsNextCursor : jsval;
  myPostsHasNext : jsval;
  myPostsIsLoading : bool;
  myPostsIsInitialLoad : bool;
  postsList : option (list node);
  emptyStateHidden : bool;
  postsCount : option jsval;        (* the count displayed, if any *)
}.

Definition initial (postsList : option (list node)) : state :=
  mkState VNull (VBool true) false true postsList true None.

(** [count > 0 ? `${count}개` : ''] *)
Definition countText `{Coercions} (count : jsval) : option jsval :=
  match Number count with
  | PosInf => Some count
  | Fin z => if Z.ltb 0 z then Some count else None
  | _ => None
  end.

Definition loadMyPosts `{Coercions} (st : state) : api state :=
  if (myPostsIsLoading st || negb (truthy (myPostsHasNext st)))%bool then ret st
  else
    match postsList st with
    | None => ret st
    | Some shown =>
        let children := if myPostsIsInitialLoad st then [] else shown in
        await r := attempt (PostApi.getMyPosts
                     {| PostApi.cursor := myPostsNextCursor st;
                        PostApi.sort := VUndef;
                        PostApi.limit := VNum (Fin MY_POSTS_PAGE_SIZE) |}) in
        let failed nc hn ch hidden :=
          if myPostsIsInitialLoad st
          then mkState nc hn false true (Some []) false None
          else mkState nc hn false false (Some ch) hidden (postsCount st) in
        match r with
        | inl error =>
            ret (failed (myPostsNextCursor st) (myPostsHasNext st) children
                   (emptyStateHidden st))
        | inr result =>
            let posts := coalesce (opt_prop result "posts") (VArr []) in
            let hasNext' := coalesce (opt_prop result "hasNext") (VBool false) in
            let nextCursor' := coalesce (opt_prop result "nextCursor") VNull in
            let shownCount :=
              if myPostsIsInitialLoad st
              then countText (coalesce (opt_prop result "count")
                                       (get_prop posts "length"))
              else postsCount st in
            if (myPostsIsInitialLoad st
                && strict_eq (get_prop posts "length") (VNum (Fin 0)))%bool
            then ret (mkState nextCursor' hasNext' false false (Some []) false
                        shownCount)
            else
              match posts with
              | VArr items =>
                  match appendCards items children with
                  | (children', None) =>
                      ret (mkState nextCursor' hasNext' false false
                             (Some children') true shownCount)
                  | (children', Some error) =>
                      ret (failed nextCursor' hasNext' children' true)
                  end
              | _ => ret (failed nextCursor' hasNext' children true)
              end
        end
    end.

End MyPosts.

Module PostDetail.
Import JS Http.

Definition COMMENTS_PAGE_SIZE : Z := 20.

Record state := mkState {
  commentsNextCursor : jsval;
  commentsHasNext : jsval;
  commentsIsLoading : bool;
  allComments : list jsval;
  commentsTotalCount : jsval;
}.

Definition initial : state := mkState VNull (VBool true) false [] (VNum (Fin 0)).

(** [cs.map(c => c.id)], which throws on a [null] or [undefined] entry. *)
Fixpoint ids_of (cs : list jsval) : exn + list jsval :=
  match cs with
  | [] => inr []
  | c :: rest =>
      if nullish c then inl (TypeError "Cannot read properties of undefined")
      else match ids_of rest with
           | inl e => inl e
           | inr ids => inr (get_prop c "id" :: ids)
           end
  end.

(** [existingIds.has(id)] for [existingIds = new Set(ids)] *)
Definition set_has (ids : list jsval) (id : jsval) : bool :=
  List.existsb (fun x => same_value_zero x id) ids.

(** [comments.filter(c => !existingIds.has(c.id))] *)
Fixpoint newComments (existingIds : list jsval) (comments : list jsval)
  : exn + list jsval :=
  match comments with
  | [] => inr []
  | c :: rest =>
      if nullish c then inl (TypeError "Cannot read properties of undefined")
      else match newComments existingIds rest with
           | inl e => inl e
           | inr keep =>
               inr (if set_has existingIds (get_prop c "id") then keep
                    else c :: keep)
           end
  end.

Definition resetCommentsState : state := initial.

(** The first page replaces whatever was accumulated. *)
Definition loadComments `{Coercions} (postId : option jsval) (st : state)
  : api state :=
  match postId with
  | None => ret st
  | Some postId =>
      await r := attempt (CommentApi.getComments postId
                   {| PostApi.cursor := VUndef;
                      PostApi.sort := VStr (js "desc");
                      PostApi.limit := VNum (Fin COMMENTS_PAGE_SIZE) |}) in
      match r with
      | inl error => ret (mkState VNull (VBool true) false [] (VNum (Fin 0)))
      | inr result =>
          let comments := coalesce (opt_prop result "comments") (VArr []) in
          let hasNext' := coalesce (opt_prop result "hasNext") (VBool false) in
          let nextCursor' := coalesce (opt_prop result "nextCursor") VNull in
          let count := coalesce (opt_prop result "count")
                                (get_prop comments "length") in
          match comments with
          | VArr cs => ret (mkState nextCursor' hasNext' false cs count)
          | _ =>
              (* [...comments] of a value that is not iterable: caught
                 (the envelope carries an array; a string is not expected) *)
              ret (mkState nextCursor' hasNext' false [] (VNum (Fin 0)))
          end
      end
  end.

Definition loadMoreComments `{Coercions} (postId : option jsval) (st : state)
  : api state :=
  if (commentsIsLoading st || negb (truthy (commentsHasNext st)))%bool
  then ret st
  else
    match postId with
    | None => ret st
    | Some postId =>
        await r := attempt (CommentApi.getComments postId
                     {| PostApi.cursor := commentsNextCursor st;
                        PostApi.sort := VStr (js "desc");
                        PostApi.limit := VNum (Fin COMMENTS_PAGE_SIZE) |}) in
        match r with
        | inl error =>
            ret (mkState (commentsNextCursor st) (commentsHasNext st) false
                   (allComments st) (commentsTotalCount st))
        | inr result =>
            let comments := coalesce (opt_prop result "comments") (VArr []) in
            let hasNext' := coalesce (opt_prop result "hasNext") (VBool false) in
            let nextCursor' := coalesce (opt_prop result "nextCursor") VNull in
            let unchanged :=
              mkState nextCursor' hasNext' false (allComments st)
                (commentsTotalCount st) in
            match ids_of (allComments st), comments with
            | inr existingIds, VArr cs =>
                match newComments existingIds cs with
                | inr fresh =>
                    ret (mkState nextCursor' hasNext' false
                           (allComments st ++ fresh) (commentsTotalCount st))
                | inl error => ret unchanged
                end
            | _, _ => ret unchanged
            end
        end
    end.

(** The ids accumulated, for entries that are objects. *)
Definition comment_ids (cs : list jsval) : list jsval :=
  List.map (fun c => get_prop c "id") cs.

End PostDetail.

(* ===================================================================== *)
(** ** The Express server: image proxy and AI proxy route *)
(* ===================================================================== *)

Module Server.
Import JS.

(** What the handlers send back: [res.status(s).json(body)], or
    [res.send(bytes)] with the headers set before it. *)
Inductive payload :=
| Json (body : jsval)
| Bytes (contentType : jsval) (data : list N).

Record reply := mkReply {
  status : Z;
  sent : payload;
}.

(** The answer of an upstream [fetch]. *)
Record response := mkResponse {
  ok : bool;
  upstream_status : Z;
  contentType : jsval;      (* headers.get('content-type'), null if absent *)
  arrayBuffer : list N;
  text : jsstring;
  json : string + jsval;    (* response.json(), which may reject *)
}.

(** The platform around a handler: the WHATWG URL parser, of which only
    [hostname] is used ([None] when [new URL(url)] throws), and the
    network ([inl message] when [fetch] rejects). *)
Class Platform := {
  URL_hostname : jsval -> option jsstring;
  fetch : jsval -> string + response;
}.

Definition allowedDomains : list jsstring :=
  [js "ktb-community-images.s3.ap-northeast-2.amazonaws.com";
   js "s3.ap-northeast-2.amazonaws.com"].

Definition error_body (message : string) : payload :=
  Json (VObj [("error", VStr (js message))]).

(** [app.get('/api/image-proxy', ...)]: the reply and the URLs fetched. *)
Definition image_proxy `{Platform} (url : jsval) : reply * list jsval :=
  if negb (truthy url)
  then (mkReply 400 (error_body "URL parameter is required"), [])
  else
    match URL_hostname url with
    | None => (mkReply 500 (error_body "Failed to proxy image"), [])
    | Some hostname =>
        if negb (List.existsb (fun domain => includes hostname domain)
                              allowedDomains)
        then (mkReply 403 (error_body "Domain not allowed"), [])
        else
          match fetch url with
          | inl message =>
              (mkReply 500 (error_body "Failed to proxy image"), [url])
          | inr response =>
              if negb (ok response)
              then (mkReply (upstream_status response)
                      (error_body "Failed to fetch image"), [url])
              else
                (mkReply 200
                   (Bytes (or_else (contentType response) (VStr (js "image/jpeg")))
                          (arrayBuffer response)),
                 [url])
          end
    end.

(** A parser for URLs of the plain shape [scheme://host/path]; on these
    it returns the host that the WHATWG parser returns. *)
Fixpoint after_scheme (s : jsstring) : option jsstring :=
  match s with
  | 58 :: 47 :: 47 :: rest => Some rest        (* "://" *)
  | _ :: rest => after_scheme rest
  | [] => None
  end%N.

Fixpoint host_part (s : jsstring) : jsstring :=
  match s with
  | [] => []
  | c :: rest =>
      if (N.eqb c 47 || N.eqb c 63 || N.eqb c 35)%bool  (* / ? # *)
      then []
      else c :: host_part rest
  end.

Definition plain_hostname (url : jsval) : option jsstring :=
  match url with
  | VStr s =>
      match after_scheme s with
      | Some rest =>
          match host_part rest with
          | [] => None
          | h => Some h
          end
      | None => None
      end
  | _ => None
  end.

End Server.

Module AiRoute.
Import JS Server.

(** [process.env.GEMINI_API_KEY] and the Gemini endpoint; a call carries
    the JSON request body. *)
Class Upstream := {
  GEMINI_API_KEY : jsval;
  gemini : jsval -> string + response;
}.

Definition error_reply (status : Z) (message code : string) : reply :=
  mkReply status
    (Json (VObj [("error", VStr (js message)); ("code", VStr (js code))])).

(** [parts.push(...)] then [{ contents: [{ parts }] }] *)
Definition inline_data (data mimeType : jsval) : jsval :=
  VObj [("inline_data",
         VObj [("data", data);
               ("mime_type", or_else mimeType (VStr (js "image/jpeg")))])].

Definition requestBody (body : jsval) : jsval :=
  let parts :=
    [VObj [("text", get_prop body "prompt")];
     inline_data (get_prop body "profileImageBase64")
                 (get_prop body "profileImageMimeType")] ++
    (if truthy (get_prop body "referenceImageBase64")
     then [inline_data (get_prop body "referenceImageBase64")
                       (get_prop body "referenceImageMimeType")]
     else []) in
  VObj [("contents", VArr [VObj [("parts", VArr parts)]])].

(** [xs?.[0]] *)
Definition opt_first (xs : jsval) : jsval :=
  match xs with
  | VArr (x :: _) => x
  | _ => VUndef
  end.

(** The first part carrying [inlineData], as the [for ... of] loop finds
    it; a part that is [null] or [undefined] makes the loop throw. *)
Fixpoint find_image (parts : list jsval) : string + option jsval :=
  match parts with
  | [] => inr None
  | part :: rest =>
      if nullish part then inl "Cannot read properties of undefined"
      else if truthy (get_prop part "inlineData")
      then inr (Some (VObj
             [("data", get_prop (get_prop part "inlineData") "data");
              ("mimeType",
               or_else (get_prop (get_prop part "inlineData") "mimeType")
                       (VStr (js "image/png")))]))
      else find_image rest
  end.

Definition internal_error : reply :=
  error_reply 500 "서버 오류가 발생했습니다." "INTERNAL_ERROR".

(** [router.post('/generate-image', validateApiKey, ...)]: the reply and
    the request bodies sent to Gemini.  The text of an error message
    taken from an upstream failure is not modelled, its [code] is. *)
Definition generate_image `{Upstream} (body : jsval) : reply * list jsval :=
  if negb (truthy GEMINI_API_KEY)
  then (error_reply 500 "API 키가 설정되지 않았습니다." "API_KEY_NOT_CONFIGURED", [])
  else if nullish body
  then (internal_error, [])
  else if negb (truthy (get_prop body "prompt"))
  then (error_reply 400 "이미지 생성 프롬프트가 필요합니다." "PROMPT_REQUIRED", [])
  else if negb (truthy (get_prop body "profileImageBase64"))
  then (error_reply 400 "프로필 이미지가 필요합니다." "PROFILE_IMAGE_REQUIRED", [])
  else
    let sentBody := requestBody body in
    match gemini sentBody with
    | inl message => (internal_error, [sentBody])
    | inr response =>
        if negb (ok response)
        then (error_reply (upstream_status response)
                "AI 이미지 생성에 실패했습니다." "IMAGE_GENERATION_FAILED",
              [sentBody])
        else
          match json response with
          | inl message => (internal_error, [sentBody])
          | inr data =>
              if nullish data then (internal_error, [sentBody]) else
              let candidates :=
                or_else
                  (opt_prop (opt_prop (opt_first (opt_prop data "candidates"))
                                      "content") "parts")
                  (VArr []) in
              match candidates with
              | VArr parts =>
                  match find_image parts with
                  | inl message => (internal_error, [sentBody])
                  | inr None =>
                      (error_reply 500 "AI 이미지 생성 결과가 없습니다."
                         "NO_IMAGE_RESULT", [sentBody])
                  | inr (Some imageData) =>
                      (mkReply 200
                         (Json (VObj [("success", VBool true);
                                      ("image", imageData)])),
                       [sentBody])
                  end
              | _ => (internal_error, [sentBody])
              end
          end
    end.

(** The [code] field of a JSON reply. *)
Definition code_of (r : reply) : jsval :=
  match sent r with
  | Json body => get_prop body "code"
  | _ => VUndef
  end.

End AiRoute.

(* ===================================================================== *)
(** ** JSON text of the draft *)
(* ===================================================================== *)

Module Json.
Import JS.
Local Open Scope N_scope.

(** The values [saveDraft] serialises and [loadDraft] reads back: a
    string, or an object whose members are strings (in text order). *)
Inductive value :=
| Str (s : jsstring)
| Obj (members : list (jsstring * jsstring)).

Definition hex_digit (d : N) : N :=
  if d <? 10 then 48 + d else 87 + d.           (* '0'.. or 'a'.. *)

(** [\uXXXX] in lower case, as QuoteJSONString writes it. *)
Definition unicode_escape (c : N) : jsstring :=
  [92; 117;
   hex_digit (c / 4096 mod 16); hex_digit (c / 256 mod 16);
   hex_digit (c / 16 mod 16); hex_digit (c mod 16)].

Definition is_high_surrogate (c : N) : bool := (55296 <=? c) && (c <=? 56319).
Definition is_low_surrogate (c : N) : bool := (56320 <=? c) && (c <=? 57343).

(** One code unit that is not a surrogate. *)
Definition escape_unit (c : N) : jsstring :=
  if c =? 8 then [92; 98]                        (* \b *)
  else if c =? 9 then [92; 116]                  (* \t *)
  else if c =? 10 then [92; 110]                 (* \n *)
  else if c =? 12 then [92; 102]                 (* \f *)
  else if c =? 13 then [92; 114]                 (* \r *)
  else if c =? 34 then [92; 34]                  (* escaped quote *)
  else if c =? 92 then [92; 92]                  (* escaped backslash *)
  else if c <? 32 then unicode_escape c
  else [c].

(** The body of QuoteJSONString: a surrogate pair is copied, a lone
    surrogate is escaped. *)
Fixpoint escape (s : jsstring) : jsstring :=
  match s with
  | [] => []
  | c :: rest =>
      if is_high_surrogate c then
        match rest with
        | d :: rest' =>
            if is_low_surrogate d then c :: d :: escape rest'
            else unicode_escape c ++ escape rest
        | [] => unicode_escape c
        end
      else if is_low_surrogate c then unicode_escape c ++ escape rest
      else escape_unit c ++ escape rest
  end.

Definition quote (s : jsstring) : jsstring := 34 :: escape s ++ [34].

Fixpoint stringify_members (members : list (jsstring * jsstring)) : jsstring :=
  match members with
  | [] => []
  | [(k, v)] => quote k ++ 58 :: quote v
  | (k, v) :: rest => quote k ++ 58 :: quote v ++ 44 :: stringify_members rest
  end.

(** [JSON.stringify(v)] *)
Definition stringify (v : value) : jsstring :=
  match v with
  | Str s => quote s
  | Obj members => 123 :: stringify_members members ++ [125]
  end.

Definition hex_value (c : N) : option N :=
  if (48 <=? c) && (c <=? 57) then Some (c - 48)
  else if (97 <=? c) && (c <=? 102) then Some (c - 87)
  else if (65 <=? c) && (c <=? 70) then Some (c - 55)
  else None.

Definition simple_escape (c : N) : option N :=
  if c =? 34 then Some 34
  else if c =? 92 then Some 92
  else if c =? 47 then Some 47
  else if c =? 98 then Some 8
  else if c =? 102 then Some 12
  else if c =? 110 then Some 10
  else if c =? 114 then Some 13
  else if c =? 116 then Some 9
  else None.

(** A string literal after its opening quote: the decoded string and
    the text after the closing quote. *)
Fixpoint parse_string (s : jsstring) : option (jsstring * jsstring) :=
  match s with
  | [] => None
  | c :: rest =>
      if c =? 34 then Some ([], rest)
      else if c =? 92 then
        match rest with
        | [] => None
        | e :: rest1 =>
            if e =? 117 then
              match rest1 with
              | h1 :: h2 :: h3 :: h4 :: rest2 =>
                  match hex_value h1, hex_value h2, hex_value h3, hex_value h4 with
                  | Some a, Some b, Some c', Some d =>
                      match parse_string rest2 with
                      | Some (str, tail) =>
                          Some (((a * 16 + b) * 16 + c') * 16 + d :: str, tail)
                      | None => None
                      end
                  | _, _, _, _ => None
                  end
              | _ => None
              end
            else
              match simple_escape e with
              | Some u =>
                  match parse_string rest1 with
                  | Some (str, tail) => Some (u :: str, tail)
                  | None => None
                  end
              | None => None
              end
        end
      else if c <? 32 then None
      else
        match parse_string rest with
        | Some (str, tail) => Some (c :: str, tail)
        | None => None
        end
  end.

Definition is_json_space (c : N) : bool :=
  (c =? 32) || (c =? 9) || (c =? 10) || (c =? 13).

Fixpoint skip_ws (s : jsstring) : jsstring :=
  match s with
  | c :: rest => if is_json_space c then skip_ws rest else s
  | [] => []
  end.

(** A string literal with the white space around it. *)
Definition parse_literal (s : jsstring) : option (jsstring * jsstring) :=
  match skip_ws s with
  | 34 :: rest =>
      match parse_string rest with
      | Some (str, tail) => Some (str, skip_ws tail)
      | None => None
      end
  | _ => None
  end.

(** The members of an object after its opening brace; [fuel] bounds
    the number of members by the length of the text. *)
Fixpoint parse_members (fuel : nat) (s : jsstring)
  : option (list (jsstring * jsstring) * jsstring) :=
  match fuel with
  | O => None
  | S fuel' =>
      match parse_literal s with
      | Some (k, 58 :: s1) =>
          match parse_literal s1 with
          | Some (v, 125 :: tail) => Some ([(k, v)], tail)
          | Some (v, 44 :: s2) =>
              match parse_members fuel' s2 with
              | Some (ms, tail) => Some ((k, v) :: ms, tail)
              | None => None
              end
          | _ => None
          end
      | _ => None
      end
  end.

(** [JSON.parse(text)] on the texts of this fragment.  [None] stands for
    every other text, whether [JSON.parse] would throw on it or return a
    value that is not built from strings. *)
Definition parse (text : jsstring) : option value :=
  match skip_ws text with
  | 34 :: _ =>
      match parse_literal text with
      | Some (s, []) => Some (Str s)
      | _ => None
      end
  | 123 :: rest =>
      match skip_ws rest with
      | 125 :: tail =>
          match skip_ws tail with
          | [] => Some (Obj [])
          | _ => None
          end
      | _ =>
          match parse_members (List.length rest) rest with
          | Some (ms, tail) =>
              match skip_ws tail with
              | [] => Some (Obj ms)
              | _ => None
              end
          | None => None
          end
      end
  | _ => None
  end.

(** [o.k] on a parsed object: the last member of that name wins. *)
Fixpoint member (k : jsstring) (members : list (jsstring * jsstring))
  : option jsstring :=
  match members with
  | [] => None
  | (k', v) :: rest =>
      match member k rest with
      | Some v' => Some v'
      | None => if jsstring_eqb k k' then Some v else None
      end
  end.

Definition field (v : value) (k : jsstring) : option jsstring :=
  match v with
  | Obj members => member k members
  | Str _ => None
  end.

End Json.

(* ===================================================================== *)
(** ** The write page: draft cache, image strip, submission *)
(* ===================================================================== *)

Module WritePage.
Import JS Http.

Definition MAX_IMAGES_MANUAL : nat := 4.
Definition IMAGE_EXPIRY_MS : Z := 60 * 60 * 1000.
Definition DRAFT_STORAGE_KEY : string := "anoo_post_draft".

Inductive mode := manual | ai.

(** An entry of [uploadedImages].  Entries are objects compared by
    identity ([indexOf]); [ref] is that identity. *)
Record image := mkImage {
  ref : nat;
  previewUrl : jsval;
  imageId : jsval;
  isUploading : bool;
  uploadedAt : option Z;     (* getTime() of the upload, once done *)
}.

Record page := mkPage {
  titleValue : jsstring;                 (* #post-title .value *)
  contentValue : jsstring;               (* #post-content .value *)
  imageMode : mode;
  uploadedImages : list image;
  primaryImageIndex : nat;
  draggedIndex : option nat;
  isDragging : bool;
  aiReferenceImage : option image;
  aiGeneratedImage : option image;
  localStorage : gmap string jsstring;
  hasUnsavedChanges : bool;
  location : option (list segment);      (* set by location.replace *)
}.

Definition with_images (pg : page) (imgs : list image) (primary : nat)
           (dragged : option nat) (dragging : bool) : page :=
  mkPage (titleValue pg) (contentValue pg) (imageMode pg) imgs primary
         dragged dragging (aiReferenceImage pg) (aiGeneratedImage pg)
         (localStorage pg) (hasUnsavedChanges pg) (location pg).

Definition with_storage (pg : page) (store : gmap string jsstring)
           (unsaved : bool) : page :=
  mkPage (titleValue pg) (contentValue pg) (imageMode pg) (uploadedImages pg)
         (primaryImageIndex pg) (draggedIndex pg) (isDragging pg)
         (aiReferenceImage pg) (aiGeneratedImage pg) store unsaved
         (location pg).

(** *** Draft *)

(** The object [{ title, content, savedAt }]. *)
Definition draft (title content savedAt : jsstring) : Json.value :=
  Json.Obj [(js "title", title); (js "content", content);
            (js "savedAt", savedAt)].

(** [now] is [new Date().toISOString()]. *)
Definition saveDraft (now : jsstring) (pg : page) : page :=
  let title := titleValue pg in
  let content := contentValue pg in
  if (negb (truthy (VStr title)) && negb (truthy (VStr content)))%bool
  then with_storage pg (delete DRAFT_STORAGE_KEY (localStorage pg)) false
  else
    with_storage pg
      (<[DRAFT_STORAGE_KEY := Json.stringify (draft title content now)]>
         (localStorage pg))
      true.

(** The value returned ([None] is [null]) and the page afterwards.  The
    outer [option] is [None] when the stored text is outside the JSON
    fragment of [Json.parse]. *)
Definition loadDraft (pg : page) : option (option Json.value * page) :=
  match localStorage pg !! DRAFT_STORAGE_KEY with
  | None => Some (None, pg)
  | Some saved =>
      if negb (truthy (VStr saved)) then Some (None, pg)
      else
        match Json.parse saved with
        | Some v => Some (Some v, pg)
        | None => None
        end
  end.

Definition clearDraft (pg : page) : page :=
  with_storage pg (delete DRAFT_STORAGE_KEY (localStorage pg)) false.

(** *** Image strip *)

(** [xs.splice(i, 1)] and [xs.splice(i, 0, x)] for an index that is a
    natural number: a start beyond the end is clamped to the length. *)
Definition splice_remove {A} (i : nat) (xs : list A) : list A :=
  firstn i xs ++ skipn (S i) xs.




(** [dragstart] on the preview whose [data-index] is [index]. *)
Definition dragstart (index : nat) (pg : page) : page :=
  with_images pg (uploadedImages pg) (primaryImageIndex pg) (Some index) true.



(** The [catch] of a background upload: the entry is looked up by
    identity and spliced out; the primary index is left as it is. *)
Fixpoint indexOf (r : nat) (images : list image) : option nat :=
  match images with
  | [] => None
  | img :: rest =>
      if Nat.eqb (ref img) r then Some 0%nat
      else option_map S (indexOf r rest)
  end.

Definition uploadFailed (r : nat) (pg : page) : page :=
  match indexOf r (uploadedImages pg) with
  | Some idx =>
      with_images pg (splice_remove idx (uploadedImages pg))
        (primaryImageIndex pg) (draggedIndex pg) (isDragging pg)
  | None => pg
  end.

(** [renderImagePreviews]: the index of the preview shown as primary; an
    index out of range is shown as 0. *)
Definition effectivePrimaryIndex (pg : page) : nat :=
  if Nat.ltb (primaryImageIndex pg) (List.length (uploadedImages pg))
  then primaryImageIndex pg
  else 0%nat.

(** *** Submission *)

(** The page-level checks of the two inputs. *)
Definition validateTitle (pg : page) : bool :=
  let title := trim (titleValue pg) in
  if (negb (truthy (VStr title)) || Z.ltb (Z.of_nat (List.length title)) 2)%bool
  then false
  else if Z.ltb 26 (Z.of_nat (List.length title)) then false
  else true.

Definition validateContent (pg : page) : bool :=
  let content := trim (contentValue pg) in
  if (negb (truthy (VStr content)) || Z.ltb (Z.of_nat (List.length content)) 2)%bool
  then false
  else if Z.ltb 10000 (Z.of_nat (List.length content)) then false
  else true.

Definition expired (now : Z) (img : image) : bool :=
  match uploadedAt img with
  | Some t => Z.ltb IMAGE_EXPIRY_MS (now - t)
  | None => false
  end.

Definition completed (img : image) : bool :=
  (negb (isUploading img) && truthy (imageId img))%bool.

Definition buildCreatePostRequest (pg : page) : PostApi.CreatePostArgs :=
  match imageMode pg with
  | manual =>
      let imageIds :=
        List.map imageId (List.filter completed (uploadedImages pg)) in
      let finalPrimaryId :=
        match imageIds with
        | [] => VNull
        | first :: _ =>
            match nth_error (uploadedImages pg) (primaryImageIndex pg) with
            | Some primaryImage =>
                if truthy (imageId primaryImage) then imageId primaryImage
                else first
            | None => first
            end
        end in
      {| PostApi.title := VStr (trim (titleValue pg));
         PostApi.content := VStr (trim (contentValue pg));
         PostApi.imageIds := VArr imageIds;
         PostApi.primaryImageId := finalPrimaryId |}
  | ai =>
      let generatedId :=
        match aiGeneratedImage pg with
        | Some img => imageId img
        | None => VUndef
        end in
      {| PostApi.title := VStr (trim (titleValue pg));
         PostApi.content := VStr (trim (contentValue pg));
         PostApi.imageIds :=
           VArr (if truthy generatedId then [generatedId] else []);
         PostApi.primaryImageId := or_else generatedId VNull |}
  end.

(** [handleSubmit], once the pending uploads have settled.  [now] is
    [Date.now()]. *)
Definition handleSubmit `{Coercions} (now : Z) (pg : page) : api page :=
  if negb (validateTitle pg && validateContent pg)%bool then ret pg
  else if List.existsb (expired now) (uploadedImages pg)
  then ret (with_images pg
              (List.filter (fun img => negb (expired now img)) (uploadedImages pg))
              (primaryImageIndex pg) (draggedIndex pg) (isDragging pg))
  else
    await r := attempt (PostApi.createPost (buildCreatePostRequest pg)) in
    match r with
    | inl error => ret pg
    | inr result =>
        if (negb (truthy result)
            || strict_eq (get_prop result "postId") VUndef)%bool
        then ret pg
        else
          let cleared := clearDraft pg in
          ret (mkPage (titleValue pg) (contentValue pg) (imageMode pg) []
                 (primaryImageIndex pg) (draggedIndex pg) (isDragging pg)
                 (aiReferenceImage pg) (aiGeneratedImage pg)
                 (localStorage cleared) false
                 (Some [Lit "/post/"; Param (get_prop result "postId")]))
    end.

End WritePage.

(* ===================================================================== *)
(** ** utils/layout.js: the shared modal *)
(* ===================================================================== *)

Module Layout.

(** A callback handed to [openModal].  It is known by a label, recorded
    when it runs, and it may itself close the modal or open another one,
    as the callbacks of the pages do.  Callbacks are taken to return. *)
Inductive callback :=
| Callback (label : nat) (body : list action)
with action :=
| CallCloseModal
| CallOpenModal (onConfirm onCancel : option callback).

(** The closures created by one call of [openModal]: [handleConfirm],
    [handleCancel], [handleOverlayClick] and [handleKeydown] share the
    captured callbacks; [hid] is their identity as listeners. *)
Record handlers := mkHandlers {
  hid : nat;
  onConfirm : option callback;
  onCancel : option callback;
}.

Record state := mkState {
  loaded : bool;                       (* the modal elements exist *)
  hidden : bool;                       (* #modal-overlay [hidden] *)
  confirmClick : list handlers;        (* listeners of #modal-confirm *)
  cancelClick : list handlers;         (* listeners of #modal-cancel *)
  overlayClick : list handlers;        (* listeners of #modal-overlay *)
  keydown : list handlers;             (* listeners of document *)
  currentModalHandlers : option handlers;
  fresh : nat;                         (* next closure identity *)
  invoked : list nat;                  (* labels of the callbacks run *)
}.

Definition loadModal : state :=
  mkState true true [] [] [] [] None 0 [].

(** [target.removeEventListener(type, listener)] *)
Definition removeListener (h : handlers) (ls : list handlers) : list handlers :=
  List.filter (fun l => negb (Nat.eqb (hid l) (hid h))) ls.

Definition cleanupModalHandlers (st : state) : state :=
  match currentModalHandlers st with
  | None => st
  | Some h =>
      mkState (loaded st) (hidden st)
        (removeListener h (confirmClick st))
        (removeListener h (cancelClick st))
        (removeListener h (overlayClick st))
        (removeListener h (keydown st))
        None (fresh st) (invoked st)
  end.

Definition closeModal (st : state) : state :=
  if loaded st
  then
    let st' := cleanupModalHandlers
                 (mkState (loaded st) true (confirmClick st) (cancelClick st)
                    (overlayClick st) (keydown st) (currentModalHandlers st)
                    (fresh st) (invoked st)) in
    st'
  else st.

Definition openModal (onConfirm onCancel : option callback) (st : state) : state :=
  if negb (loaded st) then st
  else
    let st1 := cleanupModalHandlers st in
    let h := mkHandlers (fresh st1) onConfirm onCancel in
    mkState (loaded st1) false
      (confirmClick st1 ++ [h]) (cancelClick st1 ++ [h])
      (overlayClick st1 ++ [h]) (keydown st1 ++ [h])
      (Some h) (S (fresh st1)) (invoked st1).

Definition run_action (st : state) (a : action) : state :=
  match a with
  | CallCloseModal => closeModal st
  | CallOpenModal c c' => openModal c c' st
  end.

(** Running a callback: its label is recorded, then its body runs. *)
Definition invoke (cb : option callback) (st : state) : state :=
  match cb with
  | None => st
  | Some (Callback label body) =>
      List.fold_left run_action body
        (mkState (loaded st) (hidden st) (confirmClick st) (cancelClick st)
           (overlayClick st) (keydown st) (currentModalHandlers st)
           (fresh st) (invoked st ++ [label]))
  end.

Definition handleConfirm (h : handlers) (st : state) : state :=
  closeModal (invoke (onConfirm h) st).

Definition handleCancel (h : handlers) (st : state) : state :=
  closeModal (invoke (onCancel h) st).

Definition registered (h : handlers) (ls : list handlers) : bool :=
  List.existsb (fun l => Nat.eqb (hid l) (hid h)) ls.

(** Dispatching an event: the listeners present when the dispatch
    starts run in order, except those removed in the meantime. *)
Fixpoint dispatch (run : handlers -> state -> state)
         (current : state -> list handlers)
         (snapshot : list handlers) (st : state) : state :=
  match snapshot with
  | [] => st
  | h :: rest =>
      dispatch run current rest
        (if registered h (current st) then run h st else st)
  end.

Definition clickConfirm (st : state) : state :=
  dispatch handleConfirm confirmClick (confirmClick st) st.

Definition clickCancel (st : state) : state :=
  dispatch handleCancel cancelClick (cancelClick st) st.

(** A click whose target is the overlay itself, and the Escape key. *)
Definition clickOverlay (st : state) : state :=
  dispatch handleCancel overlayClick (overlayClick st) st.

Definition pressEscape (st : state) : state :=
  dispatch handleCancel keydown (keydown st) st.

(** What can happen to the modal on a page. *)
Inductive event :=
| Open (onConfirm onCancel : option callback)
| Close
| ClickConfirm
| ClickCancel
| ClickOverlay
| PressEscape.

Definition step (st : state) (e : event) : state :=
  match e with
  | Open c c' => openModal c c' st
  | Close => closeModal st
  | ClickConfirm => clickConfirm st
  | ClickCancel => clickCancel st
  | ClickOverlay => clickOverlay st
  | PressEscape => pressEscape st
  end.

Definition run (events : list event) (st : state) : state :=
  List.fold_left step events st.

Definition label_of (cb : option callback) : list nat :=
  match cb with
  | Some (Callback label _) => [label]
  | None => []
  end.

Definition no_listeners (st : state) : Prop :=
  confirmClick st = [] /\ cancelClick st = [] /\ overlayClick st = []
  /\ keydown st = [] /\ currentModalHandlers st = None.

End Layout.

(* ===================================================================== *)
(** ** The post page: image carousel and the id in the address *)
(* ===================================================================== *)

Module Carousel.
Import JS.
Local Open Scope Z_scope.

Definition dragThreshold : Z := 50.

(** The module variables of the carousel, and the number of slides that
    [renderImageCarousel] has put in the track.  Pointer coordinates are
    taken to be integers. *)
Record state := mkState {
  currentSlide : Z;
  totalSlides : Z;
  isDragging : bool;
  startX : Z;
  currentX : Z;
  slides : nat;
}.

Definition initial : state := mkState 0 0 false 0 0 0%nat.

(** [img.imageUrls?.webpUrl || img.imageUrls?.jpgUrl] *)
Definition imageUrl (img : jsval) : jsval :=
  or_else (opt_prop (get_prop img "imageUrls") "webpUrl")
          (opt_prop (get_prop img "imageUrls") "jpgUrl").

(** An image without a URL gets no slide. *)
Definition rendered (images : list jsval) : nat :=
  List.length (List.filter (fun img => truthy (imageUrl img)) images).

(** [renderImageCarousel(images)].  The result is [None] when an entry
    of the array is [null] or [undefined], on which the function throws
    (in the comparison of positions or when it reads the URLs). *)
Definition renderImageCarousel (images : jsval) (st : state) : option state :=
  match images with
  | VArr [] => Some st
  | VArr imgs =>
      if List.existsb nullish imgs then None
      else Some (mkState 0 (Z.of_nat (List.length imgs)) (isDragging st)
                   (startX st) (currentX st) (rendered imgs))
  | _ => Some st
  end.

Definition goToSlide (index : Z) (st : state) : state :=
  if (Z.ltb index 0 || Z.leb (totalSlides st) index)%bool then st
  else mkState index (totalSlides st) (isDragging st) (startX st)
         (currentX st) (slides st).

Definition nextSlide (st : state) : state :=
  if Z.ltb (currentSlide st) (totalSlides st - 1)
  then mkState (currentSlide st + 1) (totalSlides st) (isDragging st)
         (startX st) (currentX st) (slides st)
  else st.

Definition prevSlide (st : state) : state :=
  if Z.ltb 0 (currentSlide st)
  then mkState (currentSlide st - 1) (totalSlides st) (isDragging st)
         (startX st) (currentX st) (slides st)
  else st.

(** [clientX] is the coordinate of the pointer. *)
Definition handleDragStart (clientX : Z) (st : state) : state :=
  if Z.leb (totalSlides st) 1 then st
  else mkState (currentSlide st) (totalSlides st) true clientX clientX
         (slides st).

Definition handleDragMove (clientX : Z) (st : state) : state :=
  if negb (isDragging st) then st
  else mkState (currentSlide st) (totalSlides st) true (startX st) clientX
         (slides st).

Definition handleDragEnd (st : state) : state :=
  if negb (isDragging st) then st
  else
    let diff := currentX st - startX st in
    let slide :=
      if Z.ltb dragThreshold (Z.abs diff)
      then
        if (Z.ltb 0 diff && Z.ltb 0 (currentSlide st))%bool
        then currentSlide st - 1
        else if (Z.ltb diff 0
                 && Z.ltb (currentSlide st) (totalSlides st - 1))%bool
        then currentSlide st + 1
        else currentSlide st
      else currentSlide st in
    mkState slide (totalSlides st) false (startX st) (currentX st) (slides st).

(** What can happen to the carousel of a page. *)
Inductive event :=
| Render (images : jsval)
| Dot (index : Z)
| Next
| Prev
| DragStart (clientX : Z)
| DragMove (clientX : Z)
| DragEnd.

Definition step (st : state) (e : event) : option state :=
  match e with
  | Render images => renderImageCarousel images st
  | Dot index => Some (goToSlide index st)
  | Next => Some (nextSlide st)
  | Prev => Some (prevSlide st)
  | DragStart x => Some (handleDragStart x st)
  | DragMove x => Some (handleDragMove x st)
  | DragEnd => Some (handleDragEnd st)
  end.

Fixpoint run (events : list event) (st : state) : option state :=
  match events with
  | [] => Some st
  | e :: rest =>
      match step st e with
      | Some st' => run rest st'
      | None => None
      end
  end.

End Carousel.

Module PostPage.
Import JS.

(** [s.split('/')]: the pieces between the slashes, at least one. *)
Fixpoint split_slash (s : jsstring) : list jsstring :=
  match s with
  | [] => [[]]
  | c :: rest =>
      if N.eqb c 47 then [] :: split_slash rest
      else
        match split_slash rest with
        | piece :: pieces => (c :: piece) :: pieces
        | [] => [[c]]
        end
  end.

(** [getPostIdFromUrl()] for [window.location.pathname]; [None] is
    [null]. *)
Definition getPostIdFromUrl (pathname : jsstring) : option jsstring :=
  let pathParts := split_slash pathname in
  let postId := List.last pathParts [] in
  if (negb (truthy (VStr postId))
      || jsstring_eqb postId (js "undefined")
      || jsstring_eqb postId (js "null"))%bool
  then None
  else Some postId.

End PostPage.

(* ===================================================================== *)
(** ** Header and bottom navigation *)
(* ===================================================================== *)

Module Header.
Import JS.

(** What the back button does. *)
Inductive navigation :=
| HistoryBack
| Assign (href : jsstring).

Definition defaultBackRoutes : list (jsstring * jsstring) :=
  [(js "/profile/edit", js "/profile");
   (js "/profile", js "/feed");
   (js "/post/", js "/feed");
   (js "/write", js "/feed")].

(** The [for ... of] loop with its [break]. *)
Fixpoint backUrl (currentPath : jsstring) (routes : list (jsstring * jsstring))
         (defaultBackUrl : jsstring) : jsstring :=
  match routes with
  | [] => defaultBackUrl
  | (prefix, url) :: rest =>
      if starts_with prefix currentPath then url
      else backUrl currentPath rest defaultBackUrl
  end.

(** [handleSmartBack()], given [document.referrer], the origin and path
    of the location, and [history.length]. *)
Definition handleSmartBack (referrer currentOrigin currentPath : jsstring)
           (historyLength : Z) : navigation :=
  let defaultBackUrl := backUrl currentPath defaultBackRoutes (js "/feed") in
  if (truthy (VStr referrer) && starts_with currentOrigin referrer
      && Z.ltb 1 historyLength)%bool
  then HistoryBack
  else Assign defaultBackUrl.

End Header.

Module BottomNav.
Import JS.




End BottomNav.

(* ===================================================================== *)
(** ** The edit page of a post *)
(* ===================================================================== *)

Module EditPage.
Import JS Http.

Record page := mkPage {
  titleValue : jsstring;                 (* #post-title .value *)
  contentValue : jsstring;               (* #post-content .value *)
  currentPost : jsval;                   (* null until the post is loaded *)
  selectedImage : option jsval;          (* the File picked, if any *)
  removeCurrentImage : bool;
  postId : jsval;                        (* URLSearchParams.get('id') *)
  location : option (list segment);      (* set by location.replace *)
}.

Definition validateTitle (pg : page) : bool :=
  let title := trim (titleValue pg) in
  if Z.ltb (Z.of_nat (List.length title)) 2 then false
  else if Z.ltb 26 (Z.of_nat (List.length title)) then false
  else true.

Definition validateContent (pg : page) : bool :=
  let content := trim (contentValue pg) in
  if Z.ltb (Z.of_nat (List.length content)) 2 then false
  else if Z.ltb 10000 (Z.of_nat (List.length content)) then false
  else true.

(** [!currentPost || trimmed !== (currentPost.k ?? '').trim()] *)
Definition changed (k : string) (trimmed : jsstring) (pg : page) : api bool :=
  if negb (truthy (currentPost pg)) then ret true
  else
    await old := call_trim (coalesce (get_prop (currentPost pg) k) (VStr [])) in
    ret (negb (strict_eq (VStr trimmed) old)).

(** [handleSubmit]; [uploadImageComplete] is the upload of the picked
    file, which answers with the metadata of the image or throws. *)
Definition handleSubmit `{Coercions} (uploadImageComplete : jsval -> api jsval)
           (pg : page) : api page :=
  if negb (validateTitle pg && validateContent pg)%bool then ret pg
  else if negb (truthy (postId pg)) then ret pg
  else
    let trimmedTitle := trim (titleValue pg) in
    let trimmedContent := trim (contentValue pg) in
    await titleChanged := changed "title" trimmedTitle pg in
    await contentChanged := changed "content" trimmedContent pg in
    await r := attempt
      (await imageIds :=
         (match selectedImage pg with
          | Some file =>
              await uploadedImage := uploadImageComplete file in
              if negb (strict_eq (opt_prop uploadedImage "imageId") VUndef)
              then ret (VArr [opt_prop uploadedImage "imageId"])
              else ret VUndef
          | None =>
              if removeCurrentImage pg then ret (VArr []) else ret VUndef
          end) in
       if (negb titleChanged && negb contentChanged
           && strict_eq imageIds VUndef)%bool
       then ret false
       else
         PostApi.updatePost (postId pg)
           {| PostApi.u_title :=
                if titleChanged then VStr trimmedTitle else VUndef;
              PostApi.u_content :=
                if contentChanged then VStr trimmedContent else VUndef;
              PostApi.u_imageIds := imageIds |} ;;;
         ret true) in
    match r with
    | inr true =>
        ret (mkPage (titleValue pg) (contentValue pg) (currentPost pg)
               (selectedImage pg) (removeCurrentImage pg) (postId pg)
               (Some [Lit "/post/"; Param (postId pg)]))
    | _ => ret pg
    end.

End EditPage.

(* ===================================================================== *)
(** ** services/api-config.js and the toasts of utils/layout.js *)
(* ===================================================================== *)

Module ApiConfig.
Import JS.

(** The promise stored in [configPromise]. *)
Inductive promise :=
| Pending
| Resolved (config : jsval).

(** [configCache], [configPromise], the number of requests made for
    /config, the callers waiting on the pending promise and the values
    handed to the callers served so far. *)
Record state := mkState {
  configCache : jsval;
  configPromise : option promise;
  fetches : nat;
  waiting : nat;
  delivered : list jsval;
}.

Definition initial : state := mkState VNull None 0 0 [].

Definition fallback : jsval :=
  VObj [("API_BASE_URL", VStr (js "/api/")); ("IMAGE_UPLOAD_API", VStr [])].

(** A caller awaits [fetchConfig()]. *)
Definition fetchConfig (st : state) : state :=
  if truthy (configCache st)
  then mkState (configCache st) (configPromise st) (fetches st) (waiting st)
         (delivered st ++ [configCache st])
  else
    match configPromise st with
    | Some (Resolved config) =>
        mkState (configCache st) (configPromise st) (fetches st) (waiting st)
          (delivered st ++ [config])
    | Some Pending =>
        mkState (configCache st) (configPromise st) (fetches st)
          (S (waiting st)) (delivered st)
    | None =>
        mkState (configCache st) (Some Pending) (S (fetches st))
          (S (waiting st)) (delivered st)
    end.

(** The request settles: [outcome] is the value of [res.json()], or the
    message of the error with which [fetch] or [res.json()] rejected. *)
Definition settle (outcome : string + jsval) (st : state) : state :=
  match configPromise st with
  | Some Pending =>
      let config :=
        match outcome with
        | inr config => config
        | inl message => fallback
        end in
      mkState config (Some (Resolved config)) (fetches st) 0
        (delivered st ++ List.repeat config (waiting st))
  | _ => st
  end.

(** [API_CONFIG.BASE_URL] *)
Definition BASE_URL (st : state) : jsval :=
  or_else (opt_prop (configCache st) "API_BASE_URL") (VStr (js "/api/")).

Inductive event :=
| Call
| Settle (outcome : string + jsval).

Definition step (st : state) (e : event) : state :=
  match e with
  | Call => fetchConfig st
  | Settle outcome => settle outcome st
  end.

Definition run (events : list event) (st : state) : state :=
  List.fold_left step events st.

End ApiConfig.

Module Toast.
Import JS.

(** A toast in the document: its identity, its text and type, whether
    the fade-out class is set, and the container it was appended to. *)
Record toast := mkToast {
  tid : nat;
  message : jsval;
  type : jsval;
  fading : bool;
  home : nat;
}.

(** The [.toast-container] in the document, if any, and the toasts in
    the document, in document order. *)
Record state := mkState {
  container : option nat;
  toasts : list toast;
  fresh : nat;                 (* next identity of an element *)
}.

Definition initial : state := mkState None [] 0.

(** [showToast(message, type)]: the container is found or created and
    the toast appended; its first timer is then pending. *)
Definition showToast (message type : jsval) (st : state) : state :=
  match container st with
  | Some c =>
      mkState (Some c)
        (toasts st ++ [mkToast (fresh st) message (default_param type (VStr (js "success")))
                         false c])
        (S (fresh st))
  | None =>
      mkState (Some (fresh st))
        (toasts st ++ [mkToast (S (fresh st)) message
                         (default_param type (VStr (js "success")))
                         false (fresh st)])
        (S (S (fresh st)))
  end.

(** The first timer of toast [t] fires. *)
Definition fadeOut (t : nat) (st : state) : state :=
  mkState (container st)
    (List.map (fun x => if Nat.eqb (tid x) t
                        then mkToast (tid x) (message x) (type x) true (home x)
                        else x) (toasts st))
    (fresh st).

(** The second timer of toast [t], appended to container [c], fires:
    the toast is removed, and the container when it holds no toast. *)
Definition removeToast (t c : nat) (st : state) : state :=
  let rest := List.filter (fun x => negb (Nat.eqb (tid x) t)) (toasts st) in
  let children := List.filter (fun x => Nat.eqb (home x) c) rest in
  mkState
    (match children, container st with
     | [], Some c' => if Nat.eqb c' c then None else Some c'
     | _, current => current
     end)
    rest (fresh st).

(** A timer fires only for a toast that was shown, the second after the
    first. *)
Inductive event :=
| Show (message type : jsval)
| Fade (t : nat)
| Remove (t : nat).

Definition home_of (t : nat) (st : state) : option nat :=
  match List.find (fun x => Nat.eqb (tid x) t) (toasts st) with
  | Some x => if fading x then Some (home x) else None
  | None => None
  end.

Definition step (st : state) (e : event) : state :=
  match e with
  | Show message type => showToast message type st
  | Fade t => fadeOut t st
  | Remove t =>
      match home_of t st with
      | Some c => removeToast t c st
      | None => st
      end
  end.

Definition run (events : list event) (st : state) : state :=
  List.fold_left step events st.

End Toast.

(* ===================================================================== *)
(** ** Profile, feedback and onboarding pages *)
(* ===================================================================== *)

Module Profile.
Import JS Http.

(** What the two handlers touch: the local storage and the location. *)
Record page := mkPage {
  localStorage : gmap string jsstring;
  location : option jsstring;          (* set by location.href = ... *)
}.

(** [handleLogout]; [logout] is the call of the auth client.  The
    [finally] clause runs whether [logout] returned or threw. *)
Definition handleLogout (logout : api jsval) (pg : page) : api page :=
  await r := attempt logout in
  ret (mkPage (delete "anoo_post_draft" (localStorage pg))
              (Some (js "/login"))).

(** [handleDeleteAccount]; [deleteCurrentUser] is the call of the user
    client. *)
Definition handleDeleteAccount (deleteCurrentUser : api jsval) (pg : page)
  : api page :=
  await r := attempt deleteCurrentUser in
  match r with
  | inr _ =>
      ret (mkPage (delete "anoo_post_draft" (localStorage pg))
                  (Some (js "/login")))
  | inl error => ret pg
  end.

End Profile.

Module Feedback.
Import JS Http.

Definition MAX_LENGTH : Z := 2000.

(** [validateContent(content)] *)
Definition validateContent (content : jsstring) : bool :=
  let trimmed := trim content in
  (Z.ltb 0 (Z.of_nat (List.length trimmed))
   && Z.leb (Z.of_nat (List.length trimmed)) MAX_LENGTH)%bool.

(** The text area, and whether the last submission got through. *)
Record form := mkForm {
  value : jsstring;
  sent : bool;
}.

(** [handleSubmit]; [appVersion] is the outcome of [getAppVersion()],
    [platform] what [detectPlatform()] returns and [createdAt] the time
    of the submission as an ISO string. *)
Definition handleSubmit (appVersion : exn + jsval) (platform createdAt : jsval)
           (f : form) : api form :=
  let content := trim (value f) in
  if negb (validateContent content) then ret f
  else
    await r := attempt
      (match appVersion with
       | inl e => throw e
       | inr version =>
           FeedbackApi.submitFeedback
             (VObj [("content", VStr content);
                    ("appVersion", version);
                    ("platform", platform);
                    ("createdAt", createdAt)])
       end) in
    match r with
    | inr _ => ret (mkForm [] true)
    | inl error => ret f
    end.

End Feedback.

Module Onboarding.
Import JS.
Local Open Scope Z_scope.

Definition TOTAL_SLIDES : Z := 3.

(** [currentSlide], the slide that carries the class [active] if any,
    and what [finishOnboarding] leaves behind. *)
Record state := mkState {
  currentSlide : Z;
  active : option Z;
  complete : bool;                 (* anoo_onboarding_complete is stored *)
  location : option jsstring;
}.

Definition initial : state := mkState 0 (Some 0) false None.

(** [goToSlide(index)] for the index of one of the three slides.  The
    class added to the slide left is [prev] when moving forward and the
    empty string otherwise, and [classList.add] throws a SyntaxError on
    an empty token, after [active] was taken from the slide left:
    [None] is that throw. *)
Definition goToSlide (index : Z) (st : state) : state * option string :=
  if Z.ltb (currentSlide st) index
  then (mkState index (Some index) (complete st) (location st), None)
  else (mkState (currentSlide st)
          (match active st with
           | Some a => if Z.eqb a (currentSlide st) then None else Some a
           | None => None
           end)
          (complete st) (location st),
        Some "SyntaxError: The token provided must not be empty")%string.

Definition finishOnboarding (st : state) : state :=
  mkState (currentSlide st) (active st) true (Some (js "/login")).

(** The next button, the skip button, a dot, and a swipe from
    [touchStartX] to [touchEndX]. *)
Inductive event :=
| ClickNext
| ClickSkip
| ClickDot (index : Z)
| Swipe (touchStartX touchEndX : Z).

Definition step (st : state) (e : event) : state :=
  match e with
  | ClickNext =>
      if Z.ltb (currentSlide st) (TOTAL_SLIDES - 1)
      then fst (goToSlide (currentSlide st + 1) st)
      else finishOnboarding st
  | ClickSkip => finishOnboarding st
  | ClickDot index => fst (goToSlide index st)
  | Swipe touchStartX touchEndX =>
      let diff := touchStartX - touchEndX in
      let threshold := 50 in
      if (Z.ltb threshold diff && Z.ltb (currentSlide st) (TOTAL_SLIDES - 1))%bool
      then fst (goToSlide (currentSlide st + 1) st)
      else if (Z.ltb diff (- threshold) && Z.ltb 0 (currentSlide st))%bool
      then fst (goToSlide (currentSlide st - 1) st)
      else st
  end.

Definition run (events : list event) (st : state) : state :=
  List.fold_left step events st.

End Onboarding.

(* ===================================================================== *)
(** ** The prompt route of the AI proxy, and picking images *)
(* ===================================================================== *)

Module AiPrompt.
Import JS Server.

(** [process.env.GEMINI_API_KEY], [buildSystemPrompt] (whose text is not
    modelled: it returns the prompt, or throws) and the prompt model of
    Gemini, called with the parts of the request; the generation
    settings sent along are constant. *)
Class Service := {
  GEMINI_API_KEY : jsval;
  buildSystemPrompt : jsval -> jsval -> bool -> string + jsval;
  generateContent : list jsval -> string + response;
}.

Definition inlineData (data mimeType : jsval) : jsval :=
  VObj [("inlineData",
         VObj [("data", data);
               ("mimeType", or_else mimeType (VStr (js "image/jpeg")))])].

(** The parts sent: the profile image, the reference image if any, and
    the system prompt. *)
Definition parts (body systemPrompt : jsval) : list jsval :=
  [inlineData (get_prop body "profileImageBase64")
              (get_prop body "profileImageMimeType")] ++
  (if truthy (get_prop body "referenceImageBase64")
   then [inlineData (get_prop body "referenceImageBase64")
                    (get_prop body "referenceImageMimeType")]
   else []) ++
  [VObj [("text", systemPrompt)]].

(** [router.post('/generate-prompt', validateApiKey, ...)]: the reply
    and the calls made to Gemini. *)
Definition generate_prompt `{Service} (body : jsval)
  : reply * list (list jsval) :=
  if negb (truthy GEMINI_API_KEY)
  then (AiRoute.error_reply 500 "API 키가 설정되지 않았습니다."
          "API_KEY_NOT_CONFIGURED", [])
  else if nullish body
  then (AiRoute.internal_error, [])
  else if negb (truthy (get_prop body "profileImageBase64"))
  then (AiRoute.error_reply 400 "프로필 이미지가 필요합니다."
          "PROFILE_IMAGE_REQUIRED", [])
  else if negb (truthy (get_prop body "postContent"))
  then (AiRoute.error_reply 400 "본문 내용이 필요합니다." "CONTENT_REQUIRED", [])
  else
    match buildSystemPrompt (get_prop body "postContent")
            (get_prop body "options")
            (truthy (get_prop body "referenceImageBase64")) with
    | inl message => (AiRoute.internal_error, [])
    | inr systemPrompt =>
        let sent := parts body systemPrompt in
        match generateContent sent with
        | inl message => (AiRoute.internal_error, [sent])
        | inr response =>
            if negb (ok response)
            then
              match json response with
              | inr error =>
                  if nullish error then (AiRoute.internal_error, [sent])
                  else (AiRoute.error_reply (upstream_status response)
                          "프롬프트 생성에 실패했습니다."
                          "PROMPT_GENERATION_FAILED", [sent])
              | inl message =>
                  (AiRoute.error_reply (upstream_status response)
                     "프롬프트 생성에 실패했습니다."
                     "PROMPT_GENERATION_FAILED", [sent])
              end
            else
              match json response with
              | inl message => (AiRoute.internal_error, [sent])
              | inr data =>
                  if nullish data then (AiRoute.internal_error, [sent]) else
                  let generatedText :=
                    opt_prop
                      (AiRoute.opt_first
                         (opt_prop
                            (opt_prop
                               (AiRoute.opt_first (opt_prop data "candidates"))
                               "content") "parts")) "text" in
                  if negb (truthy generatedText)
                  then (AiRoute.error_reply 500 "프롬프트 생성 결과가 없습니다."
                          "NO_PROMPT_RESULT", [sent])
                  else (mkReply 200
                          (Json (VObj [("success", VBool true);
                                       ("prompt", generatedText);
                                       ("rawResponse", data)])),
                        [sent])
              end
        end
    end.

End AiPrompt.

Module Uploads.
Import JS WritePage.

Definition MAX_IMAGES_AI : nat := 1.
Definition MAX_FILE_SIZE : Z := 5 * 1024 * 1024.

Definition ALLOWED_TYPES : list jsstring :=
  [js "image/jpeg"; js "image/jpg"; js "image/png"; js "image/webp"].

Definition ALLOWED_EXTENSIONS : list jsstring :=
  [js "jpg"; js "jpeg"; js "png"; js "webp"].

(** What the code reads of a [File]. *)
Record file := mkFile {
  name : jsstring;
  type : jsstring;
  size : Z;
}.

(** The built-ins around the picker: [String.prototype.toLowerCase] and
    the preview URL that [URL.createObjectURL] makes for the file. *)
Class Browser := {
  toLowerCase : jsstring -> jsstring;
  createObjectURL : file -> jsval;
}.

(** [s.split('.').pop()] *)
Fixpoint after_last_dot (s : jsstring) : jsstring :=
  match s with
  | [] => []
  | c :: rest =>
      if List.existsb (N.eqb 46) rest then after_last_dot rest
      else if N.eqb c 46 then rest
      else s
  end.

Definition validateImageFile `{Browser} (f : file) : bool :=
  let fileExtension := toLowerCase (after_last_dot (name f)) in
  if (negb (List.existsb (jsstring_eqb (type f)) ALLOWED_TYPES)
      && negb (List.existsb (jsstring_eqb fileExtension) ALLOWED_EXTENSIONS))%bool
  then false
  else if Z.ltb MAX_FILE_SIZE (size f) then false
  else true.

Definition getMaxImages (pg : page) : nat :=
  match imageMode pg with
  | ai => MAX_IMAGES_AI
  | manual => MAX_IMAGES_MANUAL
  end.

(** The previews pushed for the files kept, the first one with identity
    [next]: invalid files are passed over. *)
Fixpoint previews `{Browser} (files : list file) (next : nat) : list image :=
  match files with
  | [] => []
  | f :: rest =>
      if validateImageFile f
      then mkImage next (createObjectURL f) VNull true None
           :: previews rest (S next)
      else previews rest next
  end.

(** [addImages(files)] up to the rendering of the previews; the uploads
    run afterwards. *)
Definition addImages `{Browser} (files : list file) (next : nat) (pg : page)
  : page :=
  let maxImages := getMaxImages pg in
  if Nat.leb maxImages (List.length (uploadedImages pg)) then pg
  else
    let remainingSlots := (maxImages - List.length (uploadedImages pg))%nat in
    let filesToAdd := firstn remainingSlots files in
    with_images pg (uploadedImages pg ++ previews filesToAdd next)
      (primaryImageIndex pg) (draggedIndex pg) (isDragging pg).

End Uploads.

(* ===================================================================== *)
(** ** What the specification says, in the terms of the model *)
(* ===================================================================== *)

Module Spec.
Import JS Http.

(** "title length 2-26, content length 2-10000", after trimming. *)
Definition within (lo hi : Z) (v : jsval) : bool :=
  match v with
  | VStr s =>
      (Z.leb lo (Z.of_nat (List.length (trim s)))
       && Z.leb (Z.of_nat (List.length (trim s))) hi)%bool
  | _ => false
  end.

(** "clamp limit into [1,50]; limit=0 is sent as default": the limit
    sent for a requested limit whose numeric conversion is [n]. *)
Definition sent_limit (dflt : Z) (n : jsnum) : Z :=
  match n with
  | NaN => dflt
  | PosInf => 50
  | NegInf => 1
  | Fin z => if Z.eqb z 0 then dflt else Z.min (Z.max z 1) 50
  end.

(** The array check of [normalizeImageIds] passes. *)
Definition ids_shape_ok (v : jsval) : bool :=
  match v with
  | VUndef | VNull | VArr _ => true
  | _ => false
  end.

(** A field is supplied when it is not [undefined]. *)
Definition supplied (v : jsval) : bool := negb (strict_eq v VUndef).

(** A backend that answers every request with an empty envelope. *)
Definition empty_envelope : wrapper := fun _ _ => inr (VObj [("data", VNull)]).

(** "The underlying HTTP error propagates unchanged to the caller", with
    no retry: the function sends nothing (its input was rejected), or it
    sends one request and, when the wrapper throws on it, throws the
    same error. *)
Definition propagates {A} (m : api A) : Prop :=
  forall (w : wrapper) (log : list request),
    snd (m w log) = log
    \/ exists r, snd (m w log) = log ++ [r]
                 /\ forall e, w log r = inl e -> fst (m w log) = inl e.

(** A backend on which every request fails with status 404. *)
Definition not_found : wrapper := fun _ _ => inl (HttpError 404 "Not Found").

Definition remaining_request : request :=
  mkRequest GET [Lit "/ai-generations/remaining"] VUndef.

(** *** Pagination *)

(** The envelope of a list response that "carries hasNext:true and
    nextCursor c"; [field] is the name under which the page controller
    reads the items. *)
Definition page_of (field : string) (items : list jsval) (next : jsval) : jsval :=
  VObj [("data", VObj [(field, VArr items); ("hasNext", VBool true);
                       ("nextCursor", next)])].

(** A cursor that the list calls put in the query. *)
Definition usable_cursor (c : jsval) : bool :=
  (negb (strict_eq c VUndef) && negb (strict_eq c VNull)
   && negb (strict_eq c (VStr [])))%bool.

Definition all_objects (items : list jsval) : bool :=
  List.forallb (fun p => negb (nullish p)) items.

(** The request of the feed, of the profile page and of the comment
    list for a stored cursor [c]. *)
Definition feed_request `{Coercions} (c : jsval) : request :=
  mkRequest GET [Lit "/posts"]
    (VObj [("query",
            PostApi.list_query
              {| PostApi.cursor := c; PostApi.sort := VUndef;
                 PostApi.limit := VNum (Fin Feed.PAGE_SIZE) |} 10)]).

Definition my_posts_request `{Coercions} (c : jsval) : request :=
  mkRequest GET [Lit "/posts/me"]
    (VObj [("query",
            PostApi.list_query
              {| PostApi.cursor := c; PostApi.sort := VUndef;
                 PostApi.limit := VNum (Fin MyPosts.MY_POSTS_PAGE_SIZE) |} 20)]).

Definition comments_request `{Coercions} (postId c : jsval) : request :=
  mkRequest GET [Lit "/posts/"; Param postId; Lit "/comments"]
    (VObj [("query",
            PostApi.list_query
              {| PostApi.cursor := c; PostApi.sort := VStr (js "desc");
                 PostApi.limit := VNum (Fin PostDetail.COMMENTS_PAGE_SIZE) |}
              20)]).

(** The cards made from a page of posts. *)
Definition card_of (post : jsval) : option PostCard.node :=
  match PostCard.createPostCard post with
  | inr (Some card) => Some card
  | _ => None
  end.

Definition cards_of (items : list jsval) : list PostCard.node :=
  omap card_of items.

(** "No duplicate ids": no two entries hold the same id, ids being
    compared as [Set] and [includes] compare them. *)
Fixpoint distinct_ids (ids : list jsval) : Prop :=
  match ids with
  | [] => True
  | id :: rest =>
      (forall id', In id' rest -> same_value_zero id id' = false)
      /\ distinct_ids rest
  end.

(** A page controller may load: it is idle and expects more. *)
Definition feed_ready (st : Feed.state) : bool :=
  (negb (Feed.isLoading st) && truthy (Feed.hasNext st))%bool.

Definition my_posts_ready (st : MyPosts.state) : bool :=
  (negb (MyPosts.myPostsIsLoading st) && truthy (MyPosts.myPostsHasNext st))%bool.

Definition comments_ready (st : PostDetail.state) : bool :=
  (negb (PostDetail.commentsIsLoading st)
   && truthy (PostDetail.commentsHasNext st))%bool.

(** The comments of a page that are not yet accumulated. *)
Definition fresh_comments (old items : list jsval) : list jsval :=
  List.filter
    (fun c => negb (PostDetail.set_has (PostDetail.comment_ids old)
                      (get_prop c "id")))
    items.

(** A post, and a backend whose every page holds that post and carries
    hasNext true and nextCursor abc. *)
Definition post1 : jsval :=
  VObj [("postId", VNum (Fin 1)); ("title", VStr (js "first"))].

Definition repeating_backend : wrapper :=
  fun _ _ => inr (page_of "posts" [post1] (VStr (js "abc"))).

(** Two comments, a post page that has accumulated the first, and a
    backend whose page holds both. *)
Definition comment1 : jsval := VObj [("id", VNum (Fin 1))].
Definition comment2 : jsval := VObj [("id", VNum (Fin 2))].

Definition one_comment : PostDetail.state :=
  PostDetail.mkState (VStr (js "abc")) (VBool true) false [comment1]
    (VNum (Fin 2)).

Definition overlapping_backend : wrapper :=
  fun _ _ => inr (page_of "comments" [comment1; comment2] (VStr (js "def"))).

(** *** Server *)

(** A URL whose host merely contains an allow-listed domain, and an
    upstream answer with a few bytes of an image. *)
Definition lookalike_url : jsval :=
  VStr (js "https://s3.ap-northeast-2.amazonaws.com.evil.example/x.png").

Definition lookalike_host : jsstring :=
  js "s3.ap-northeast-2.amazonaws.com.evil.example".

Definition png_response : Server.response :=
  Server.mkResponse true 200 (VStr (js "image/png")) [137; 80; 78; 71]%N []
    (inl "not JSON").

Definition plain_platform (f : jsval -> string + Server.response)
  : Server.Platform :=
  {| Server.URL_hostname := Server.plain_hostname; Server.fetch := f |}.

(** "The hostname is one of the allow-listed S3 domains." *)
Definition allow_listed (hostname : jsstring) : bool :=
  List.existsb (jsstring_eqb hostname) Server.allowedDomains.

(** A server with its API key, whose upstream is never reached in the
    cases considered. *)
Definition configured : AiRoute.Upstream :=
  {| AiRoute.GEMINI_API_KEY := VStr (js "key");
     AiRoute.gemini := fun _ => inl "unreachable" |}.

(** A server started without [GEMINI_API_KEY]. *)
Definition unconfigured : AiRoute.Upstream :=
  {| AiRoute.GEMINI_API_KEY := VUndef;
     AiRoute.gemini := fun _ => inl "unreachable" |}.

(** *** Write page *)

(** "The primary index is within bounds [0, length), 0 when the array is
    empty." *)
Definition primary_ok (pg : WritePage.page) : Prop :=
  (WritePage.primaryImageIndex pg < List.length (WritePage.uploadedImages pg))%nat
  \/ (WritePage.uploadedImages pg = []
      /\ WritePage.primaryImageIndex pg = 0%nat).


(** A page with no text, no image and an empty local storage, and the
    same page showing the given images. *)
Definition blank_page : WritePage.page :=
  WritePage.mkPage [] [] WritePage.manual [] 0 None false None None ∅ false None.

Definition picture (r : nat) : WritePage.image :=
  WritePage.mkImage r (VStr (js "blob:preview")) (VNum (Fin (Z.of_nat r)))
    false None.

(** A preview as [addImages] pushes it, its upload still running. *)
Definition preview (r : nat) : WritePage.image :=
  WritePage.mkImage r (VStr (js "blob:preview")) VNull true None.

Definition strip (images : list WritePage.image) (primary : nat)
           (dragged : option nat) : WritePage.page :=
  WritePage.with_images blank_page images primary dragged
    (match dragged with Some _ => true | None => false end).

(** Three files just picked: their previews are shown, the first one as
    primary, and the uploads are running. *)
Definition three_previews : WritePage.page :=
  strip [preview 1; preview 2; preview 3] 0 None.

(** What decoding one code unit prepends to the rest of a literal. *)
Definition decoded (c : N) (r : option (jsstring * jsstring))
  : option (jsstring * jsstring) :=
  match r with
  | Some (str, tail) => Some (c :: str, tail)
  | None => None
  end.

(** "Saving a draft with title hello": the page with that title typed in,
    and a backend that accepts the post and answers with its id. *)
Definition hello_page : WritePage.page :=
  WritePage.mkPage (js "hello") (js "hello world") WritePage.manual [] 0 None
    false None None ∅ false None.

Definition accepting_backend : wrapper :=
  fun _ _ => inr (VObj [("data", VObj [("postId", VNum (Fin 7))])]).

Definition timestamp : jsstring := js "2025-01-01T00:00:00.000Z".

(** The text has something to save. *)
Definition has_text (pg : WritePage.page) : bool :=
  (truthy (VStr (WritePage.titleValue pg))
   || truthy (VStr (WritePage.contentValue pg)))%bool.

(** *** Modal *)

(** The listeners attached are those of the modal that is open, if any:
    no closure of an earlier [openModal] is left on any target. *)
Definition tidy (st : Layout.state) : Prop :=
  Layout.loaded st = true
  /\ match Layout.currentModalHandlers st with
     | None =>
         Layout.confirmClick st = [] /\ Layout.cancelClick st = []
         /\ Layout.overlayClick st = [] /\ Layout.keydown st = []
     | Some h =>
         Layout.confirmClick st = [h] /\ Layout.cancelClick st = [h]
         /\ Layout.overlayClick st = [h] /\ Layout.keydown st = [h]
     end.


(** *** Repeated triggers *)

(** [n] further triggers of a loader, one after the other. *)
Fixpoint again {S} (load : S -> api S) (n : nat) (st : S) : api S :=
  match n with
  | O => ret st
  | S k => await st' := load st in again load k st'
  end.


(** A feed and a profile list that have shown their first page and hold
    the cursor abc, and a backend whose page is the last one. *)
Definition feed_on_second_page : Feed.state :=
  Feed.mkState (VStr (js "abc")) (VBool true) false false
    (Some [PostCard.Card (VNum (Fin 1)) post1]).

Definition my_posts_on_second_page : MyPosts.state :=
  MyPosts.mkState (VStr (js "abc")) (VBool true) false false
    (Some [PostCard.Card (VNum (Fin 1)) post1]) true (Some (VNum (Fin 30))).

Definition last_page_backend : wrapper :=
  fun _ _ =>
    inr (VObj [("data", VObj [("posts", VArr [post1]);
                              ("hasNext", VBool false);
                              ("nextCursor", VNull)])]).


(** *** Replies of the server *)

(** A field of the JSON body of a reply. *)
Definition reply_field (r : Server.reply) (k : string) : jsval :=
  match Server.sent r with
  | Server.Json body => get_prop body k
  | _ => VUndef
  end.

(** An upstream that answers every call with one generated image. *)
Definition generated : Server.response :=
  Server.mkResponse true 200 (VStr (js "application/json")) [] []
    (inr (VObj [("candidates",
                 VArr [VObj [("content",
                   VObj [("parts",
                     VArr [VObj [("inlineData",
                       VObj [("data", VStr (js "iVBORw0KGgo="))])]])])]])])).

Definition generating : AiRoute.Upstream :=
  {| AiRoute.GEMINI_API_KEY := VStr (js "key");
     AiRoute.gemini := fun _ => inr generated |}.

(** An upstream fetch that fails with 404. *)
Definition missing_response : Server.response :=
  Server.mkResponse false 404 VNull [] [] (inl "not JSON").

Definition image_request : jsval :=
  VObj [("prompt", VStr (js "a quiet street at dusk"));
        ("profileImageBase64", VStr (js "aGVsbG8="))].


(** *** Carousel *)





(** *** Edit page *)

(** The edit page of post 7 as loaded, its title then changed by the
    user. *)
Definition loaded_post : jsval :=
  VObj [("postId", VNum (Fin 7)); ("title", VStr (js "first"));
        ("content", VStr (js "hello world")); ("isAuthor", VBool true)].

Definition retitled_page : EditPage.page :=
  EditPage.mkPage (js " second ") (js "hello world") loaded_post None false
    (VStr (js "7")) None.

Definition no_upload : jsval -> api jsval :=
  fun _ => throw (Error "no file is uploaded").


(** *** Configuration cache and toasts *)

(** What holds of [configCache] and [configPromise] at every moment. *)
Definition config_consistent (st : ApiConfig.state) : Prop :=
  match ApiConfig.configPromise st with
  | None =>
      ApiConfig.fetches st = 0%nat /\ ApiConfig.waiting st = 0%nat
      /\ ApiConfig.delivered st = [] /\ truthy (ApiConfig.configCache st) = false
  | Some ApiConfig.Pending =>
      ApiConfig.fetches st = 1%nat
      /\ ApiConfig.delivered st = [] /\ truthy (ApiConfig.configCache st) = false
  | Some (ApiConfig.Resolved config) =>
      ApiConfig.fetches st = 1%nat /\ ApiConfig.waiting st = 0%nat
      /\ ApiConfig.configCache st = config
      /\ Forall (fun v => v = config) (ApiConfig.delivered st)
  end.

(** The toasts in the document sit in its one container, which holds at
    least one, and they are distinct elements. *)
Definition toasts_contained (st : Toast.state) : Prop :=
  Forall (fun x => Toast.container st = Some (Toast.home x)
                   /\ (Toast.tid x < Toast.fresh st)%nat) (Toast.toasts st)
  /\ (Toast.toasts st = [] -> Toast.container st = None)
  /\ List.NoDup (List.map Toast.tid (Toast.toasts st)).


(** *** Profile, feedback, onboarding *)

(** A profile page of a user who has a draft, and an auth client whose
    call fails. *)
Definition profile_with_draft : Profile.page :=
  Profile.mkPage
    (WritePage.localStorage (WritePage.saveDraft timestamp hello_page)) None.

Definition failing_call : api jsval :=
  fun _ log => (inl (HttpError 500 "Internal Server Error"), log).


End Spec.

(* ===================================================================== *)
(** ** Properties *)
(* ===================================================================== *)

Import JS Http.

Ltac run_api :=
  unfold bind, ret, throw, call, get, post, patch, del, prop, attempt,
    try_catch in *; simpl in *.

(** *** The monad of client code *)

Lemma bind_throws {A B} (m : api A) (k : A -> api B) w log e log' :
  m w log = (inl e, log') -> bind m k w log = (inl e, log').
Proof. intros Hm. unfold bind. rewrite Hm. reflexivity. Qed.

Lemma bind_returns {A B} (m : api A) (k : A -> api B) w log a log' :
  m w log = (inr a, log') -> bind m k w log = k a w log'.
Proof. intros Hm. unfold bind. rewrite Hm. reflexivity. Qed.

Lemma log_unchanged_not_extended (log : list request) r : log <> log ++ [r].
Proof.
  intros Heq. apply (f_equal (@List.length _)) in Heq.
  rewrite List.length_app in Heq. simpl in Heq. lia.
Qed.

(** *** Input validation of the post client *)

Section PostValidation.
Context `{Coercions}.

Lemma validateTitle_accepts v w log :
  Spec.within 2 26 v = true -> PostApi.validateTitle v w log = (inr tt, log).
Proof.
  destruct v; simpl; try discriminate. intros Hw.
  apply andb_prop in Hw as [Hlo Hhi].
  apply Z.leb_le in Hlo, Hhi.
  unfold PostApi.validateTitle; simpl.
  destruct (Z.eqb_spec (Z.of_nat (List.length (trim s))) 0); [lia|].
  destruct (Z.ltb_spec (Z.of_nat (List.length (trim s))) 2); [lia|].
  destruct (Z.ltb_spec 26 (Z.of_nat (List.length (trim s)))); [lia|].
  reflexivity.
Qed.

Lemma validateTitle_rejects v w log :
  Spec.within 2 26 v = false ->
  exists msg, PostApi.validateTitle v w log = (inl (Error msg), log).
Proof.
  unfold PostApi.validateTitle; intros Hw.
  destruct v; simpl in *; try (eexists; reflexivity).
  destruct (Z.eqb_spec (Z.of_nat (List.length (trim s))) 0);
    [eexists; reflexivity|].
  destruct (Z.ltb_spec (Z.of_nat (List.length (trim s))) 2);
    [eexists; reflexivity|].
  destruct (Z.ltb_spec 26 (Z.of_nat (List.length (trim s))));
    [eexists; reflexivity|].
  apply andb_false_iff in Hw as [Hw|Hw]; apply Z.leb_gt in Hw; lia.
Qed.

Lemma validateContent_accepts v w log :
  Spec.within 2 10000 v = true -> PostApi.validateContent v w log = (inr tt, log).
Proof.
  destruct v; simpl; try discriminate. intros Hw.
  apply andb_prop in Hw as [Hlo Hhi].
  apply Z.leb_le in Hlo, Hhi.
  unfold PostApi.validateContent; simpl.
  destruct (Z.eqb_spec (Z.of_nat (List.length (trim s))) 0); [lia|].
  destruct (Z.ltb_spec (Z.of_nat (List.length (trim s))) 2); [lia|].
  destruct (Z.ltb_spec 10000 (Z.of_nat (List.length (trim s)))); [lia|].
  reflexivity.
Qed.

Lemma validateContent_rejects v w log :
  Spec.within 2 10000 v = false ->
  exists msg, PostApi.validateContent v w log = (inl (Error msg), log).
Proof.
  unfold PostApi.validateContent; intros Hw.
  destruct v; simpl in *; try (eexists; reflexivity).
  destruct (Z.eqb_spec (Z.of_nat (List.length (trim s))) 0);
    [eexists; reflexivity|].
  destruct (Z.ltb_spec (Z.of_nat (List.length (trim s))) 2);
    [eexists; reflexivity|].
  destruct (Z.ltb_spec 10000 (Z.of_nat (List.length (trim s))));
    [eexists; reflexivity|].
  apply andb_false_iff in Hw as [Hw|Hw]; apply Z.leb_gt in Hw; lia.
Qed.

End PostValidation.

Section PostRequests.
Context `{Coercions}.

Lemma createPost_rejects (a : PostApi.CreatePostArgs) w log :
  (Spec.within 2 26 (PostApi.title a)
   && Spec.within 2 10000 (PostApi.content a))%bool = false ->
  exists msg, PostApi.createPost a w log = (inl (Error msg), log).
Proof.
  intros Hbad. unfold PostApi.createPost, bind at 1.
  destruct (Spec.within 2 26 (PostApi.title a)) eqn:Ht.
  - rewrite (validateTitle_accepts _ w log Ht).
    unfold bind at 1.
    simpl in Hbad.
    destruct (validateContent_rejects _ w log Hbad) as [msg Hmsg].
    rewrite Hmsg. eauto.
  - destruct (validateTitle_rejects _ w log Ht) as [msg Hmsg].
    rewrite Hmsg. eauto.
Qed.

Lemma normalizeImageIds_ok v d w log :
  Spec.ids_shape_ok v = true ->
  exists ids, PostApi.normalizeImageIds v d w log = (inr ids, log).
Proof.
  destruct v; simpl; try discriminate; intros _;
    unfold PostApi.normalizeImageIds; simpl; eexists; reflexivity.
Qed.

Lemma createPost_sends (a : PostApi.CreatePostArgs) w log t c :
  PostApi.title a = VStr t ->
  PostApi.content a = VStr c ->
  Spec.within 2 26 (PostApi.title a) = true ->
  Spec.within 2 10000 (PostApi.content a) = true ->
  Spec.ids_shape_ok (PostApi.imageIds a) = true ->
  exists r,
    snd (PostApi.createPost a w log) = log ++ [r]
    /\ req_method r = POST
    /\ req_path r = [Lit "/posts"]
    /\ body_field r "title" = VStr (trim t)
    /\ body_field r "content" = VStr (trim c).
Proof.
  intros Ht Hc Hwt Hwc Hids.
  unfold PostApi.createPost, bind at 1.
  rewrite (validateTitle_accepts _ w log Hwt).
  unfold bind at 1.
  rewrite (validateContent_accepts _ w log Hwc).
  unfold bind at 1.
  destruct (normalizeImageIds_ok _ (VArr []) w log Hids) as [ids Hn].
  rewrite Hn, Ht, Hc.
  run_api.
  eexists; split.
  - destruct (w log _) as [e|resp]; [reflexivity|].
    destruct (nullish resp); reflexivity.
  - simpl. repeat split; reflexivity.
Qed.

End PostRequests.

Section UpdateRequests.
Context `{Coercions}.

Lemma within_is_string lo hi v :
  Spec.within lo hi v = true -> exists s, v = VStr s.
Proof. destruct v; simpl; try discriminate; eauto. Qed.

Lemma updatePost_rejects postId (a : PostApi.UpdatePostArgs) w log :
  ((Spec.supplied (PostApi.u_title a)
    && negb (Spec.within 2 26 (PostApi.u_title a)))
   || (Spec.supplied (PostApi.u_content a)
       && negb (Spec.within 2 10000 (PostApi.u_content a))))%bool = true ->
  exists msg, PostApi.updatePost postId a w log = (inl (Error msg), log).
Proof.
  unfold Spec.supplied. intros Hbad. unfold PostApi.updatePost.
  destruct (PostApi.missing_id postId); [eexists; reflexivity|].
  destruct (strict_eq (PostApi.u_title a) VUndef) eqn:Hst;
    cbn [negb andb orb] in Hbad |- *.
  - erewrite bind_returns by reflexivity.
    destruct (strict_eq (PostApi.u_content a) VUndef);
      cbn [negb andb orb] in Hbad |- *; [discriminate|].
    apply negb_true_iff in Hbad.
    destruct (validateContent_rejects _ w log Hbad) as [msg Hmsg].
    exists msg. apply bind_throws, bind_throws. exact Hmsg.
  - destruct (Spec.within 2 26 (PostApi.u_title a)) eqn:Hwt;
      cbn [negb andb orb] in Hbad.
    + destruct (within_is_string _ _ _ Hwt) as [t Ht].
      erewrite bind_returns; cycle 1.
      { erewrite bind_returns by (apply validateTitle_accepts; exact Hwt).
        rewrite Ht. reflexivity. }
      destruct (strict_eq (PostApi.u_content a) VUndef);
        cbn [negb andb orb] in Hbad |- *; [discriminate|].
      apply negb_true_iff in Hbad.
      destruct (validateContent_rejects _ w log Hbad) as [msg Hmsg].
      exists msg. apply bind_throws, bind_throws. exact Hmsg.
    + destruct (validateTitle_rejects _ w log Hwt) as [msg Hmsg].
      exists msg. apply bind_throws, bind_throws. exact Hmsg.
Qed.

End UpdateRequests.

Section UpdateSends.
Context `{Coercions}.

Lemma normalizeImageIds_cases v d w log :
  (exists e, PostApi.normalizeImageIds v d w log = (inl e, log))
  \/ (exists ids, PostApi.normalizeImageIds v d w log = (inr ids, log)).
Proof.
  unfold PostApi.normalizeImageIds.
  destruct v; simpl; eauto.
Qed.

Lemma validateTitle_cases v w log :
  (exists e, PostApi.validateTitle v w log = (inl e, log))
  \/ (Spec.within 2 26 v = true /\ PostApi.validateTitle v w log = (inr tt, log)).
Proof.
  destruct (Spec.within 2 26 v) eqn:Hw.
  - right. split; [reflexivity|]. apply validateTitle_accepts, Hw.
  - left. destruct (validateTitle_rejects v w log Hw) as [msg Hm]. eauto.
Qed.

Lemma validateContent_cases v w log :
  (exists e, PostApi.validateContent v w log = (inl e, log))
  \/ (Spec.within 2 10000 v = true
      /\ PostApi.validateContent v w log = (inr tt, log)).
Proof.
  destruct (Spec.within 2 10000 v) eqn:Hw.
  - right. split; [reflexivity|]. apply validateContent_accepts, Hw.
  - left. destruct (validateContent_rejects v w log Hw) as [msg Hm]. eauto.
Qed.

Lemma patch_tail postId payload w log r :
  snd ((if Nat.eqb (List.length payload) 0
        then throw (Error "수정할 항목을 최소 1개 이상 입력해주세요.")
        else
          await response :=
            patch [Lit "/posts/"; Param postId] (VObj [("body", VObj payload)]) in
          await data := prop response "data" in
          ret (coalesce data VNull)) w log) = log ++ [r] ->
  r = mkRequest PATCH [Lit "/posts/"; Param postId]
        (VObj [("body", VObj payload)]).
Proof.
  destruct (Nat.eqb (List.length payload) 0).
  - simpl. intros Heq. symmetry in Heq.
    exfalso. eapply log_unchanged_not_extended. symmetry. exact Heq.
  - run_api.
    destruct (w log _) as [e|resp]; [|destruct (nullish resp)]; simpl;
      intros Heq; apply app_inv_head in Heq; congruence.
Qed.

(** The three optional parts of the payload: each sends nothing, and when
    it returns, it returns nothing for a field left out and the trimmed
    text of a valid string otherwise. *)
Lemma title_part (a : PostApi.UpdatePostArgs) w log :
  exists res,
    (if negb (strict_eq (PostApi.u_title a) VUndef)
     then PostApi.validateTitle (PostApi.u_title a) ;;;
          await t := call_trim (PostApi.u_title a) in
          ret [("title", t)]
     else ret []) w log = (res, log)
    /\ forall p1, res = inr p1 ->
         (Spec.supplied (PostApi.u_title a) = false /\ p1 = [])
         \/ (exists t, PostApi.u_title a = VStr t
                       /\ Spec.within 2 26 (PostApi.u_title a) = true
                       /\ p1 = [("title", VStr (trim t))]).
Proof.
  unfold Spec.supplied.
  destruct (negb (strict_eq (PostApi.u_title a) VUndef)).
  - destruct (validateTitle_cases (PostApi.u_title a) w log)
      as [[e He]|[Hwt Hvt]].
    + exists (inl e). split; [apply bind_throws, He | discriminate].
    + destruct (within_is_string _ _ _ Hwt) as [t Ht].
      exists (inr [("title", VStr (trim t))]). split.
      * erewrite bind_returns by exact Hvt. rewrite Ht. reflexivity.
      * intros p1 [= <-]. right. eauto.
  - exists (inr []). split; [reflexivity|]. intros p1 [= <-]. left. auto.
Qed.

Lemma content_part (a : PostApi.UpdatePostArgs) w log :
  exists res,
    (if negb (strict_eq (PostApi.u_content a) VUndef)
     then PostApi.validateContent (PostApi.u_content a) ;;;
          await c := call_trim (PostApi.u_content a) in
          ret [("content", c)]
     else ret []) w log = (res, log)
    /\ forall p2, res = inr p2 ->
         (Spec.supplied (PostApi.u_content a) = false /\ p2 = [])
         \/ (exists c, PostApi.u_content a = VStr c
                       /\ Spec.within 2 10000 (PostApi.u_content a) = true
                       /\ p2 = [("content", VStr (trim c))]).
Proof.
  unfold Spec.supplied.
  destruct (negb (strict_eq (PostApi.u_content a) VUndef)).
  - destruct (validateContent_cases (PostApi.u_content a) w log)
      as [[e He]|[Hwc Hvc]].
    + exists (inl e). split; [apply bind_throws, He | discriminate].
    + destruct (within_is_string _ _ _ Hwc) as [c Hc].
      exists (inr [("content", VStr (trim c))]). split.
      * erewrite bind_returns by exact Hvc. rewrite Hc. reflexivity.
      * intros p2 [= <-]. right. eauto.
  - exists (inr []). split; [reflexivity|]. intros p2 [= <-]. left. auto.
Qed.

Lemma ids_part (a : PostApi.UpdatePostArgs) w log :
  exists res,
    (if negb (strict_eq (PostApi.u_imageIds a) VUndef)
     then await ids := PostApi.normalizeImageIds (PostApi.u_imageIds a) (VArr []) in
          ret [("imageIds", ids)]
     else ret []) w log = (res, log)
    /\ forall p3, res = inr p3 -> p3 = [] \/ exists ids, p3 = [("imageIds", ids)].
Proof.
  destruct (negb (strict_eq (PostApi.u_imageIds a) VUndef)).
  - destruct (normalizeImageIds_cases (PostApi.u_imageIds a) (VArr []) w log)
      as [[e He]|[ids Hids]].
    + exists (inl e). split; [apply bind_throws, He | discriminate].
    + exists (inr [("imageIds", ids)]). split.
      * erewrite bind_returns by exact Hids. reflexivity.
      * intros p3 [= <-]. right. eauto.
  - exists (inr []). split; [reflexivity|]. intros p3 [= <-]. left. reflexivity.
Qed.

(** Whatever [updatePost] sends carries, for each supplied field, the
    trimmed text of a string that passed validation. *)
Lemma updatePost_sent postId (a : PostApi.UpdatePostArgs) w log r :
  snd (PostApi.updatePost postId a w log) = log ++ [r] ->
  req_method r = PATCH
  /\ (Spec.supplied (PostApi.u_title a) = true ->
      exists t, PostApi.u_title a = VStr t
                /\ Spec.within 2 26 (PostApi.u_title a) = true
                /\ body_field r "title" = VStr (trim t))
  /\ (Spec.supplied (PostApi.u_content a) = true ->
      exists c, PostApi.u_content a = VStr c
                /\ Spec.within 2 10000 (PostApi.u_content a) = true
                /\ body_field r "content" = VStr (trim c)).
Proof.
  unfold PostApi.updatePost. intros Hsent.
  assert (Hno : forall e, snd (@inl exn jsval e, log) = log ++ [r] -> False).
  { simpl. intros _ Heq. eapply log_unchanged_not_extended, Heq. }
  destruct (PostApi.missing_id postId); [exfalso; eapply Hno, Hsent|].
  destruct (title_part a w log) as ([e|p1] & Hrun1 & Hp1);
    [erewrite bind_throws in Hsent by exact Hrun1; exfalso; eapply Hno, Hsent|].
  erewrite bind_returns in Hsent by exact Hrun1.
  destruct (content_part a w log) as ([e|p2] & Hrun2 & Hp2);
    [erewrite bind_throws in Hsent by exact Hrun2; exfalso; eapply Hno, Hsent|].
  erewrite bind_returns in Hsent by exact Hrun2.
  destruct (ids_part a w log) as ([e|p3] & Hrun3 & Hp3);
    [erewrite bind_throws in Hsent by exact Hrun3; exfalso; eapply Hno, Hsent|].
  erewrite bind_returns in Hsent by exact Hrun3.
  apply patch_tail in Hsent. subst r.
  specialize (Hp1 p1 eq_refl). specialize (Hp2 p2 eq_refl).
  specialize (Hp3 p3 eq_refl).
  split; [reflexivity|]. split.
  - intros Hsup.
    destruct Hp1 as [[Hst _]|(t & Ht & Hwt & ->)]; [congruence|].
    exists t. repeat split; auto.
  - intros Hsup.
    destruct Hp2 as [[Hsc _]|(c & Hc & Hwc & ->)]; [congruence|].
    exists c. repeat split; auto.
    unfold body_field; simpl.
    destruct Hp1 as [[_ ->]|(t & _ & _ & ->)]; reflexivity.
Qed.

(** When nothing is rejected, each part returns, without sending, the
    field it contributes to the payload. *)
Lemma title_part_passes (a : PostApi.UpdatePostArgs) w log :
  (Spec.supplied (PostApi.u_title a)
   && negb (Spec.within 2 26 (PostApi.u_title a)))%bool = false ->
  exists p1,
    (if negb (strict_eq (PostApi.u_title a) VUndef)
     then PostApi.validateTitle (PostApi.u_title a) ;;;
          await t := call_trim (PostApi.u_title a) in
          ret [("title", t)]
     else ret []) w log = (inr p1, log)
    /\ ((Spec.supplied (PostApi.u_title a) = false /\ p1 = [])
        \/ (exists t, PostApi.u_title a = VStr t
                      /\ Spec.supplied (PostApi.u_title a) = true
                      /\ p1 = [("title", VStr (trim t))])).
Proof.
  unfold Spec.supplied. intros Hok.
  destruct (negb (strict_eq (PostApi.u_title a) VUndef)); cbn [andb] in Hok.
  - apply negb_false_iff in Hok.
    destruct (within_is_string _ _ _ Hok) as [t Ht].
    exists [("title", VStr (trim t))]. split.
    + erewrite bind_returns by (apply validateTitle_accepts; exact Hok).
      rewrite Ht. reflexivity.
    + right. eauto.
  - exists []. split; [reflexivity|]. left. auto.
Qed.

Lemma content_part_passes (a : PostApi.UpdatePostArgs) w log :
  (Spec.supplied (PostApi.u_content a)
   && negb (Spec.within 2 10000 (PostApi.u_content a)))%bool = false ->
  exists p2,
    (if negb (strict_eq (PostApi.u_content a) VUndef)
     then PostApi.validateContent (PostApi.u_content a) ;;;
          await c := call_trim (PostApi.u_content a) in
          ret [("content", c)]
     else ret []) w log = (inr p2, log)
    /\ ((Spec.supplied (PostApi.u_content a) = false /\ p2 = [])
        \/ (exists c, PostApi.u_content a = VStr c
                      /\ Spec.supplied (PostApi.u_content a) = true
                      /\ p2 = [("content", VStr (trim c))])).
Proof.
  unfold Spec.supplied. intros Hok.
  destruct (negb (strict_eq (PostApi.u_content a) VUndef)); cbn [andb] in Hok.
  - apply negb_false_iff in Hok.
    destruct (within_is_string _ _ _ Hok) as [c Hc].
    exists [("content", VStr (trim c))]. split.
    + erewrite bind_returns by (apply validateContent_accepts; exact Hok).
      rewrite Hc. reflexivity.
    + right. eauto.
  - exists []. split; [reflexivity|]. left. auto.
Qed.

Lemma ids_part_passes (a : PostApi.UpdatePostArgs) w log :
  Spec.ids_shape_ok (PostApi.u_imageIds a) = true ->
  exists p3,
    (if negb (strict_eq (PostApi.u_imageIds a) VUndef)
     then await ids := PostApi.normalizeImageIds (PostApi.u_imageIds a) (VArr []) in
          ret [("imageIds", ids)]
     else ret []) w log = (inr p3, log)
    /\ ((Spec.supplied (PostApi.u_imageIds a) = false /\ p3 = [])
        \/ (exists ids, Spec.supplied (PostApi.u_imageIds a) = true
                        /\ p3 = [("imageIds", ids)])).
Proof.
  unfold Spec.supplied. intros Hshape.
  destruct (negb (strict_eq (PostApi.u_imageIds a) VUndef)).
  - destruct (normalizeImageIds_ok _ (VArr []) w log Hshape) as [ids Hids].
    exists [("imageIds", ids)]. split.
    + erewrite bind_returns by exact Hids. reflexivity.
    + right. eauto.
  - exists []. split; [reflexivity|]. left. auto.
Qed.

(** [updatePost] on a post id, with every supplied field valid and at
    least one field supplied: one PATCH to the post, carrying the trimmed
    text of each supplied field and nothing for a field left out. *)
Lemma updatePost_sends postId (a : PostApi.UpdatePostArgs) w log :
  PostApi.missing_id postId = false ->
  ((Spec.supplied (PostApi.u_title a)
    && negb (Spec.within 2 26 (PostApi.u_title a)))
   || (Spec.supplied (PostApi.u_content a)
       && negb (Spec.within 2 10000 (PostApi.u_content a))))%bool = false ->
  Spec.ids_shape_ok (PostApi.u_imageIds a) = true ->
  (Spec.supplied (PostApi.u_title a) || Spec.supplied (PostApi.u_content a)
   || Spec.supplied (PostApi.u_imageIds a))%bool = true ->
  exists r,
    snd (PostApi.updatePost postId a w log) = log ++ [r]
    /\ req_method r = PATCH
    /\ req_path r = [Lit "/posts/"; Param postId]
    /\ (forall t, PostApi.u_title a = VStr t ->
                  body_field r "title" = VStr (trim t))
    /\ (forall c, PostApi.u_content a = VStr c ->
                  body_field r "content" = VStr (trim c))
    /\ (PostApi.u_title a = VUndef -> body_field r "title" = VUndef)
    /\ (PostApi.u_content a = VUndef -> body_field r "content" = VUndef).
Proof.
  intros Hid Hvalid Hshape Hsome.
  apply orb_false_iff in Hvalid as [Hvt Hvc].
  unfold PostApi.updatePost. rewrite Hid.
  destruct (title_part_passes a w log Hvt) as (p1 & Hrun1 & Hp1).
  destruct (content_part_passes a w log Hvc) as (p2 & Hrun2 & Hp2).
  destruct (ids_part_passes a w log Hshape) as (p3 & Hrun3 & Hp3).
  erewrite bind_returns by exact Hrun1.
  erewrite bind_returns by exact Hrun2.
  erewrite bind_returns by exact Hrun3.
  assert (Hlen : Nat.eqb (List.length (p1 ++ p2 ++ p3)) 0 = false).
  { destruct Hp1 as [[Hs1 ->]|(t & _ & _ & ->)]; [|reflexivity].
    destruct Hp2 as [[Hs2 ->]|(c & _ & _ & ->)]; [|reflexivity].
    destruct Hp3 as [[Hs3 ->]|(ids & _ & ->)]; [|reflexivity].
    rewrite Hs1, Hs2, Hs3 in Hsome. discriminate Hsome. }
  rewrite Hlen.
  exists (mkRequest PATCH [Lit "/posts/"; Param postId]
            (VObj [("body", VObj (p1 ++ p2 ++ p3))])).
  split.
  { run_api.
    destruct (w log _) as [e|resp]; [reflexivity|].
    destruct (nullish resp); reflexivity. }
  split; [reflexivity|]. split; [reflexivity|].
  unfold body_field, Spec.supplied in *. cbn [req_options].
  repeat split.
  - intros t Ht.
    destruct Hp1 as [[Hs1 _]|(t' & Ht' & _ & ->)].
    + rewrite Ht in Hs1. discriminate Hs1.
    + rewrite Ht in Ht'. injection Ht' as <-. reflexivity.
  - intros c Hc.
    destruct Hp2 as [[Hs2 _]|(c' & Hc' & _ & ->)].
    + rewrite Hc in Hs2. discriminate Hs2.
    + rewrite Hc in Hc'. injection Hc' as <-.
      destruct Hp1 as [[_ ->]|(t & _ & _ & ->)]; reflexivity.
  - intros Hu.
    destruct Hp1 as [[_ ->]|(t & Ht & _ & _)]; [|congruence].
    destruct Hp2 as [[_ ->]|(c & _ & _ & ->)];
      destruct Hp3 as [[_ ->]|(ids & _ & ->)]; reflexivity.
  - intros Hu.
    destruct Hp2 as [[_ ->]|(c & Hc & _ & _)]; [|congruence].
    destruct Hp1 as [[_ ->]|(t & _ & _ & ->)];
      destruct Hp3 as [[_ ->]|(ids & _ & ->)]; reflexivity.
Qed.

End UpdateSends.

(** C3.  [createPost], and [updatePost] for each supplied field, throw an
    [Error] and send nothing when the trimmed title is not 2 to 26 code
    units long or the trimmed content is not 2 to 10000 code units long;
    the title made of a space, the letter a and a space is rejected.
    When validation passes, [createPost] sends one POST and [updatePost]
    (given a post id and at least one field) one PATCH, and the request
    carries the trimmed title and content: whatever [updatePost] sends
    carries the trimmed text of each supplied field. *)
Theorem post_validation_precedes_request `{Coercions} :
  (forall (a : PostApi.CreatePostArgs) w log,
      (Spec.within 2 26 (PostApi.title a)
       && Spec.within 2 10000 (PostApi.content a))%bool = false ->
      exists msg, PostApi.createPost a w log = (inl (Error msg), log))
  /\ (forall postId (a : PostApi.UpdatePostArgs) w log,
      ((Spec.supplied (PostApi.u_title a)
        && negb (Spec.within 2 26 (PostApi.u_title a)))
       || (Spec.supplied (PostApi.u_content a)
           && negb (Spec.within 2 10000 (PostApi.u_content a))))%bool = true ->
      exists msg, PostApi.updatePost postId a w log = (inl (Error msg), log))
  /\ (forall (a : PostApi.CreatePostArgs) w log,
      PostApi.title a = VStr (js " a ") ->
      exists msg, PostApi.createPost a w log = (inl (Error msg), log))
  /\ (forall (a : PostApi.CreatePostArgs) w log t c,
      PostApi.title a = VStr t ->
      PostApi.content a = VStr c ->
      Spec.within 2 26 (PostApi.title a) = true ->
      Spec.within 2 10000 (PostApi.content a) = true ->
      Spec.ids_shape_ok (PostApi.imageIds a) = true ->
      exists r,
        snd (PostApi.createPost a w log) = log ++ [r]
        /\ req_method r = POST
        /\ req_path r = [Lit "/posts"]
        /\ body_field r "title" = VStr (trim t)
        /\ body_field r "content" = VStr (trim c))
  /\ (forall postId (a : PostApi.UpdatePostArgs) w log r,
      snd (PostApi.updatePost postId a w log) = log ++ [r] ->
      req_method r = PATCH
      /\ (Spec.supplied (PostApi.u_title a) = true ->
          exists t, PostApi.u_title a = VStr t
                    /\ Spec.within 2 26 (PostApi.u_title a) = true
                    /\ body_field r "title" = VStr (trim t))
      /\ (Spec.supplied (PostApi.u_content a) = true ->
          exists c, PostApi.u_content a = VStr c
                    /\ Spec.within 2 10000 (PostApi.u_content a) = true
                    /\ body_field r "content" = VStr (trim c)))
  /\ (forall postId (a : PostApi.UpdatePostArgs) w log,
      PostApi.missing_id postId = false ->
      ((Spec.supplied (PostApi.u_title a)
        && negb (Spec.within 2 26 (PostApi.u_title a)))
       || (Spec.supplied (PostApi.u_content a)
           && negb (Spec.within 2 10000 (PostApi.u_content a))))%bool = false ->
      Spec.ids_shape_ok (PostApi.u_imageIds a) = true ->
      (Spec.supplied (PostApi.u_title a) || Spec.supplied (PostApi.u_content a)
       || Spec.supplied (PostApi.u_imageIds a))%bool = true ->
      exists r,
        snd (PostApi.updatePost postId a w log) = log ++ [r]
        /\ req_method r = PATCH
        /\ req_path r = [Lit "/posts/"; Param postId]
        /\ (forall t, PostApi.u_title a = VStr t ->
                      body_field r "title" = VStr (trim t))
        /\ (forall c, PostApi.u_content a = VStr c ->
                      body_field r "content" = VStr (trim c))
        /\ (PostApi.u_title a = VUndef -> body_field r "title" = VUndef)
        /\ (PostApi.u_content a = VUndef -> body_field r "content" = VUndef)).
Proof.
  split; [exact createPost_rejects|].
  split; [exact updatePost_rejects|].
  split.
  - intros a w log Ha. apply createPost_rejects. rewrite Ha. reflexivity.
  - split; [exact createPost_sends|].
    split; [exact updatePost_sent | exact updatePost_sends].
Qed.

Lemma post_validation_precedes_request_witness :
  (exists msg,
      PostApi.createPost (H := decimal_coercions)
        {| PostApi.title := VStr (js " a ");
           PostApi.content := VStr (js "hello world");
           PostApi.imageIds := VUndef;
           PostApi.primaryImageId := VUndef |} Spec.empty_envelope []
      = (inl (Error msg), []))
  /\ (exists r,
      snd (PostApi.createPost (H := decimal_coercions)
             {| PostApi.title := VStr (js "  my day ");
                PostApi.content := VStr (js " hello world  ");
                PostApi.imageIds := VUndef;
                PostApi.primaryImageId := VUndef |} Spec.empty_envelope [])
      = [] ++ [r]
      /\ req_method r = POST
      /\ req_path r = [Lit "/posts"]
      /\ body_field r "title" = VStr (trim (js "  my day "))
      /\ body_field r "content" = VStr (trim (js " hello world  ")))
  /\ (exists msg,
      PostApi.updatePost (H := decimal_coercions) (VNum (Fin 7))
        {| PostApi.u_title := VStr (js " a ");
           PostApi.u_content := VUndef;
           PostApi.u_imageIds := VUndef |} Spec.empty_envelope []
      = (inl (Error msg), []))
  /\ (exists r,
      snd (PostApi.updatePost (H := decimal_coercions) (VNum (Fin 7))
             {| PostApi.u_title := VStr (js "  my day ");
                PostApi.u_content := VUndef;
                PostApi.u_imageIds := VUndef |} Spec.empty_envelope [])
      = [] ++ [r]
      /\ req_method r = PATCH
      /\ req_path r = [Lit "/posts/"; Param (VNum (Fin 7))]
      /\ body_field r "title" = VStr (trim (js "  my day "))
      /\ body_field r "content" = VUndef
      /\ exists t,
           VStr (js "  my day ") = VStr t
           /\ Spec.within 2 26 (VStr (js "  my day ")) = true
           /\ body_field r "title" = VStr (trim t))
  /\ (exists msg,
      PostApi.createPost (H := decimal_coercions)
        {| PostApi.title := VStr (js " a ");
           PostApi.content := VStr (js "x");
           PostApi.imageIds := VUndef;
           PostApi.primaryImageId := VUndef |} Spec.not_found []
      = (inl (Error msg), [])).
Proof.
  destruct (@post_validation_precedes_request decimal_coercions)
    as (Hc & Hu & Ha & Hs & Hsent & Hp).
  split; [apply Hc; vm_compute; reflexivity|].
  split; [apply Hs; vm_compute; reflexivity|].
  split; [apply Hu; vm_compute; reflexivity|].
  split; [|apply Ha; reflexivity].
  destruct (Hp (VNum (Fin 7))
              {| PostApi.u_title := VStr (js "  my day ");
                 PostApi.u_content := VUndef;
                 PostApi.u_imageIds := VUndef |} Spec.empty_envelope [])
    as (r & Hlog & Hm & Hpath & Ht & _ & _ & Hno);
    [vm_compute; reflexivity ..|].
  exists r. split; [exact Hlog|]. split; [exact Hm|]. split; [exact Hpath|].
  split; [apply Ht; reflexivity|]. split; [apply Hno; reflexivity|].
  destruct (Hsent _ _ _ _ r Hlog) as (_ & Htitle & _).
  apply Htitle. reflexivity.
Defined.

(** *** The page size sent by the list calls *)

Section Limits.
Context `{Coercions}.
Local Open Scope Z_scope.

Lemma clamp_finite z :
  Math_min (Math_max (Fin z) (Fin 1)) (Fin 50) = Fin (Z.min (Z.max z 1) 50).
Proof.
  unfold Math_max, Math_min, jsnum_le.
  destruct (Z.leb_spec z 1).
  - simpl. f_equal. lia.
  - destruct (Z.leb_spec z 50); f_equal; lia.
Qed.

Lemma safeLimit_sent (v : jsval) (dflt : Z) :
  1 <= dflt <= 50 ->
  PostApi.safeLimit v dflt = Fin (Spec.sent_limit dflt (Number v)).
Proof.
  intros Hd. unfold PostApi.safeLimit, Spec.sent_limit, or_else.
  destruct (Number v) as [| | |z]; cbn [truthy Number].
  - rewrite clamp_finite. f_equal. lia.
  - reflexivity.
  - reflexivity.
  - destruct (Z.eqb_spec z 0); cbn [negb Number].
    + rewrite clamp_finite. f_equal. lia.
    + apply clamp_finite.
Qed.

Lemma sent_limit_range dflt n :
  1 <= dflt <= 50 -> 1 <= Spec.sent_limit dflt n <= 50.
Proof.
  intros Hd. unfold Spec.sent_limit.
  destruct n as [| | |z]; try lia.
  destruct (Z.eqb z 0); lia.
Qed.

Lemma default_limit_sent (v : jsval) (dflt : Z) :
  1 <= dflt <= 50 ->
  Spec.sent_limit dflt (Number (default_param v (VNum (Fin dflt))))
  = Spec.sent_limit dflt (Number v).
Proof.
  intros Hd. destruct v; simpl; try reflexivity.
  destruct (Z.eqb dflt 0); lia.
Qed.

Lemma list_query_limit (a : PostApi.ListArgs) dflt :
  1 <= dflt <= 50 ->
  get_prop (PostApi.list_query a dflt) "limit"
  = VNum (Fin (Spec.sent_limit dflt (Number (PostApi.limit a)))).
Proof.
  intros Hd. unfold PostApi.list_query. simpl.
  rewrite safeLimit_sent, default_limit_sent by exact Hd. reflexivity.
Qed.

Lemma getPosts_log (a : PostApi.ListArgs) w log :
  snd (PostApi.getPosts a w log)
  = log ++ [mkRequest GET [Lit "/posts"]
              (VObj [("query", PostApi.list_query a 10)])].
Proof.
  unfold PostApi.getPosts. run_api.
  destruct (w log _) as [e|resp]; [|destruct (nullish resp)]; reflexivity.
Qed.

Lemma getMyPosts_log (a : PostApi.ListArgs) w log :
  snd (PostApi.getMyPosts a w log)
  = log ++ [mkRequest GET [Lit "/posts/me"]
              (VObj [("query", PostApi.list_query a 20)])].
Proof.
  unfold PostApi.getMyPosts. run_api.
  destruct (w log _) as [e|resp]; [|destruct (nullish resp)]; reflexivity.
Qed.

End Limits.

(** C4.  [getPosts] and [getMyPosts] send exactly one request, whose
    [limit] is the requested limit clamped into 1..50: 999 is sent as 50,
    and 0 or a value that converts to NaN is sent as the default, 10 for
    [getPosts] and 20 for [getMyPosts]. *)
Theorem list_limit_clamped `{Coercions} (a : PostApi.ListArgs) w log :
  exists r r',
    snd (PostApi.getPosts a w log) = log ++ [r]
    /\ snd (PostApi.getMyPosts a w log) = log ++ [r']
    /\ query_param r "limit"
       = VNum (Fin (Spec.sent_limit 10 (Number (PostApi.limit a))))
    /\ query_param r' "limit"
       = VNum (Fin (Spec.sent_limit 20 (Number (PostApi.limit a))))
    /\ (1 <= Spec.sent_limit 10 (Number (PostApi.limit a)) <= 50)%Z
    /\ (1 <= Spec.sent_limit 20 (Number (PostApi.limit a)) <= 50)%Z
    /\ Spec.sent_limit 10 (Fin 999) = 50%Z /\ Spec.sent_limit 20 (Fin 999) = 50%Z
    /\ Spec.sent_limit 10 (Fin 0) = 10%Z /\ Spec.sent_limit 20 (Fin 0) = 20%Z
    /\ Spec.sent_limit 10 NaN = 10%Z /\ Spec.sent_limit 20 NaN = 20%Z.
Proof.
  eexists. eexists.
  split; [apply getPosts_log|].
  split; [apply getMyPosts_log|].
  unfold query_param. cbn [req_options get_prop lookup_field String.eqb Ascii.eqb Bool.eqb].
  rewrite !list_query_limit by lia.
  repeat split; try reflexivity; apply sent_limit_range; lia.
Qed.

(** *** Failure of the HTTP call *)

Lemma single_call {A} (r : request) (k : jsval -> api A) w log :
  (forall v w' log', snd (k v w' log') = log') ->
  snd (bind (call r) k w log) = log ++ [r]
  /\ forall e, w log r = inl e -> fst (bind (call r) k w log) = inl e.
Proof.
  intros Hk. unfold bind, call. split.
  - destruct (w log r); [reflexivity | apply Hk].
  - intros e He. rewrite He. reflexivity.
Qed.

Lemma unwrap_data_silent (d : jsval) (v : jsval) w log :
  snd ((await data := prop v "data" in ret (coalesce data d)) w log) = log.
Proof. run_api. destruct (nullish v); reflexivity. Qed.

Lemma propagates_call {A} (r : request) (k : jsval -> api A) :
  (forall v w' log', snd (k v w' log') = log') ->
  Spec.propagates (bind (call r) k).
Proof.
  intros Hk w log. right. exists r. apply single_call, Hk.
Qed.

Lemma propagates_throw {A} (e : exn) : Spec.propagates (@throw A e).
Proof. intros w log. left. reflexivity. Qed.

(** A step that sends nothing in front of a function that propagates. *)
Lemma propagates_after {A B} (m : api A) (k : A -> api B) :
  (forall w log, exists res, m w log = (res, log)) ->
  (forall a, Spec.propagates (k a)) ->
  Spec.propagates (bind m k).
Proof.
  intros Hm Hk w log. unfold bind.
  destruct (Hm w log) as [[e|a] Hres]; rewrite Hres.
  - left. reflexivity.
  - apply Hk.
Qed.

Lemma validateTitle_silent v w log :
  exists res, PostApi.validateTitle v w log = (res, log).
Proof.
  destruct (validateTitle_cases v w log) as [[e He]|[_ Hv]]; eauto.
Qed.

Lemma validateContent_silent v w log :
  exists res, PostApi.validateContent v w log = (res, log).
Proof.
  destruct (validateContent_cases v w log) as [[e He]|[_ Hv]]; eauto.
Qed.

Lemma normalizeImageIds_silent `{Coercions} v d w log :
  exists res, PostApi.normalizeImageIds v d w log = (res, log).
Proof.
  destruct (normalizeImageIds_cases v d w log) as [[e He]|[ids Hv]]; eauto.
Qed.

Lemma call_trim_silent v w log : exists res, call_trim v w log = (res, log).
Proof. destruct v; simpl; eauto. Qed.

Lemma prop_silent v k w log : exists res, prop v k w log = (res, log).
Proof. unfold prop. destruct (nullish v); simpl; eauto. Qed.

Lemma ret_silent {A} (a : A) w log : exists res, ret a w log = (res, log).
Proof. eauto. Qed.

Lemma bind_silent {A B} (m : api A) (k : A -> api B) :
  (forall w log, exists res, m w log = (res, log)) ->
  (forall a w log, exists res, k a w log = (res, log)) ->
  forall w log, exists res, bind m k w log = (res, log).
Proof.
  intros Hm Hk w log. unfold bind.
  destruct (Hm w log) as [[e|a] Hres]; rewrite Hres; eauto.
Qed.

Section Propagation.
Context `{Coercions}.

Lemma createPost_propagates a : Spec.propagates (PostApi.createPost a).
Proof.
  unfold PostApi.createPost.
  apply propagates_after; [apply validateTitle_silent|intros _].
  apply propagates_after; [apply validateContent_silent|intros _].
  apply propagates_after; [apply normalizeImageIds_silent|intros ids].
  apply propagates_after; [apply call_trim_silent|intros t].
  apply propagates_after; [apply call_trim_silent|intros c].
  apply propagates_call. apply unwrap_data_silent.
Qed.

Lemma getPosts_propagates a : Spec.propagates (PostApi.getPosts a).
Proof. apply propagates_call, unwrap_data_silent. Qed.

Lemma getMyPosts_propagates a : Spec.propagates (PostApi.getMyPosts a).
Proof. apply propagates_call, unwrap_data_silent. Qed.

Lemma getPost_propagates postId : Spec.propagates (PostApi.getPost postId).
Proof.
  unfold PostApi.getPost. destruct (PostApi.missing_id postId).
  - apply propagates_throw.
  - apply propagates_call, unwrap_data_silent.
Qed.

Lemma deletePost_propagates postId : Spec.propagates (PostApi.deletePost postId).
Proof.
  unfold PostApi.deletePost. destruct (PostApi.missing_id postId).
  - apply propagates_throw.
  - apply propagates_call, unwrap_data_silent.
Qed.

Lemma updatePost_propagates postId a :
  Spec.propagates (PostApi.updatePost postId a).
Proof.
  unfold PostApi.updatePost. destruct (PostApi.missing_id postId).
  - apply propagates_throw.
  - apply propagates_after.
    { destruct (negb (strict_eq (PostApi.u_title a) VUndef));
        [|apply ret_silent].
      apply bind_silent; [apply validateTitle_silent|intros _].
      apply bind_silent; [apply call_trim_silent|intros t; apply ret_silent]. }
    intros p1. apply propagates_after.
    { destruct (negb (strict_eq (PostApi.u_content a) VUndef));
        [|apply ret_silent].
      apply bind_silent; [apply validateContent_silent|intros _].
      apply bind_silent; [apply call_trim_silent|intros t; apply ret_silent]. }
    intros p2. apply propagates_after.
    { destruct (negb (strict_eq (PostApi.u_imageIds a) VUndef));
        [|apply ret_silent].
      apply bind_silent; [apply normalizeImageIds_silent|].
      intros ids; apply ret_silent. }
    intros p3. cbv zeta.
    destruct (Nat.eqb (List.length (p1 ++ p2 ++ p3)) 0).
    + apply propagates_throw.
    + apply propagates_call, unwrap_data_silent.
Qed.

Lemma saveImageMetadata_propagates metadata options :
  Spec.propagates (ImageApi.saveImageMetadata metadata options).
Proof.
  unfold ImageApi.saveImageMetadata.
  destruct (negb (truthy metadata)
            || negb (truthy (get_prop metadata "storedFilename")))%bool.
  - apply propagates_throw.
  - apply propagates_after; [apply prop_silent|intros ai].
    apply propagates_call, unwrap_data_silent.
Qed.

Lemma getImage_propagates imageId : Spec.propagates (ImageApi.getImage imageId).
Proof.
  unfold ImageApi.getImage. destruct (ImageApi.missing_id imageId).
  - apply propagates_throw.
  - apply propagates_call, unwrap_data_silent.
Qed.

Lemma deleteImage_propagates imageId :
  Spec.propagates (ImageApi.deleteImage imageId).
Proof.
  unfold ImageApi.deleteImage. destruct (ImageApi.missing_id imageId).
  - apply propagates_throw.
  - apply propagates_call, unwrap_data_silent.
Qed.

Lemma submitFeedback_propagates feedbackData :
  Spec.propagates (FeedbackApi.submitFeedback feedbackData).
Proof.
  apply propagates_call. intros v w' log'.
  destruct (prop_silent v "data" w' log') as [res Hres]. rewrite Hres.
  reflexivity.
Qed.

End Propagation.

(** C5, as stated, fails for [getAiGenerationRemaining]: on a backend that
    answers 404 it sends its request and returns the fallback instead of
    throwing the error of the wrapper. *)
Lemma getAiGenerationRemaining_swallows_error :
  ~ Spec.propagates ImageApi.getAiGenerationRemaining
  /\ ImageApi.getAiGenerationRemaining Spec.not_found []
     = (inr ImageApi.fallback, [Spec.remaining_request]).
Proof.
  split; [|reflexivity].
  intros Hp. destruct (Hp Spec.not_found []) as [Hlog|(r & Hlog & Herr)].
  - discriminate Hlog.
  - specialize (Herr (HttpError 404 "Not Found") eq_refl). discriminate Herr.
Qed.

(** C5, amended.  Every client function of the post, image and feedback
    modules that goes through the HTTP wrapper without a [catch] sends at
    most one request and, when the wrapper throws on it, throws that same
    error: no retry and no default value.  ([getAiGenerationRemaining] and
    [checkAiGenerationLimit] are the functions left out.) *)
Theorem client_errors_propagate `{Coercions} :
  (forall a, Spec.propagates (PostApi.createPost a))
  /\ (forall a, Spec.propagates (PostApi.getPosts a))
  /\ (forall postId, Spec.propagates (PostApi.getPost postId))
  /\ (forall postId a, Spec.propagates (PostApi.updatePost postId a))
  /\ (forall postId, Spec.propagates (PostApi.deletePost postId))
  /\ (forall a, Spec.propagates (PostApi.getMyPosts a))
  /\ (forall metadata options,
         Spec.propagates (ImageApi.saveImageMetadata metadata options))
  /\ (forall imageId, Spec.propagates (ImageApi.getImage imageId))
  /\ (forall imageId, Spec.propagates (ImageApi.deleteImage imageId))
  /\ (forall feedbackData,
         Spec.propagates (FeedbackApi.submitFeedback feedbackData)).
Proof.
  repeat split.
  - apply createPost_propagates.
  - apply getPosts_propagates.
  - apply getPost_propagates.
  - apply updatePost_propagates.
  - apply deletePost_propagates.
  - apply getMyPosts_propagates.
  - apply saveImageMetadata_propagates.
  - apply getImage_propagates.
  - apply deleteImage_propagates.
  - apply submitFeedback_propagates.
Qed.

Lemma client_errors_propagate_witness :
  PostApi.createPost (H := decimal_coercions)
    {| PostApi.title := VStr (js "my day");
       PostApi.content := VStr (js "hello world");
       PostApi.imageIds := VUndef;
       PostApi.primaryImageId := VUndef |} Spec.not_found []
  = (inl (HttpError 404 "Not Found"),
     [mkRequest POST [Lit "/posts"]
        (VObj [("body",
                VObj [("title", VStr (js "my day"));
                      ("content", VStr (js "hello world"));
                      ("imageIds", VArr [])])])]).
Proof.
  destruct (@client_errors_propagate decimal_coercions) as [Hcreate _].
  destruct (Hcreate
              {| PostApi.title := VStr (js "my day");
                 PostApi.content := VStr (js "hello world");
                 PostApi.imageIds := VUndef;
                 PostApi.primaryImageId := VUndef |} Spec.not_found [])
    as [Hnone|(r & Hlog & Herr)].
  - discriminate Hnone.
  - apply injective_projections; simpl.
    + apply Herr. injection Hlog as <-. reflexivity.
    + reflexivity.
Defined.

(** C10.  When the wrapper throws on GET /ai-generations/remaining, for
    whatever reason, [getAiGenerationRemaining] returns the fallback
    (remaining 5, limit 5, used 0) and [checkAiGenerationLimit] answers
    canGenerate true: the client-side limit check fails open. *)
Theorem ai_limit_check_fails_open `{Coercions} (w : wrapper) log e :
  w log Spec.remaining_request = inl e ->
  ImageApi.getAiGenerationRemaining w log
  = (inr (VObj [("remaining", VNum (Fin 5)); ("limit", VNum (Fin 5));
                ("used", VNum (Fin 0))]),
     log ++ [Spec.remaining_request])
  /\ ImageApi.checkAiGenerationLimit w log
     = (inr (VObj [("canGenerate", VBool true); ("remaining", VNum (Fin 5));
                   ("limit", VNum (Fin 5))]),
        log ++ [Spec.remaining_request]).
Proof.
  intros He.
  assert (Hr : ImageApi.getAiGenerationRemaining w log
               = (inr ImageApi.fallback, log ++ [Spec.remaining_request])).
  { unfold ImageApi.getAiGenerationRemaining. run_api.
    unfold Spec.remaining_request in He. rewrite He. reflexivity. }
  split; [exact Hr|].
  unfold ImageApi.checkAiGenerationLimit.
  erewrite bind_returns by exact Hr. reflexivity.
Qed.

Lemma ai_limit_check_fails_open_witness :
  ImageApi.getAiGenerationRemaining Spec.not_found []
  = (inr (VObj [("remaining", VNum (Fin 5)); ("limit", VNum (Fin 5));
                ("used", VNum (Fin 0))]),
     [] ++ [Spec.remaining_request])
  /\ ImageApi.checkAiGenerationLimit (H := decimal_coercions) Spec.not_found []
     = (inr (VObj [("canGenerate", VBool true); ("remaining", VNum (Fin 5));
                   ("limit", VNum (Fin 5))]),
        [] ++ [Spec.remaining_request]).
Proof.
  apply (@ai_limit_check_fails_open decimal_coercions Spec.not_found []
           (HttpError 404 "Not Found")).
  reflexivity.
Defined.

(** *** Cursor pagination *)

Section Pagination.
Context `{Coercions}.

Lemma list_query_cursor (a : PostApi.ListArgs) dflt :
  Spec.usable_cursor (PostApi.cursor a) = true ->
  get_prop (PostApi.list_query a dflt) "cursor" = PostApi.cursor a.
Proof.
  unfold Spec.usable_cursor, PostApi.list_query. intros Hc.
  rewrite Hc. reflexivity.
Qed.

Lemma usable_not_nullish c :
  Spec.usable_cursor c = true -> coalesce c VNull = c.
Proof. destruct c; simpl; try discriminate; reflexivity. Qed.

Lemma appendCards_objects items children :
  Spec.all_objects items = true ->
  PostCard.appendCards items children
  = (children ++ Spec.cards_of items, None).
Proof.
  revert children. induction items as [|p items IH]; intros children Hobj.
  - simpl. rewrite List.app_nil_r. reflexivity.
  - simpl in Hobj. apply andb_prop in Hobj as [Hp Hrest].
    apply negb_true_iff in Hp.
    unfold Spec.cards_of. simpl. unfold Spec.card_of at 1.
    unfold PostCard.createPostCard. rewrite Hp.
    destruct (nullish (coalesce (get_prop p "postId") (get_prop p "id"))).
    + apply IH, Hrest.
    + rewrite IH by exact Hrest. rewrite <- List.app_assoc. reflexivity.
Qed.

Lemma getPosts_returns a w log result :
  w log (mkRequest GET [Lit "/posts"] (VObj [("query", PostApi.list_query a 10)]))
  = inr (VObj [("data", result)]) ->
  PostApi.getPosts a w log
  = (inr (coalesce result VNull),
     log ++ [mkRequest GET [Lit "/posts"]
               (VObj [("query", PostApi.list_query a 10)])]).
Proof.
  intros Hw. unfold PostApi.getPosts. run_api. rewrite Hw. reflexivity.
Qed.

(** One page arriving on the feed. *)
Lemma feed_page_loaded (st : Feed.state) w log shown items next :
  Spec.feed_ready st = true ->
  Feed.postsList st = Some shown ->
  w log (Spec.feed_request (Feed.nextCursor st))
  = inr (Spec.page_of "posts" items next) ->
  Spec.all_objects items = true ->
  Feed.loadPosts st w log
  = (inr (Feed.mkState (coalesce next VNull) (VBool true) false false
            (Some (if Feed.isInitialLoad st
                   then match items with
                        | [] => [PostCard.EmptyState]
                        | _ => Spec.cards_of items
                        end
                   else shown ++ Spec.cards_of items))),
     log ++ [Spec.feed_request (Feed.nextCursor st)]).
Proof.
  unfold Spec.feed_ready. intros Hready Hshown Hw Hobj.
  apply andb_prop in Hready as [Hidle Hmore].
  apply negb_true_iff in Hidle.
  unfold Feed.loadPosts. rewrite Hidle, Hmore, Hshown. cbn [orb negb].
  erewrite bind_returns; cycle 1.
  { unfold attempt. erewrite getPosts_returns by exact Hw. reflexivity. }
  cbn -[PostCard.appendCards Spec.cards_of].
  destruct (Feed.isInitialLoad st); cbn -[PostCard.appendCards Spec.cards_of].
  - destruct items as [|p items]; [reflexivity|].
    cbn -[PostCard.appendCards Spec.cards_of].
    rewrite appendCards_objects by exact Hobj. reflexivity.
  - rewrite appendCards_objects by exact Hobj. reflexivity.
Qed.

End Pagination.

Section PaginationMore.
Context `{Coercions}.

Lemma getMyPosts_returns a w log result :
  w log (mkRequest GET [Lit "/posts/me"]
           (VObj [("query", PostApi.list_query a 20)]))
  = inr (VObj [("data", VObj result)]) ->
  PostApi.getMyPosts a w log
  = (inr (VObj result),
     log ++ [mkRequest GET [Lit "/posts/me"]
               (VObj [("query", PostApi.list_query a 20)])]).
Proof.
  intros Hw. unfold PostApi.getMyPosts. run_api. rewrite Hw. reflexivity.
Qed.

(** One page arriving on the profile page. *)
Lemma my_posts_page_loaded (st : MyPosts.state) w log shown items next :
  Spec.my_posts_ready st = true ->
  MyPosts.postsList st = Some shown ->
  w log (Spec.my_posts_request (MyPosts.myPostsNextCursor st))
  = inr (Spec.page_of "posts" items next) ->
  Spec.all_objects items = true ->
  exists st',
    MyPosts.loadMyPosts st w log
    = (inr st', log ++ [Spec.my_posts_request (MyPosts.myPostsNextCursor st)])
    /\ MyPosts.myPostsNextCursor st' = coalesce next VNull
    /\ MyPosts.myPostsHasNext st' = VBool true
    /\ MyPosts.myPostsIsLoading st' = false
    /\ MyPosts.myPostsIsInitialLoad st' = false
    /\ MyPosts.postsList st'
       = Some (if MyPosts.myPostsIsInitialLoad st then Spec.cards_of items
               else shown ++ Spec.cards_of items).
Proof.
  unfold Spec.my_posts_ready. intros Hready Hshown Hw Hobj.
  apply andb_prop in Hready as [Hidle Hmore].
  apply negb_true_iff in Hidle.
  unfold MyPosts.loadMyPosts. rewrite Hidle, Hmore, Hshown. cbn [orb negb].
  erewrite bind_returns; cycle 1.
  { unfold attempt. erewrite getMyPosts_returns by exact Hw. reflexivity. }
  cbn -[PostCard.appendCards Spec.cards_of MyPosts.countText].
  destruct (MyPosts.myPostsIsInitialLoad st);
    cbn -[PostCard.appendCards Spec.cards_of MyPosts.countText].
  - destruct items as [|p items].
    + eexists. split; [reflexivity|]. cbn. auto.
    + cbn -[PostCard.appendCards Spec.cards_of MyPosts.countText].
      rewrite appendCards_objects by exact Hobj.
      eexists. split; [reflexivity|]. cbn -[Spec.cards_of]. auto.
  - rewrite appendCards_objects by exact Hobj.
    eexists. split; [reflexivity|]. cbn -[Spec.cards_of]. auto.
Qed.

Lemma getComments_returns postId a w log result :
  w log (mkRequest GET [Lit "/posts/"; Param postId; Lit "/comments"]
           (VObj [("query", PostApi.list_query a 20)]))
  = inr (VObj [("data", VObj result)]) ->
  CommentApi.getComments postId a w log
  = (inr (VObj result),
     log ++ [mkRequest GET [Lit "/posts/"; Param postId; Lit "/comments"]
               (VObj [("query", PostApi.list_query a 20)])]).
Proof.
  intros Hw. unfold CommentApi.getComments. run_api. rewrite Hw. reflexivity.
Qed.

Lemma ids_of_objects cs :
  Spec.all_objects cs = true ->
  PostDetail.ids_of cs = inr (PostDetail.comment_ids cs).
Proof.
  induction cs as [|c cs IH]; intros Hobj; [reflexivity|].
  simpl in Hobj. apply andb_prop in Hobj as [Hc Hrest].
  apply negb_true_iff in Hc. simpl. rewrite Hc, IH by exact Hrest.
  reflexivity.
Qed.

Lemma newComments_objects old_ids cs :
  Spec.all_objects cs = true ->
  PostDetail.newComments old_ids cs
  = inr (List.filter
           (fun c => negb (PostDetail.set_has old_ids (get_prop c "id"))) cs).
Proof.
  induction cs as [|c cs IH]; intros Hobj; [reflexivity|].
  simpl in Hobj. apply andb_prop in Hobj as [Hc Hrest].
  apply negb_true_iff in Hc. simpl. rewrite Hc, IH by exact Hrest.
  destruct (PostDetail.set_has old_ids (get_prop c "id")); reflexivity.
Qed.

(** One further page of comments arriving on the post page. *)
Lemma comments_page_loaded (st : PostDetail.state) postId w log items next :
  Spec.comments_ready st = true ->
  w log (Spec.comments_request postId (PostDetail.commentsNextCursor st))
  = inr (Spec.page_of "comments" items next) ->
  Spec.all_objects (PostDetail.allComments st) = true ->
  Spec.all_objects items = true ->
  PostDetail.loadMoreComments (Some postId) st w log
  = (inr (PostDetail.mkState (coalesce next VNull) (VBool true) false
            (PostDetail.allComments st
             ++ Spec.fresh_comments (PostDetail.allComments st) items)
            (PostDetail.commentsTotalCount st)),
     log ++ [Spec.comments_request postId (PostDetail.commentsNextCursor st)]).
Proof.
  unfold Spec.comments_ready. intros Hready Hw Hold Hobj.
  apply andb_prop in Hready as [Hidle Hmore].
  apply negb_true_iff in Hidle.
  unfold PostDetail.loadMoreComments. rewrite Hidle, Hmore. cbn [orb negb].
  erewrite bind_returns; cycle 1.
  { unfold attempt. erewrite getComments_returns by exact Hw. reflexivity. }
  cbn -[PostDetail.ids_of PostDetail.newComments].
  rewrite ids_of_objects by exact Hold.
  rewrite newComments_objects by exact Hobj.
  reflexivity.
Qed.

End PaginationMore.

(** *** Duplicate ids *)

Lemma same_value_zero_sym a b : same_value_zero a b = same_value_zero b a.
Proof.
  destruct a as [| |x|x|x|x|x], b as [| |y|y|y|y|y]; simpl; try reflexivity;
    try (match goal with n : jsnum |- _ => destruct n; reflexivity end).
  - destruct x, y; reflexivity.
  - destruct x, y; simpl; try reflexivity. apply Z.eqb_sym.
  - unfold jsstring_eqb. apply bool_decide_ext. split; congruence.
Qed.

Lemma distinct_ids_app xs ys :
  Spec.distinct_ids xs ->
  Spec.distinct_ids ys ->
  (forall x y, In x xs -> In y ys -> same_value_zero x y = false) ->
  Spec.distinct_ids (xs ++ ys).
Proof.
  induction xs as [|x xs IH]; intros Hxs Hys Hcross; [exact Hys|].
  destruct Hxs as [Hx Hxs]. simpl. split.
  - intros id' Hin. apply List.in_app_or in Hin as [Hin|Hin].
    + apply Hx, Hin.
    + apply Hcross; [left; reflexivity | exact Hin].
  - apply IH; auto. intros a b Ha Hb. apply Hcross; [right; exact Ha | exact Hb].
Qed.

Lemma fresh_ids_subset old items id :
  In id (PostDetail.comment_ids (Spec.fresh_comments old items)) ->
  In id (PostDetail.comment_ids items)
  /\ PostDetail.set_has (PostDetail.comment_ids old) id = false.
Proof.
  unfold PostDetail.comment_ids, Spec.fresh_comments.
  intros Hin. apply List.in_map_iff in Hin as (c & <- & Hc).
  apply List.filter_In in Hc as [Hc Hnew].
  apply negb_true_iff in Hnew.
  split; [|exact Hnew].
  apply (List.in_map (fun c0 => get_prop c0 "id")). exact Hc.
Qed.

Lemma fresh_ids_distinct old items :
  Spec.distinct_ids (PostDetail.comment_ids items) ->
  Spec.distinct_ids (PostDetail.comment_ids (Spec.fresh_comments old items)).
Proof.
  induction items as [|c items IH]; intros Hd; [exact I|].
  destruct Hd as [Hc Hd]. unfold Spec.fresh_comments. simpl.
  destruct (negb _).
  - simpl. split; [|apply IH, Hd].
    intros id' Hin. apply Hc.
    apply (fresh_ids_subset old items id'). exact Hin.
  - apply IH, Hd.
Qed.

(** Merging a page of comments keeps the ids distinct. *)
Lemma merged_comments_distinct old items :
  Spec.distinct_ids (PostDetail.comment_ids old) ->
  Spec.distinct_ids (PostDetail.comment_ids items) ->
  Spec.distinct_ids
    (PostDetail.comment_ids (old ++ Spec.fresh_comments old items)).
Proof.
  intros Hold Hitems. unfold PostDetail.comment_ids at 1.
  rewrite List.map_app. apply distinct_ids_app.
  - exact Hold.
  - apply fresh_ids_distinct, Hitems.
  - intros x y Hx Hy.
    apply fresh_ids_subset in Hy as [_ Hnot].
    unfold PostDetail.set_has in Hnot.
    destruct (same_value_zero x y) eqn:Hxy; [|reflexivity].
    assert (Hex : List.existsb (fun x0 => same_value_zero x0 y)
                    (PostDetail.comment_ids old) = true).
    { apply List.existsb_exists. exists x. split; assumption. }
    rewrite Hex in Hnot. discriminate Hnot.
Qed.

Section NextRequest.
Context `{Coercions}.

Ltac settle_branches :=
  repeat match goal with
         | |- context [match ?x with _ => _ end] => destruct x
         end;
  reflexivity.

Lemma feed_sends (st : Feed.state) w log shown :
  Spec.feed_ready st = true ->
  Feed.postsList st = Some shown ->
  snd (Feed.loadPosts st w log)
  = log ++ [Spec.feed_request (Feed.nextCursor st)].
Proof.
  unfold Spec.feed_ready. intros Hready Hshown.
  apply andb_prop in Hready as [Hidle Hmore].
  apply negb_true_iff in Hidle.
  unfold Feed.loadPosts. rewrite Hidle, Hmore, Hshown. cbn [orb negb].
  unfold bind, attempt.
  pose proof (getPosts_log
                {| PostApi.cursor := Feed.nextCursor st;
                   PostApi.sort := VUndef;
                   PostApi.limit := VNum (Fin Feed.PAGE_SIZE) |} w log) as Hlog.
  destruct (PostApi.getPosts _ w log) as [res log']. simpl in Hlog. subst log'.
  unfold ret. settle_branches.
Qed.

Lemma my_posts_sends (st : MyPosts.state) w log shown :
  Spec.my_posts_ready st = true ->
  MyPosts.postsList st = Some shown ->
  snd (MyPosts.loadMyPosts st w log)
  = log ++ [Spec.my_posts_request (MyPosts.myPostsNextCursor st)].
Proof.
  unfold Spec.my_posts_ready. intros Hready Hshown.
  apply andb_prop in Hready as [Hidle Hmore].
  apply negb_true_iff in Hidle.
  unfold MyPosts.loadMyPosts. rewrite Hidle, Hmore, Hshown. cbn [orb negb].
  unfold bind, attempt.
  pose proof (getMyPosts_log
                {| PostApi.cursor := MyPosts.myPostsNextCursor st;
                   PostApi.sort := VUndef;
                   PostApi.limit := VNum (Fin MyPosts.MY_POSTS_PAGE_SIZE) |}
                w log) as Hlog.
  destruct (PostApi.getMyPosts _ w log) as [res log']. simpl in Hlog. subst log'.
  unfold ret. settle_branches.
Qed.

Lemma getComments_log postId (a : PostApi.ListArgs) w log :
  snd (CommentApi.getComments postId a w log)
  = log ++ [mkRequest GET [Lit "/posts/"; Param postId; Lit "/comments"]
              (VObj [("query", PostApi.list_query a 20)])].
Proof.
  unfold CommentApi.getComments. run_api.
  destruct (w log _) as [e|resp]; [|destruct (nullish resp)]; reflexivity.
Qed.

Lemma comments_sends (st : PostDetail.state) postId w log :
  Spec.comments_ready st = true ->
  snd (PostDetail.loadMoreComments (Some postId) st w log)
  = log ++ [Spec.comments_request postId (PostDetail.commentsNextCursor st)].
Proof.
  unfold Spec.comments_ready. intros Hready.
  apply andb_prop in Hready as [Hidle Hmore].
  apply negb_true_iff in Hidle.
  unfold PostDetail.loadMoreComments. rewrite Hidle, Hmore. cbn [orb negb].
  unfold bind, attempt.
  pose proof (getComments_log postId
                {| PostApi.cursor := PostDetail.commentsNextCursor st;
                   PostApi.sort := VStr (js "desc");
                   PostApi.limit := VNum (Fin PostDetail.COMMENTS_PAGE_SIZE) |}
                w log) as Hlog.
  destruct (CommentApi.getComments _ _ w log) as [res log']. simpl in Hlog.
  subst log'.
  unfold ret. settle_branches.
Qed.

Lemma request_cursor c :
  Spec.usable_cursor c = true ->
  query_param (Spec.feed_request c) "cursor" = c
  /\ query_param (Spec.my_posts_request c) "cursor" = c
  /\ forall postId, query_param (Spec.comments_request postId c) "cursor" = c.
Proof.
  intros Hc. unfold query_param, Spec.feed_request, Spec.my_posts_request,
    Spec.comments_request.
  cbn [req_options get_prop lookup_field String.eqb Ascii.eqb Bool.eqb].
  repeat split; intros; apply list_query_cursor; exact Hc.
Qed.

End NextRequest.

(** C1, as stated, fails on the feed: the second page is requested with
    the cursor of the first and appended, but when it holds a post that is
    already shown, the list ends up with two cards of the same id. *)
Lemma feed_appends_duplicate_ids :
  exists st1 st2 r1 r2,
    Feed.loadPosts (H := decimal_coercions) (Feed.initial (Some []))
      Spec.repeating_backend [] = (inr st1, [r1])
    /\ Feed.loadPosts (H := decimal_coercions) st1 Spec.repeating_backend [r1]
       = (inr st2, [r1; r2])
    /\ query_param r2 "cursor" = VStr (js "abc")
    /\ Feed.postsList st1 = Some [PostCard.Card (VNum (Fin 1)) Spec.post1]
    /\ Feed.postsList st2
       = Some [PostCard.Card (VNum (Fin 1)) Spec.post1;
               PostCard.Card (VNum (Fin 1)) Spec.post1]
    /\ Spec.distinct_ids (PostCard.card_ids [PostCard.Card (VNum (Fin 1)) Spec.post1])
    /\ ~ Spec.distinct_ids
           (PostCard.card_ids [PostCard.Card (VNum (Fin 1)) Spec.post1;
                               PostCard.Card (VNum (Fin 1)) Spec.post1]).
Proof.
  do 4 eexists.
  split; [vm_compute; reflexivity|].
  split; [vm_compute; reflexivity|].
  split; [vm_compute; reflexivity|].
  split; [reflexivity|].
  split; [reflexivity|].
  split.
  - simpl. split; [intros id' []|exact I].
  - simpl. intros [Hdup _].
    specialize (Hdup (VNum (Fin 1)) (or_introl eq_refl)). discriminate Hdup.
Qed.

(** C1, amended.  On the feed, the profile page and the comment list, when
    a response carries hasNext true and a cursor, the controller stores
    the cursor and the next list request carries it.  The feed and the
    profile page append a card for every returned post that has an id,
    after the cards already shown, without looking for ids already shown.
    The comment list appends, after the accumulated comments, the returned
    comments whose id is not yet accumulated, so that distinct ids stay
    distinct when the page itself has distinct ids. *)
Theorem paginated_loads_follow_cursor `{Coercions} :
  (forall (st : Feed.state) w log shown items next,
      Spec.feed_ready st = true ->
      Feed.postsList st = Some shown ->
      w log (Spec.feed_request (Feed.nextCursor st))
      = inr (Spec.page_of "posts" items next) ->
      Spec.all_objects items = true ->
      Spec.usable_cursor next = true ->
      exists st',
        Feed.loadPosts st w log
        = (inr st', log ++ [Spec.feed_request (Feed.nextCursor st)])
        /\ Feed.postsList st'
           = Some (if Feed.isInitialLoad st
                   then match items with
                        | [] => [PostCard.EmptyState]
                        | _ => Spec.cards_of items
                        end
                   else shown ++ Spec.cards_of items)
        /\ (forall w' log',
               snd (Feed.loadPosts st' w' log')
               = log' ++ [Spec.feed_request next])
        /\ query_param (Spec.feed_request next) "cursor" = next)
  /\ (forall (st : MyPosts.state) w log shown items next,
      Spec.my_posts_ready st = true ->
      MyPosts.postsList st = Some shown ->
      w log (Spec.my_posts_request (MyPosts.myPostsNextCursor st))
      = inr (Spec.page_of "posts" items next) ->
      Spec.all_objects items = true ->
      Spec.usable_cursor next = true ->
      exists st',
        MyPosts.loadMyPosts st w log
        = (inr st', log ++ [Spec.my_posts_request (MyPosts.myPostsNextCursor st)])
        /\ MyPosts.postsList st'
           = Some (if MyPosts.myPostsIsInitialLoad st then Spec.cards_of items
                   else shown ++ Spec.cards_of items)
        /\ (forall w' log',
               snd (MyPosts.loadMyPosts st' w' log')
               = log' ++ [Spec.my_posts_request next])
        /\ query_param (Spec.my_posts_request next) "cursor" = next)
  /\ (forall (st : PostDetail.state) postId w log items next,
      Spec.comments_ready st = true ->
      w log (Spec.comments_request postId (PostDetail.commentsNextCursor st))
      = inr (Spec.page_of "comments" items next) ->
      Spec.all_objects (PostDetail.allComments st) = true ->
      Spec.all_objects items = true ->
      Spec.usable_cursor next = true ->
      exists st',
        PostDetail.loadMoreComments (Some postId) st w log
        = (inr st',
           log ++ [Spec.comments_request postId (PostDetail.commentsNextCursor st)])
        /\ PostDetail.allComments st'
           = PostDetail.allComments st
             ++ Spec.fresh_comments (PostDetail.allComments st) items
        /\ (forall w' log',
               snd (PostDetail.loadMoreComments (Some postId) st' w' log')
               = log' ++ [Spec.comments_request postId next])
        /\ query_param (Spec.comments_request postId next) "cursor" = next
        /\ (Spec.distinct_ids (PostDetail.comment_ids (PostDetail.allComments st)) ->
            Spec.distinct_ids (PostDetail.comment_ids items) ->
            Spec.distinct_ids (PostDetail.comment_ids (PostDetail.allComments st')))).
Proof.
  split; [|split].
  - intros st w log shown items next Hready Hshown Hw Hobj Hnext.
    pose proof (feed_page_loaded st w log shown items next Hready Hshown Hw Hobj)
      as Hload.
    rewrite (usable_not_nullish _ Hnext) in Hload.
    eexists. split; [exact Hload|].
    split; [reflexivity|]. split.
    + intros w' log'.
      eapply (feed_sends (Feed.mkState next (VBool true) false false _));
        reflexivity.
    + apply request_cursor, Hnext.
  - intros st w log shown items next Hready Hshown Hw Hobj Hnext.
    destruct (my_posts_page_loaded st w log shown items next Hready Hshown Hw Hobj)
      as (st' & Hload & Hc & Hn & Hl & Hi & Hp).
    rewrite (usable_not_nullish _ Hnext) in Hc.
    exists st'. split; [exact Hload|]. split; [exact Hp|]. split.
    + intros w' log'. rewrite <- Hc.
      eapply my_posts_sends; [|exact Hp].
      unfold Spec.my_posts_ready. rewrite Hl, Hn. reflexivity.
    + apply request_cursor, Hnext.
  - intros st postId w log items next Hready Hw Hold Hobj Hnext.
    pose proof (comments_page_loaded st postId w log items next Hready Hw Hold Hobj)
      as Hload.
    rewrite (usable_not_nullish _ Hnext) in Hload.
    eexists. split; [exact Hload|].
    split; [reflexivity|]. split; [|split].
    + intros w' log'.
      apply (comments_sends (PostDetail.mkState next (VBool true) false _ _)).
      reflexivity.
    + apply request_cursor, Hnext.
    + intros Hd Hi. apply merged_comments_distinct; assumption.
Qed.

Lemma paginated_loads_follow_cursor_witness :
  (exists st',
      Feed.loadPosts (H := decimal_coercions) (Feed.initial (Some []))
        Spec.repeating_backend []
      = (inr st', [] ++ [Spec.feed_request (H := decimal_coercions) VNull])
      /\ Feed.postsList st' = Some (Spec.cards_of [Spec.post1])
      /\ (forall w' log',
             snd (Feed.loadPosts (H := decimal_coercions) st' w' log')
             = log' ++ [Spec.feed_request (H := decimal_coercions)
                          (VStr (js "abc"))])
      /\ query_param (Spec.feed_request (H := decimal_coercions) (VStr (js "abc")))
           "cursor" = VStr (js "abc"))
  /\ (exists st',
      PostDetail.loadMoreComments (H := decimal_coercions)
        (Some (VNum (Fin 7))) Spec.one_comment Spec.overlapping_backend []
      = (inr st',
         [] ++ [Spec.comments_request (H := decimal_coercions) (VNum (Fin 7))
                  (VStr (js "abc"))])
      /\ PostDetail.allComments st' = [Spec.comment1; Spec.comment2]
      /\ Spec.distinct_ids (PostDetail.comment_ids (PostDetail.allComments st'))).
Proof.
  destruct (@paginated_loads_follow_cursor decimal_coercions)
    as (Hfeed & _ & Hcomments).
  split.
  - destruct (Hfeed (Feed.initial (Some [])) Spec.repeating_backend []
                [] [Spec.post1] (VStr (js "abc")))
      as (st' & Hload & Hlist & Hnext & Hcursor); try reflexivity.
    exists st'. repeat split; assumption.
  - destruct (Hcomments Spec.one_comment (VNum (Fin 7)) Spec.overlapping_backend
                [] [Spec.comment1; Spec.comment2] (VStr (js "def")))
      as (st' & Hload & Hall & _ & _ & Hdistinct); try reflexivity.
    exists st'. split; [exact Hload|]. split; [exact Hall|].
    apply Hdistinct.
    + simpl. split; [intros id' []|exact I].
    + simpl. split; [|split; [intros id' []|exact I]].
      intros id' [<-|[]]. reflexivity.
Defined.

(** *** The image proxy *)

Section ImageProxy.
Context `{Server.Platform}.

(** A host in which no allow-listed domain occurs is refused, and
    nothing is fetched. *)
Lemma image_proxy_refuses url hostname :
  truthy url = true ->
  Server.URL_hostname url = Some hostname ->
  List.existsb (fun domain => includes hostname domain) Server.allowedDomains
  = false ->
  Server.image_proxy url
  = (Server.mkReply 403 (Server.error_body "Domain not allowed"), []).
Proof.
  intros Hurl Hhost Hno. unfold Server.image_proxy.
  rewrite Hurl, Hhost, Hno. reflexivity.
Qed.

(** Only hosts in which an allow-listed domain occurs are fetched. *)
Lemma image_proxy_fetch_only_matching url :
  snd (Server.image_proxy url) <> [] ->
  exists hostname,
    Server.URL_hostname url = Some hostname
    /\ List.existsb (fun domain => includes hostname domain)
         Server.allowedDomains = true.
Proof.
  unfold Server.image_proxy. intros Hfetched.
  destruct (truthy url); cbn [negb] in Hfetched;
    [|exfalso; apply Hfetched; reflexivity].
  destruct (Server.URL_hostname url) as [hostname|];
    [|exfalso; apply Hfetched; reflexivity].
  destruct (List.existsb (fun domain => includes hostname domain)
              Server.allowedDomains) eqn:Hm; cbn [negb] in Hfetched;
    [|exfalso; apply Hfetched; reflexivity].
  exists hostname. split; [reflexivity | exact Hm].
Qed.

End ImageProxy.

(** C2.  The claim holds of hosts in which no allow-listed domain occurs,
    but the handler tests [hostname.includes(domain)]: a host that is not
    allow-listed and only contains such a domain is fetched, and the bytes
    are relayed with status 200, not refused with 403. *)
Theorem image_proxy_fetches_lookalike_host
        (f : jsval -> string + Server.response) :
  Server.plain_hostname Spec.lookalike_url = Some Spec.lookalike_host
  /\ Spec.allow_listed Spec.lookalike_host = false
  /\ snd (Server.image_proxy (H := Spec.plain_platform f) Spec.lookalike_url)
     = [Spec.lookalike_url]
  /\ Server.image_proxy
       (H := Spec.plain_platform (fun _ => inr Spec.png_response))
       Spec.lookalike_url
     = (Server.mkReply 200
          (Server.Bytes (VStr (js "image/png")) [137; 80; 78; 71]%N),
        [Spec.lookalike_url]).
Proof.
  split; [vm_compute; reflexivity|].
  split; [vm_compute; reflexivity|].
  split; [|vm_compute; reflexivity].
  unfold Server.image_proxy.
  change (Server.URL_hostname Spec.lookalike_url)
    with (Server.plain_hostname Spec.lookalike_url).
  replace (Server.plain_hostname Spec.lookalike_url)
    with (Some Spec.lookalike_host) by (vm_compute; reflexivity).
  replace (truthy Spec.lookalike_url) with true by reflexivity.
  replace (List.existsb (fun domain => includes Spec.lookalike_host domain)
             Server.allowedDomains) with true by (vm_compute; reflexivity).
  cbn [negb]. change (@Server.fetch (Spec.plain_platform f)) with f.
  destruct (f Spec.lookalike_url) as [message|response]; [reflexivity|].
  destruct (Server.ok response); reflexivity.
Qed.

(** *** The AI route *)

Section GenerateImage.
Context `{AiRoute.Upstream}.

Lemma generate_image_needs_profile body :
  truthy (get_prop body "profileImageBase64") = false ->
  snd (AiRoute.generate_image body) = [].
Proof.
  intros Hno. unfold AiRoute.generate_image.
  destruct (truthy AiRoute.GEMINI_API_KEY); [|reflexivity].
  destruct (nullish body); [reflexivity|].
  destruct (truthy (get_prop body "prompt")); [|reflexivity].
  rewrite Hno. reflexivity.
Qed.

End GenerateImage.

(** C9, as stated, fails: with the API key configured, the empty body,
    which lacks [profileImageBase64], is answered 400 with the code
    PROMPT_REQUIRED, because [prompt] is checked first. *)
Lemma generate_image_reports_prompt_first :
  get_prop (VObj []) "profileImageBase64" = VUndef
  /\ AiRoute.generate_image (H := Spec.configured) (VObj [])
     = (AiRoute.error_reply 400 "이미지 생성 프롬프트가 필요합니다."
          "PROMPT_REQUIRED", [])
  /\ AiRoute.code_of (fst (AiRoute.generate_image (H := Spec.configured) (VObj [])))
     <> VStr (js "PROFILE_IMAGE_REQUIRED").
Proof.
  split; [reflexivity|]. split; [reflexivity|].
  vm_compute. discriminate.
Qed.

(** C9, amended.  A POST to /api/ai/generate-image whose body lacks
    [profileImageBase64] never reaches the Gemini API.  When the API key
    is configured and the body is an object carrying a prompt, the
    reply is 400 with code PROFILE_IMAGE_REQUIRED.  The two guards that
    come first: without an API key every body is answered 500 with code
    API_KEY_NOT_CONFIGURED, and with the key an object without a prompt
    is answered 400 with code PROMPT_REQUIRED, the Gemini API not being
    called in either case. *)
Theorem generate_image_requires_profile `{AiRoute.Upstream} (body : jsval) :
  (truthy (get_prop body "profileImageBase64") = false ->
   snd (AiRoute.generate_image body) = []
   /\ (truthy AiRoute.GEMINI_API_KEY = true ->
       nullish body = false ->
       truthy (get_prop body "prompt") = true ->
       Server.status (fst (AiRoute.generate_image body)) = 400%Z
       /\ AiRoute.code_of (fst (AiRoute.generate_image body))
          = VStr (js "PROFILE_IMAGE_REQUIRED")))
  /\ (truthy AiRoute.GEMINI_API_KEY = false ->
      Server.status (fst (AiRoute.generate_image body)) = 500%Z
      /\ AiRoute.code_of (fst (AiRoute.generate_image body))
         = VStr (js "API_KEY_NOT_CONFIGURED")
      /\ snd (AiRoute.generate_image body) = [])
  /\ (truthy AiRoute.GEMINI_API_KEY = true ->
      nullish body = false ->
      truthy (get_prop body "prompt") = false ->
      Server.status (fst (AiRoute.generate_image body)) = 400%Z
      /\ AiRoute.code_of (fst (AiRoute.generate_image body))
         = VStr (js "PROMPT_REQUIRED")
      /\ snd (AiRoute.generate_image body) = []).
Proof.
  split; [|split].
  - intros Hno. split; [apply generate_image_needs_profile, Hno|].
    intros Hkey Hbody Hprompt. unfold AiRoute.generate_image.
    rewrite Hkey, Hbody, Hprompt, Hno. split; reflexivity.
  - intros Hkey. unfold AiRoute.generate_image. rewrite Hkey.
    repeat split; reflexivity.
  - intros Hkey Hbody Hprompt. unfold AiRoute.generate_image.
    rewrite Hkey, Hbody, Hprompt. repeat split; reflexivity.
Qed.

Lemma generate_image_requires_profile_witness :
  (snd (AiRoute.generate_image (H := Spec.configured)
          (VObj [("prompt", VStr (js "a quiet street at dusk"))])) = []
   /\ Server.status
        (fst (AiRoute.generate_image (H := Spec.configured)
                (VObj [("prompt", VStr (js "a quiet street at dusk"))])))
      = 400%Z
   /\ AiRoute.code_of
        (fst (AiRoute.generate_image (H := Spec.configured)
                (VObj [("prompt", VStr (js "a quiet street at dusk"))])))
      = VStr (js "PROFILE_IMAGE_REQUIRED"))
  /\ (Server.status
        (fst (AiRoute.generate_image (H := Spec.unconfigured)
                (VObj [("prompt", VStr (js "a quiet street at dusk"));
                       ("profileImageBase64", VStr (js "aGVsbG8="))])))
      = 500%Z
      /\ AiRoute.code_of
           (fst (AiRoute.generate_image (H := Spec.unconfigured)
                   (VObj [("prompt", VStr (js "a quiet street at dusk"));
                          ("profileImageBase64", VStr (js "aGVsbG8="))])))
         = VStr (js "API_KEY_NOT_CONFIGURED")
      /\ snd (AiRoute.generate_image (H := Spec.unconfigured)
                (VObj [("prompt", VStr (js "a quiet street at dusk"));
                       ("profileImageBase64", VStr (js "aGVsbG8="))])) = [])
  /\ (Server.status
        (fst (AiRoute.generate_image (H := Spec.configured)
                (VObj [("prompt", VStr []);
                       ("profileImageBase64", VStr (js "aGVsbG8="))])))
      = 400%Z
      /\ AiRoute.code_of
           (fst (AiRoute.generate_image (H := Spec.configured)
                   (VObj [("prompt", VStr []);
                          ("profileImageBase64", VStr (js "aGVsbG8="))])))
         = VStr (js "PROMPT_REQUIRED")
      /\ snd (AiRoute.generate_image (H := Spec.configured)
                (VObj [("prompt", VStr []);
                       ("profileImageBase64", VStr (js "aGVsbG8="))])) = []).
Proof.
  split; [|split].
  - destruct (@generate_image_requires_profile Spec.configured
                (VObj [("prompt", VStr (js "a quiet street at dusk"))]))
      as [Hprofile _].
    destruct (Hprofile eq_refl) as [Hcalls Hreply].
    split; [exact Hcalls|]. apply Hreply; reflexivity.
  - destruct (@generate_image_requires_profile Spec.unconfigured
                (VObj [("prompt", VStr (js "a quiet street at dusk"));
                       ("profileImageBase64", VStr (js "aGVsbG8="))]))
      as (_ & Hkey & _).
    apply Hkey. reflexivity.
  - destruct (@generate_image_requires_profile Spec.configured
                (VObj [("prompt", VStr []);
                       ("profileImageBase64", VStr (js "aGVsbG8="))]))
      as (_ & _ & Hprompt).
    apply Hprompt; reflexivity.
Defined.

(** *** The image strip of the write page *)

Section Splice.
Context {A : Type}.
Implicit Types (l : list A) (x : A).







End Splice.



(** The removal made when a background upload fails does not re-derive
    the index: with two images, the second one primary, the failure of
    the second leaves the index pointing past the end. *)
Lemma upload_failure_leaves_index_alone :
  Spec.primary_ok (Spec.strip [Spec.picture 1; Spec.picture 2] 1 None)
  /\ ~ Spec.primary_ok
       (WritePage.uploadFailed 2 (Spec.strip [Spec.picture 1; Spec.picture 2] 1 None)).
Proof.
  split.
  - left. simpl. lia.
  - intros [Hlt|[Hnil _]]; simpl in *; [lia|discriminate].
Qed.



(** What [renderImagePreviews] guards against: the preview it shows as
    primary is one of the strip, wherever the index points. *)
Lemma displayed_primary_in_bounds (pg : WritePage.page) :
  WritePage.uploadedImages pg <> [] ->
  (WritePage.effectivePrimaryIndex pg
   < List.length (WritePage.uploadedImages pg))%nat.
Proof.
  intros Hsome. unfold WritePage.effectivePrimaryIndex.
  destruct (Nat.ltb_spec (WritePage.primaryImageIndex pg)
              (List.length (WritePage.uploadedImages pg))) as [Hin|Hout];
    [exact Hin|].
  destruct (WritePage.uploadedImages pg); [congruence | simpl; lia].
Qed.




(** *** The draft: JSON text and local storage *)

Section JsonRoundTrip.
Local Open Scope N_scope.
Import Json.

Lemma hex_value_digit d : d < 16 -> hex_value (hex_digit d) = Some d.
Proof.
  intros Hd. unfold hex_digit, hex_value.
  destruct (N.ltb_spec d 10) as [Hlt|Hge].
  - replace (48 <=? 48 + d) with true by (symmetry; apply N.leb_le; lia).
    replace (48 + d <=? 57) with true by (symmetry; apply N.leb_le; lia).
    simpl. f_equal. lia.
  - replace (48 <=? 87 + d) with true by (symmetry; apply N.leb_le; lia).
    replace (87 + d <=? 57) with false by (symmetry; apply N.leb_gt; lia).
    replace (97 <=? 87 + d) with true by (symmetry; apply N.leb_le; lia).
    replace (87 + d <=? 102) with true by (symmetry; apply N.leb_le; lia).
    simpl. f_equal. lia.
Qed.

Lemma four_hex_digits c :
  c < 65536 ->
  ((c / 4096 mod 16 * 16 + c / 256 mod 16) * 16 + c / 16 mod 16) * 16 + c mod 16
  = c.
Proof.
  intros Hc.
  pose proof (N.div_mod c 16 ltac:(lia)).
  pose proof (N.div_mod (c / 16) 16 ltac:(lia)).
  pose proof (N.div_mod (c / 256) 16 ltac:(lia)).
  pose proof (N.div_mod (c / 4096) 16 ltac:(lia)).
  assert (c / 256 = c / 16 / 16) by (rewrite N.Div0.div_div; reflexivity).
  assert (c / 4096 = c / 256 / 16) by (rewrite N.Div0.div_div; reflexivity).
  assert (c / 4096 / 16 = 0).
  { rewrite N.Div0.div_div. apply N.div_small. lia. }
  lia.
Qed.

Lemma parse_string_unicode h1 h2 h3 h4 rest :
  parse_string (92 :: 117 :: h1 :: h2 :: h3 :: h4 :: rest)
  = match hex_value h1, hex_value h2, hex_value h3, hex_value h4 with
    | Some a, Some b, Some c', Some d =>
        Spec.decoded (((a * 16 + b) * 16 + c') * 16 + d) (parse_string rest)
    | _, _, _, _ => None
    end.
Proof. reflexivity. Qed.

Lemma parse_unicode_escape c rest :
  c < 65536 ->
  parse_string (unicode_escape c ++ rest) = Spec.decoded c (parse_string rest).
Proof.
  intros Hc. unfold unicode_escape. cbn [app].
  rewrite parse_string_unicode.
  rewrite !hex_value_digit by (apply N.mod_lt; lia).
  rewrite four_hex_digits by exact Hc. reflexivity.
Qed.

Lemma parse_string_plain c rest :
  c <> 34 -> c <> 92 -> 32 <= c ->
  parse_string (c :: rest) = Spec.decoded c (parse_string rest).
Proof.
  intros Hq Hb Hc. cbn [parse_string].
  destruct (N.eqb_spec c 34); [contradiction|].
  destruct (N.eqb_spec c 92); [contradiction|].
  destruct (N.ltb_spec c 32); [lia|]. reflexivity.
Qed.

Lemma parse_escape_unit c rest :
  parse_string (escape_unit c ++ rest) = Spec.decoded c (parse_string rest).
Proof.
  unfold escape_unit.
  destruct (N.eqb_spec c 8) as [->|H8]; [reflexivity|].
  destruct (N.eqb_spec c 9) as [->|H9]; [reflexivity|].
  destruct (N.eqb_spec c 10) as [->|H10]; [reflexivity|].
  destruct (N.eqb_spec c 12) as [->|H12]; [reflexivity|].
  destruct (N.eqb_spec c 13) as [->|H13]; [reflexivity|].
  destruct (N.eqb_spec c 34) as [->|H34]; [reflexivity|].
  destruct (N.eqb_spec c 92) as [->|H92]; [reflexivity|].
  destruct (N.ltb_spec c 32) as [Hlt|Hge].
  - apply parse_unicode_escape. lia.
  - cbn [app]. apply parse_string_plain; assumption.
Qed.

Lemma surrogate_range c :
  (is_high_surrogate c || is_low_surrogate c)%bool = true ->
  55296 <= c <= 57343.
Proof.
  unfold is_high_surrogate, is_low_surrogate. intros Hs.
  apply orb_prop in Hs as [Hs|Hs]; apply andb_prop in Hs as [Hlo Hhi];
    apply N.leb_le in Hlo, Hhi; lia.
Qed.

Lemma escape_cons c rest :
  escape (c :: rest)
  = if is_high_surrogate c then
      match rest with
      | d :: rest' =>
          if is_low_surrogate d then c :: d :: escape rest'
          else unicode_escape c ++ escape rest
      | [] => unicode_escape c
      end
    else if is_low_surrogate c then unicode_escape c ++ escape rest
    else escape_unit c ++ escape rest.
Proof. reflexivity. Qed.

Lemma parse_escaped_bounded (n : nat) :
  forall s rest,
    (List.length s <= n)%nat ->
    parse_string (escape s ++ 34 :: rest) = Some (s, rest).
Proof.
  induction n as [|n IH]; intros s rest Hlen.
  - destruct s; [reflexivity | simpl in Hlen; lia].
  - destruct s as [|c s]; [reflexivity|].
    simpl in Hlen. rewrite escape_cons.
    destruct (is_high_surrogate c) eqn:Hhigh.
    + assert (Hc : 55296 <= c <= 57343)
        by (apply surrogate_range; rewrite Hhigh; reflexivity).
      destruct s as [|d s].
      * rewrite parse_unicode_escape by lia. reflexivity.
      * destruct (is_low_surrogate d) eqn:Hlow.
        -- assert (Hd : 55296 <= d <= 57343)
             by (apply surrogate_range; rewrite Hlow; apply orb_true_r).
           cbn [app]. rewrite !parse_string_plain by lia.
           rewrite IH by (simpl in Hlen; lia). reflexivity.
        -- rewrite <- List.app_assoc, parse_unicode_escape by lia.
           rewrite IH by lia. reflexivity.
    + destruct (is_low_surrogate c) eqn:Hlow.
      * assert (Hc : 55296 <= c <= 57343)
          by (apply surrogate_range; rewrite Hlow; apply orb_true_r).
        rewrite <- List.app_assoc, parse_unicode_escape by lia.
        rewrite IH by lia. reflexivity.
      * rewrite <- List.app_assoc, parse_escape_unit.
        rewrite IH by lia. reflexivity.
Qed.

Lemma parse_escaped s rest :
  parse_string (escape s ++ 34 :: rest) = Some (s, rest).
Proof. apply (parse_escaped_bounded (List.length s)). lia. Qed.

Lemma parse_literal_quote s rest :
  parse_literal (quote s ++ rest) = Some (s, skip_ws rest).
Proof.
  unfold parse_literal, quote. cbn [app skip_ws is_json_space N.eqb Pos.eqb orb].
  rewrite <- List.app_assoc. cbn [app].
  rewrite parse_escaped. reflexivity.
Qed.

End JsonRoundTrip.

Section JsonObjects.
Local Open Scope N_scope.
Import Json.

Lemma stringify_members_cons k v ms :
  stringify_members ((k, v) :: ms)
  = match ms with
    | [] => quote k ++ 58 :: quote v
    | _ => quote k ++ 58 :: quote v ++ 44 :: stringify_members ms
    end.
Proof. destruct ms; reflexivity. Qed.

Lemma parse_members_stringify ms :
  forall fuel tail,
    ms <> [] ->
    (List.length ms <= fuel)%nat ->
    parse_members fuel (stringify_members ms ++ 125 :: tail) = Some (ms, tail).
Proof.
  induction ms as [|[k v] ms IH]; intros fuel tail Hne Hfuel; [contradiction|].
  destruct fuel as [|fuel]; [simpl in Hfuel; lia|].
  rewrite stringify_members_cons. cbn [parse_members].
  destruct ms as [|m ms].
  - rewrite <- List.app_assoc. rewrite parse_literal_quote.
    cbn [app skip_ws is_json_space N.eqb Pos.eqb orb].
    rewrite parse_literal_quote.
    cbn [skip_ws is_json_space N.eqb Pos.eqb orb]. reflexivity.
  - rewrite <- List.app_assoc. rewrite parse_literal_quote.
    cbn [app skip_ws is_json_space N.eqb Pos.eqb orb].
    rewrite <- List.app_assoc. rewrite parse_literal_quote.
    cbn [app skip_ws is_json_space N.eqb Pos.eqb orb].
    rewrite IH; [reflexivity | discriminate | simpl in Hfuel |- *; lia].
Qed.

Lemma length_quote s : (2 <= List.length (quote s))%nat.
Proof.
  unfold quote. cbn [List.length]. rewrite List.length_app. simpl. lia.
Qed.

Lemma length_stringify_members ms :
  (List.length ms <= List.length (stringify_members ms))%nat.
Proof.
  induction ms as [|[k v] ms IH]; [simpl; lia|].
  rewrite stringify_members_cons.
  pose proof (length_quote k). pose proof (length_quote v).
  destruct ms as [|m ms].
  - rewrite List.length_app. cbn [List.length]. lia.
  - rewrite List.length_app. cbn [List.length].
    rewrite List.length_app. cbn [List.length] in IH |- *. lia.
Qed.

(** [JSON.parse(JSON.stringify(v))] gives [v] back. *)
Lemma parse_stringify v : parse (stringify v) = Some v.
Proof.
  destruct v as [s|ms].
  - unfold parse, stringify.
    assert (Hq : skip_ws (quote s) = quote s) by reflexivity. rewrite Hq.
    unfold quote at 1.
    rewrite <- (List.app_nil_r (quote s)), parse_literal_quote. reflexivity.
  - unfold parse, stringify.
    cbn [skip_ws is_json_space N.eqb Pos.eqb orb].
    destruct ms as [|[k v] ms]; [reflexivity|].
    assert (Hstart : skip_ws (stringify_members ((k, v) :: ms) ++ [125])
                     = stringify_members ((k, v) :: ms) ++ [125]).
    { rewrite stringify_members_cons. destruct ms; reflexivity. }
    rewrite Hstart.
    assert (Hquote : exists rest,
               stringify_members ((k, v) :: ms) ++ [125] = 34 :: rest).
    { rewrite stringify_members_cons. destruct ms; eexists; reflexivity. }
    destruct Hquote as [rest Hrest]. rewrite Hrest at 1.
    rewrite parse_members_stringify; [reflexivity | discriminate |].
    rewrite List.length_app.
    pose proof (length_stringify_members ((k, v) :: ms)). lia.
Qed.

End JsonObjects.

Lemma draft_fields title content savedAt :
  Json.field (WritePage.draft title content savedAt) (js "title") = Some title
  /\ Json.field (WritePage.draft title content savedAt) (js "content")
     = Some content.
Proof. split; reflexivity. Qed.

Lemma saveDraft_stores now (pg : WritePage.page) :
  Spec.has_text pg = true ->
  WritePage.localStorage (WritePage.saveDraft now pg)
    !! WritePage.DRAFT_STORAGE_KEY
  = Some (Json.stringify
            (WritePage.draft (WritePage.titleValue pg)
               (WritePage.contentValue pg) now)).
Proof.
  unfold Spec.has_text, WritePage.saveDraft. intros Htext.
  destruct (truthy (VStr (WritePage.titleValue pg)));
    destruct (truthy (VStr (WritePage.contentValue pg)));
    try discriminate; cbn [negb andb WritePage.with_storage WritePage.localStorage];
    apply lookup_insert_eq.
Qed.

Lemma loadDraft_after_saveDraft now (pg : WritePage.page) :
  Spec.has_text pg = true ->
  WritePage.loadDraft (WritePage.saveDraft now pg)
  = Some (Some (WritePage.draft (WritePage.titleValue pg)
                  (WritePage.contentValue pg) now),
          WritePage.saveDraft now pg).
Proof.
  intros Htext. unfold WritePage.loadDraft.
  rewrite (saveDraft_stores now pg Htext).
  rewrite parse_stringify. reflexivity.
Qed.

Section Submission.
Context `{Coercions}.

Lemma handleSubmit_clears_draft now (pg : WritePage.page) w log result log' :
  WritePage.validateTitle pg = true ->
  WritePage.validateContent pg = true ->
  List.existsb (WritePage.expired now) (WritePage.uploadedImages pg) = false ->
  PostApi.createPost (WritePage.buildCreatePostRequest pg) w log
  = (inr result, log') ->
  truthy result = true ->
  strict_eq (get_prop result "postId") VUndef = false ->
  exists pg',
    WritePage.handleSubmit now pg w log = (inr pg', log')
    /\ WritePage.localStorage pg' !! WritePage.DRAFT_STORAGE_KEY = None
    /\ WritePage.location pg'
       = Some [Lit "/post/"; Param (get_prop result "postId")].
Proof.
  intros Ht Hc Hexp Hcreate Hres Hid. unfold WritePage.handleSubmit.
  rewrite Ht, Hc, Hexp. cbn [andb negb].
  erewrite bind_returns; cycle 1.
  { unfold attempt. rewrite Hcreate. reflexivity. }
  cbn beta iota. rewrite Hres, Hid. cbn [negb orb].
  eexists. split; [reflexivity|]. split; [|reflexivity].
  cbn [WritePage.localStorage WritePage.clearDraft WritePage.with_storage].
  apply lookup_delete_eq.
Qed.

End Submission.

(** C8.  When there is text to save, [saveDraft] writes it under the key
    anoo_post_draft and [loadDraft] then returns an object whose title and
    content are exactly the strings saved, in particular for the title
    hello; a submission that [createPost] answers with a post id removes
    the key. *)
Theorem draft_saved_restored_cleared `{Coercions} :
  WritePage.DRAFT_STORAGE_KEY = "anoo_post_draft"
  /\ (forall now (pg : WritePage.page),
      Spec.has_text pg = true ->
      exists d,
        WritePage.loadDraft (WritePage.saveDraft now pg)
        = Some (Some d, WritePage.saveDraft now pg)
        /\ Json.parse <$> (WritePage.localStorage (WritePage.saveDraft now pg)
                             !! WritePage.DRAFT_STORAGE_KEY)
           = Some (Some d)
        /\ Json.field d (js "title") = Some (WritePage.titleValue pg)
        /\ Json.field d (js "content") = Some (WritePage.contentValue pg))
  /\ (forall now (pg : WritePage.page),
      WritePage.titleValue pg = js "hello" ->
      exists d,
        WritePage.loadDraft (WritePage.saveDraft now pg)
        = Some (Some d, WritePage.saveDraft now pg)
        /\ Json.field d (js "title") = Some (js "hello")
        /\ Json.field d (js "content") = Some (WritePage.contentValue pg))
  /\ (forall now (pg : WritePage.page) w log result log',
      WritePage.validateTitle pg = true ->
      WritePage.validateContent pg = true ->
      List.existsb (WritePage.expired now) (WritePage.uploadedImages pg) = false ->
      PostApi.createPost (WritePage.buildCreatePostRequest pg) w log
      = (inr result, log') ->
      truthy result = true ->
      strict_eq (get_prop result "postId") VUndef = false ->
      exists pg',
        WritePage.handleSubmit now pg w log = (inr pg', log')
        /\ WritePage.localStorage pg' !! WritePage.DRAFT_STORAGE_KEY = None
        /\ WritePage.location pg'
           = Some [Lit "/post/"; Param (get_prop result "postId")]).
Proof.
  split; [reflexivity|]. split; [|split].
  - intros now pg Htext. eexists.
    split; [apply loadDraft_after_saveDraft, Htext|].
    split; [|apply draft_fields].
    rewrite (saveDraft_stores now pg Htext). cbn [fmap option_fmap option_map].
    rewrite parse_stringify. reflexivity.
  - intros now pg Hhello.
    assert (Htext : Spec.has_text pg = true).
    { unfold Spec.has_text. rewrite Hhello. reflexivity. }
    eexists. split; [apply loadDraft_after_saveDraft, Htext|].
    rewrite <- Hhello. apply draft_fields.
  - intros. eapply handleSubmit_clears_draft; eassumption.
Qed.

Lemma draft_saved_restored_cleared_witness :
  (exists d,
      WritePage.loadDraft (WritePage.saveDraft Spec.timestamp Spec.hello_page)
      = Some (Some d, WritePage.saveDraft Spec.timestamp Spec.hello_page)
      /\ Json.field d (js "title") = Some (js "hello")
      /\ Json.field d (js "content") = Some (js "hello world"))
  /\ (exists pg',
      WritePage.handleSubmit (H := decimal_coercions) 0
        (WritePage.saveDraft Spec.timestamp Spec.hello_page)
        Spec.accepting_backend []
      = (inr pg',
         [mkRequest POST [Lit "/posts"]
            (VObj [("body",
                    VObj [("title", VStr (js "hello"));
                          ("content", VStr (js "hello world"));
                          ("imageIds", VArr [])])])])
      /\ WritePage.localStorage pg' !! WritePage.DRAFT_STORAGE_KEY = None
      /\ WritePage.location pg' = Some [Lit "/post/"; Param (VNum (Fin 7))]).
Proof.
  destruct (@draft_saved_restored_cleared decimal_coercions)
    as (_ & _ & Hhello & Hsubmit).
  split.
  - apply (Hhello Spec.timestamp Spec.hello_page). reflexivity.
  - apply (Hsubmit 0%Z (WritePage.saveDraft Spec.timestamp Spec.hello_page)
             Spec.accepting_backend [] (VObj [("postId", VNum (Fin 7))]));
      reflexivity.
Defined.

(** *** The modal *)

Lemma removeListener_self h : Layout.removeListener h [h] = [].
Proof. unfold Layout.removeListener. simpl. rewrite Nat.eqb_refl. reflexivity. Qed.

Lemma registered_self h : Layout.registered h [h] = true.
Proof. unfold Layout.registered. simpl. rewrite Nat.eqb_refl. reflexivity. Qed.

Lemma loadModal_tidy : Spec.tidy Layout.loadModal.
Proof. split; [reflexivity|]. simpl. auto. Qed.

Lemma closeModal_tidy st :
  Spec.tidy st ->
  Layout.closeModal st
  = Layout.mkState true true [] [] [] [] None (Layout.fresh st) (Layout.invoked st).
Proof.
  destruct st as [ld hd cc ca ov kd cur fr inv]. intros [Hl Hcur].
  simpl in Hl, Hcur. subst ld.
  unfold Layout.closeModal, Layout.cleanupModalHandlers. simpl.
  destruct cur as [h|]; destruct Hcur as (-> & -> & -> & ->); simpl;
    rewrite ?Nat.eqb_refl; reflexivity.
Qed.

Lemma openModal_tidy c c' st :
  Spec.tidy st ->
  Layout.openModal c c' st
  = let h := Layout.mkHandlers (Layout.fresh st) c c' in
    Layout.mkState true false [h] [h] [h] [h] (Some h) (S (Layout.fresh st))
      (Layout.invoked st).
Proof.
  destruct st as [ld hd cc ca ov kd cur fr inv]. intros [Hl Hcur].
  simpl in Hl, Hcur. subst ld.
  unfold Layout.openModal, Layout.cleanupModalHandlers. simpl.
  destruct cur as [h|]; destruct Hcur as (-> & -> & -> & ->); simpl;
    rewrite ?Nat.eqb_refl; reflexivity.
Qed.

Lemma closed_tidy fr inv :
  Spec.tidy (Layout.mkState true true [] [] [] [] None fr inv).
Proof. split; [reflexivity|]. simpl. auto. Qed.

Lemma opened_tidy h hd fr inv :
  Spec.tidy (Layout.mkState true hd [h] [h] [h] [h] (Some h) fr inv).
Proof. split; [reflexivity|]. simpl. auto. Qed.

Lemma run_action_tidy st a :
  Spec.tidy st ->
  Spec.tidy (Layout.run_action st a)
  /\ Layout.invoked (Layout.run_action st a) = Layout.invoked st.
Proof.
  intros Ht. destruct a as [|c c']; simpl.
  - rewrite (closeModal_tidy st Ht). split; [apply closed_tidy | reflexivity].
  - rewrite (openModal_tidy c c' st Ht). split; [apply opened_tidy | reflexivity].
Qed.

Lemma body_tidy body st :
  Spec.tidy st ->
  Spec.tidy (List.fold_left Layout.run_action body st)
  /\ Layout.invoked (List.fold_left Layout.run_action body st) = Layout.invoked st.
Proof.
  revert st. induction body as [|a body IH]; intros st Ht; [split; auto|].
  simpl. destruct (run_action_tidy st a Ht) as [Ht' Hinv].
  destruct (IH _ Ht') as [Ht'' Hinv']. split; [exact Ht''|]. congruence.
Qed.

(** A callback runs once: its label is appended once, and the modal is
    left tidy whatever the callback opened or closed. *)
Lemma invoke_tidy cb st :
  Spec.tidy st ->
  Spec.tidy (Layout.invoke cb st)
  /\ Layout.invoked (Layout.invoke cb st) = Layout.invoked st ++ Layout.label_of cb.
Proof.
  intros Ht. destruct cb as [[label body]|]; simpl.
  - destruct st as [ld hd cc ca ov kd cur fr inv].
    destruct (body_tidy body
                (Layout.mkState ld hd cc ca ov kd cur fr (inv ++ [label])))
      as [Ht' Hinv]; [exact Ht|].
    split; [exact Ht' | exact Hinv].
  - rewrite List.app_nil_r. split; [exact Ht | reflexivity].
Qed.

Lemma handleConfirm_tidy h st :
  Spec.tidy st ->
  exists fr,
    Layout.handleConfirm h st
    = Layout.mkState true true [] [] [] [] None fr
        (Layout.invoked st ++ Layout.label_of (Layout.onConfirm h)).
Proof.
  intros Ht. unfold Layout.handleConfirm.
  destruct (invoke_tidy (Layout.onConfirm h) st Ht) as [Ht' Hinv].
  rewrite (closeModal_tidy _ Ht'), Hinv. eauto.
Qed.

Lemma handleCancel_tidy h st :
  Spec.tidy st ->
  exists fr,
    Layout.handleCancel h st
    = Layout.mkState true true [] [] [] [] None fr
        (Layout.invoked st ++ Layout.label_of (Layout.onCancel h)).
Proof.
  intros Ht. unfold Layout.handleCancel.
  destruct (invoke_tidy (Layout.onCancel h) st Ht) as [Ht' Hinv].
  rewrite (closeModal_tidy _ Ht'), Hinv. eauto.
Qed.

(** On a tidy modal each of the four events reaches exactly the closure
    of the open modal, or nothing when no modal is open. *)
Lemma events_on_tidy st :
  Spec.tidy st ->
  match Layout.currentModalHandlers st with
  | Some h =>
      Layout.clickConfirm st = Layout.handleConfirm h st
      /\ Layout.clickCancel st = Layout.handleCancel h st
      /\ Layout.clickOverlay st = Layout.handleCancel h st
      /\ Layout.pressEscape st = Layout.handleCancel h st
  | None =>
      Layout.clickConfirm st = st /\ Layout.clickCancel st = st
      /\ Layout.clickOverlay st = st /\ Layout.pressEscape st = st
  end.
Proof.
  intros [_ Hcur].
  unfold Layout.clickConfirm, Layout.clickCancel, Layout.clickOverlay,
    Layout.pressEscape.
  destruct (Layout.currentModalHandlers st) as [h|];
    destruct Hcur as (Hc & Ha & Ho & Hk); rewrite Hc, Ha, Ho, Hk; simpl;
    rewrite ?Hc, ?Ha, ?Ho, ?Hk, ?registered_self; repeat split; reflexivity.
Qed.

Lemma step_tidy st e : Spec.tidy st -> Spec.tidy (Layout.step st e).
Proof.
  intros Ht. pose proof (events_on_tidy st Ht) as Hev.
  destruct e as [c c'| | | | |]; simpl.
  - rewrite (openModal_tidy c c' st Ht). apply opened_tidy.
  - rewrite (closeModal_tidy st Ht). apply closed_tidy.
  - destruct (Layout.currentModalHandlers st) as [h|];
      destruct Hev as (-> & _); [|exact Ht].
    destruct (handleConfirm_tidy h st Ht) as [fr ->]. apply closed_tidy.
  - destruct (Layout.currentModalHandlers st) as [h|];
      destruct Hev as (_ & -> & _); [|exact Ht].
    destruct (handleCancel_tidy h st Ht) as [fr ->]. apply closed_tidy.
  - destruct (Layout.currentModalHandlers st) as [h|];
      destruct Hev as (_ & _ & -> & _); [|exact Ht].
    destruct (handleCancel_tidy h st Ht) as [fr ->]. apply closed_tidy.
  - destruct (Layout.currentModalHandlers st) as [h|];
      destruct Hev as (_ & _ & _ & ->); [|exact Ht].
    destruct (handleCancel_tidy h st Ht) as [fr ->]. apply closed_tidy.
Qed.

Lemma run_tidy events st : Spec.tidy st -> Spec.tidy (Layout.run events st).
Proof.
  revert st. induction events as [|e events IH]; intros st Ht; [exact Ht|].
  simpl. apply IH, step_tidy, Ht.
Qed.

(** C7.  Whatever happened to the modal before (modals opened, closed,
    confirmed or cancelled, in any order), after [openModal] the only
    listeners attached are the closures of this call.  A click on confirm
    then runs the [onConfirm] just supplied, once, and nothing else, and
    closes the modal; a click on cancel runs at most the [onCancel] just
    supplied and closes the modal.  No listener is left behind. *)
Theorem modal_runs_latest_callback_once
        (events : list Layout.event) (onConfirm onCancel : option Layout.callback) :
  let before := Layout.run events Layout.loadModal in
  let st := Layout.openModal onConfirm onCancel before in
  let h := Layout.mkHandlers (Layout.fresh before) onConfirm onCancel in
  (Layout.confirmClick st = [h] /\ Layout.cancelClick st = [h]
   /\ Layout.overlayClick st = [h] /\ Layout.keydown st = [h]
   /\ Layout.hidden st = false)
  /\ (Layout.invoked (Layout.clickConfirm st)
      = Layout.invoked st ++ Layout.label_of onConfirm
      /\ Layout.hidden (Layout.clickConfirm st) = true
      /\ Layout.no_listeners (Layout.clickConfirm st))
  /\ (Layout.invoked (Layout.clickCancel st)
      = Layout.invoked st ++ Layout.label_of onCancel
      /\ Layout.hidden (Layout.clickCancel st) = true
      /\ Layout.no_listeners (Layout.clickCancel st)).
Proof.
  intros before st h.
  assert (Hbefore : Spec.tidy before) by apply run_tidy, loadModal_tidy.
  assert (Hst : st = Layout.mkState true false [h] [h] [h] [h] (Some h)
                       (S (Layout.fresh before)) (Layout.invoked before))
    by apply (openModal_tidy onConfirm onCancel before Hbefore).
  clearbody st.
  assert (Htidy : Spec.tidy st) by (rewrite Hst; apply opened_tidy).
  assert (Hcur : Layout.currentModalHandlers st = Some h)
    by (rewrite Hst; reflexivity).
  pose proof (events_on_tidy st Htidy) as Hev.
  rewrite Hcur in Hev.
  destruct Hev as (Hconfirm & Hcancel & _ & _).
  split; [rewrite Hst; repeat split; reflexivity|].
  split.
  - rewrite Hconfirm.
    destruct (handleConfirm_tidy h st Htidy) as [fr ->].
    repeat split; reflexivity.
  - rewrite Hcancel.
    destruct (handleCancel_tidy h st Htidy) as [fr ->].
    repeat split; reflexivity.
Qed.

(* ===================================================================== *)
(** ** Further properties of the code *)
(* ===================================================================== *)

(** *** The list loaders: failures, the last page *)

Section Loaders.
Context `{Coercions}.

Lemma attempt_getPosts (a : PostApi.ListArgs) w log :
  exists r,
    attempt (PostApi.getPosts a) w log
    = (inr r, log ++ [mkRequest GET [Lit "/posts"]
                        (VObj [("query", PostApi.list_query a 10)])])
    /\ (forall e,
           w log (mkRequest GET [Lit "/posts"]
                    (VObj [("query", PostApi.list_query a 10)])) = inl e ->
           r = inl e)
    /\ (forall resp,
           w log (mkRequest GET [Lit "/posts"]
                    (VObj [("query", PostApi.list_query a 10)])) = inr resp ->
           nullish resp = false ->
           r = inr (coalesce (get_prop resp "data") VNull)).
Proof.
  unfold attempt, PostApi.getPosts. run_api.
  destruct (w log _) as [e|resp].
  - eexists. split; [reflexivity|]. split; congruence.
  - destruct (nullish resp) eqn:Hn; eexists; (split; [reflexivity|]);
      split; try congruence; intros resp' [= <-] Hn'; congruence.
Qed.

Lemma attempt_getMyPosts (a : PostApi.ListArgs) w log :
  exists r,
    attempt (PostApi.getMyPosts a) w log
    = (inr r, log ++ [mkRequest GET [Lit "/posts/me"]
                        (VObj [("query", PostApi.list_query a 20)])])
    /\ (forall e,
           w log (mkRequest GET [Lit "/posts/me"]
                    (VObj [("query", PostApi.list_query a 20)])) = inl e ->
           r = inl e)
    /\ (forall resp,
           w log (mkRequest GET [Lit "/posts/me"]
                    (VObj [("query", PostApi.list_query a 20)])) = inr resp ->
           nullish resp = false ->
           r = inr (coalesce (get_prop resp "data")
                      (VObj [("posts", VArr []); ("count", VNum (Fin 0));
                             ("nextCursor", VNull)]))).
Proof.
  unfold attempt, PostApi.getMyPosts. run_api.
  destruct (w log _) as [e|resp].
  - eexists. split; [reflexivity|]. split; congruence.
  - destruct (nullish resp) eqn:Hn; eexists; (split; [reflexivity|]);
      split; try congruence; intros resp' [= <-] Hn'; congruence.
Qed.

(** What a load leaves behind, whatever came back: the outcome is a
    state, no longer loading, holding the paging fields of the response
    when there was one. *)
Lemma loadPosts_outcome (st : Feed.state) shown w log :
  (Feed.isLoading st || negb (truthy (Feed.hasNext st)))%bool = false ->
  Feed.postsList st = Some shown ->
  exists r st',
    attempt (PostApi.getPosts
               {| PostApi.cursor := Feed.nextCursor st;
                  PostApi.sort := VUndef;
                  PostApi.limit := VNum (Fin Feed.PAGE_SIZE) |}) w log
    = (inr r, log ++ [Spec.feed_request (Feed.nextCursor st)])
    /\ Feed.loadPosts st w log
       = (inr st', log ++ [Spec.feed_request (Feed.nextCursor st)])
    /\ Feed.isLoading st' = false
    /\ match r with
       | inl _ =>
           Feed.nextCursor st' = Feed.nextCursor st
           /\ Feed.hasNext st' = Feed.hasNext st
           /\ Feed.isInitialLoad st' = Feed.isInitialLoad st
           /\ Feed.postsList st'
              = Some (if Feed.isInitialLoad st then [PostCard.ErrorMessage]
                      else shown)
       | inr result =>
           Feed.nextCursor st'
           = coalesce (opt_prop result "nextCursor") VNull
           /\ Feed.hasNext st'
              = coalesce (opt_prop result "hasNext") (VBool false)
       end.
Proof.
  intros Hguard Hlist.
  destruct (attempt_getPosts
              {| PostApi.cursor := Feed.nextCursor st;
                 PostApi.sort := VUndef;
                 PostApi.limit := VNum (Fin Feed.PAGE_SIZE) |} w log)
    as (r & Hr & _).
  exists r. unfold Feed.loadPosts. rewrite Hguard, Hlist.
  erewrite bind_returns by exact Hr.
  fold (Spec.feed_request (Feed.nextCursor st)) in Hr |- *.
  destruct r as [e|result].
  - eexists. split; [exact Hr|]. split; [reflexivity|].
    cbn. destruct (Feed.isInitialLoad st); repeat split; reflexivity.
  - destruct (Feed.isInitialLoad st
              && strict_eq
                   (get_prop (coalesce (opt_prop result "posts") (VArr []))
                      "length") (VNum (Fin 0)))%bool.
    { eexists. split; [exact Hr|]. split; [reflexivity|].
      cbn. repeat split; reflexivity. }
    destruct (coalesce (opt_prop result "posts") (VArr []));
      try (eexists; split; [exact Hr|]; split; [reflexivity|];
           cbn; repeat split; reflexivity).
    destruct (PostCard.appendCards xs
                (if Feed.isInitialLoad st then [] else shown))
      as [children' [error|]];
      eexists; (split; [exact Hr|]); (split; [reflexivity|]);
      cbn; repeat split; reflexivity.
Qed.

Lemma loadPosts_idle (st : Feed.state) w log :
  (Feed.isLoading st || negb (truthy (Feed.hasNext st)))%bool = true ->
  Feed.loadPosts st w log = (inr st, log).
Proof. intros Hguard. unfold Feed.loadPosts. rewrite Hguard. reflexivity. Qed.

Lemma again_idle {S} (load : S -> api S) (st : S) :
  (forall w log, load st w log = (inr st, log)) ->
  forall n w log, Spec.again load n st w log = (inr st, log).
Proof.
  intros Hidle n. induction n as [|n IH]; intros w log; [reflexivity|].
  simpl. erewrite bind_returns by apply Hidle. apply IH.
Qed.

Lemma loadMyPosts_outcome (st : MyPosts.state) shown w log :
  (MyPosts.myPostsIsLoading st
   || negb (truthy (MyPosts.myPostsHasNext st)))%bool = false ->
  MyPosts.postsList st = Some shown ->
  exists r st',
    attempt (PostApi.getMyPosts
               {| PostApi.cursor := MyPosts.myPostsNextCursor st;
                  PostApi.sort := VUndef;
                  PostApi.limit := VNum (Fin MyPosts.MY_POSTS_PAGE_SIZE) |})
      w log
    = (inr r, log ++ [Spec.my_posts_request (MyPosts.myPostsNextCursor st)])
    /\ MyPosts.loadMyPosts st w log
       = (inr st', log ++ [Spec.my_posts_request (MyPosts.myPostsNextCursor st)])
    /\ MyPosts.myPostsIsLoading st' = false
    /\ match r with
       | inl _ =>
           MyPosts.myPostsNextCursor st' = MyPosts.myPostsNextCursor st
           /\ MyPosts.myPostsHasNext st' = MyPosts.myPostsHasNext st
           /\ MyPosts.myPostsIsInitialLoad st' = MyPosts.myPostsIsInitialLoad st
           /\ MyPosts.postsList st'
              = Some (if MyPosts.myPostsIsInitialLoad st then [] else shown)
           /\ (MyPosts.myPostsIsInitialLoad st = false ->
               MyPosts.emptyStateHidden st' = MyPosts.emptyStateHidden st
               /\ MyPosts.postsCount st' = MyPosts.postsCount st)
       | inr result =>
           MyPosts.myPostsNextCursor st'
           = coalesce (opt_prop result "nextCursor") VNull
           /\ MyPosts.myPostsHasNext st'
              = coalesce (opt_prop result "hasNext") (VBool false)
       end.
Proof.
  intros Hguard Hlist.
  destruct (attempt_getMyPosts
              {| PostApi.cursor := MyPosts.myPostsNextCursor st;
                 PostApi.sort := VUndef;
                 PostApi.limit := VNum (Fin MyPosts.MY_POSTS_PAGE_SIZE) |} w log)
    as (r & Hr & _).
  exists r. unfold MyPosts.loadMyPosts. rewrite Hguard, Hlist.
  erewrite bind_returns by exact Hr.
  fold (Spec.my_posts_request (MyPosts.myPostsNextCursor st)) in Hr |- *.
  destruct r as [e|result].
  - eexists. split; [exact Hr|]. split; [reflexivity|].
    destruct (MyPosts.myPostsIsInitialLoad st); cbn;
      repeat split; try reflexivity; discriminate.
  - destruct (MyPosts.myPostsIsInitialLoad st
              && strict_eq
                   (get_prop (coalesce (opt_prop result "posts") (VArr []))
                      "length") (VNum (Fin 0)))%bool.
    { eexists. split; [exact Hr|]. split; [reflexivity|].
      cbn. repeat split; reflexivity. }
    destruct (coalesce (opt_prop result "posts") (VArr []));
      try (eexists; split; [exact Hr|]; split; [reflexivity|];
           destruct (MyPosts.myPostsIsInitialLoad st);
           cbn; repeat split; reflexivity).
    destruct (PostCard.appendCards xs
                (if MyPosts.myPostsIsInitialLoad st then [] else shown))
      as [children' [error|]];
      eexists; (split; [exact Hr|]); (split; [reflexivity|]);
      destruct (MyPosts.myPostsIsInitialLoad st);
      cbn; repeat split; reflexivity.
Qed.

Lemma loadMyPosts_idle (st : MyPosts.state) w log :
  (MyPosts.myPostsIsLoading st
   || negb (truthy (MyPosts.myPostsHasNext st)))%bool = true ->
  MyPosts.loadMyPosts st w log = (inr st, log).
Proof.
  intros Hguard. unfold MyPosts.loadMyPosts. rewrite Hguard. reflexivity.
Qed.

(** The paging flag of a response read through [?.] and [??]. *)
Lemma last_page_flag resp d :
  truthy (get_prop (get_prop resp "data") "hasNext") = false ->
  truthy (coalesce (opt_prop (coalesce (get_prop resp "data") d) "hasNext")
            (VBool false)) = false
  \/ nullish (get_prop resp "data") = true.
Proof.
  intros Hlast. destruct (nullish (get_prop resp "data")) eqn:Hn;
    [right; reflexivity|left].
  unfold coalesce at 2. rewrite Hn. unfold opt_prop. rewrite Hn.
  unfold coalesce.
  destruct (nullish (get_prop (get_prop resp "data") "hasNext")) eqn:Hh;
    [reflexivity | exact Hlast].
Qed.

End Loaders.

(** X1.  A trigger of the feed or of the profile post list never throws:
    whatever the backend does, the outcome is a state, the loading flag
    is back to what it was, and at most one request was sent, the list
    request for the stored cursor. *)
Theorem list_loads_never_throw `{Coercions} :
  (forall (st : Feed.state) w log,
      exists st',
        fst (Feed.loadPosts st w log) = inr st'
        /\ Feed.isLoading st' = Feed.isLoading st
        /\ (snd (Feed.loadPosts st w log) = log
            \/ snd (Feed.loadPosts st w log)
               = log ++ [Spec.feed_request (Feed.nextCursor st)]))
  /\ (forall (st : MyPosts.state) w log,
      exists st',
        fst (MyPosts.loadMyPosts st w log) = inr st'
        /\ MyPosts.myPostsIsLoading st' = MyPosts.myPostsIsLoading st
        /\ (snd (MyPosts.loadMyPosts st w log) = log
            \/ snd (MyPosts.loadMyPosts st w log)
               = log ++ [Spec.my_posts_request (MyPosts.myPostsNextCursor st)])).
Proof.
  split.
  - intros st w log.
    destruct (Feed.isLoading st || negb (truthy (Feed.hasNext st)))%bool
      eqn:Hguard.
    { exists st. rewrite (loadPosts_idle st w log Hguard). auto. }
    destruct (Feed.postsList st) as [shown|] eqn:Hlist.
    + destruct (loadPosts_outcome st shown w log Hguard Hlist)
        as (r & st' & _ & Hload & Hidle & _).
      exists st'. rewrite Hload. cbn [fst snd].
      apply orb_false_iff in Hguard as [Hl _]. rewrite Hl. auto.
    + exists st. unfold Feed.loadPosts. rewrite Hguard, Hlist. auto.
  - intros st w log.
    destruct (MyPosts.myPostsIsLoading st
              || negb (truthy (MyPosts.myPostsHasNext st)))%bool eqn:Hguard.
    { exists st. rewrite (loadMyPosts_idle st w log Hguard). auto. }
    destruct (MyPosts.postsList st) as [shown|] eqn:Hlist.
    + destruct (loadMyPosts_outcome st shown w log Hguard Hlist)
        as (r & st' & _ & Hload & Hidle & _).
      exists st'. rewrite Hload. cbn [fst snd].
      apply orb_false_iff in Hguard as [Hl _]. rewrite Hl. auto.
    + exists st. unfold MyPosts.loadMyPosts. rewrite Hguard, Hlist. auto.
Qed.

(** X2.  When the request for a later page fails, the feed and the
    profile post list are left exactly as they were: the cards shown, the
    cursor and the paging flag are kept, so the next trigger repeats the
    same request. *)
Theorem failed_page_keeps_list `{Coercions} :
  (forall (st : Feed.state) shown w log e,
      Spec.feed_ready st = true ->
      Feed.isInitialLoad st = false ->
      Feed.postsList st = Some shown ->
      w log (Spec.feed_request (Feed.nextCursor st)) = inl e ->
      Feed.loadPosts st w log
      = (inr st, log ++ [Spec.feed_request (Feed.nextCursor st)]))
  /\ (forall (st : MyPosts.state) shown w log e,
      Spec.my_posts_ready st = true ->
      MyPosts.myPostsIsInitialLoad st = false ->
      MyPosts.postsList st = Some shown ->
      w log (Spec.my_posts_request (MyPosts.myPostsNextCursor st)) = inl e ->
      MyPosts.loadMyPosts st w log
      = (inr st, log ++ [Spec.my_posts_request (MyPosts.myPostsNextCursor st)])).
Proof.
  split.
  - intros st shown w log e Hready Hlater Hlist Hfail.
    unfold Spec.feed_ready in Hready.
    apply andb_prop in Hready as [Hidle Hnext].
    apply negb_true_iff in Hidle.
    assert (Hguard : (Feed.isLoading st
                      || negb (truthy (Feed.hasNext st)))%bool = false)
      by (rewrite Hidle, Hnext; reflexivity).
    destruct (attempt_getPosts
                {| PostApi.cursor := Feed.nextCursor st;
                   PostApi.sort := VUndef;
                   PostApi.limit := VNum (Fin Feed.PAGE_SIZE) |} w log)
      as (r & Hr & Hthrown & _).
    specialize (Hthrown e Hfail). subst r.
    unfold Feed.loadPosts. rewrite Hguard, Hlist.
    erewrite bind_returns by exact Hr.
    rewrite Hlater. unfold ret. f_equal. f_equal.
    destruct st; simpl in *; subst; reflexivity.
  - intros st shown w log e Hready Hlater Hlist Hfail.
    unfold Spec.my_posts_ready in Hready.
    apply andb_prop in Hready as [Hidle Hnext].
    apply negb_true_iff in Hidle.
    assert (Hguard : (MyPosts.myPostsIsLoading st
                      || negb (truthy (MyPosts.myPostsHasNext st)))%bool
                     = false)
      by (rewrite Hidle, Hnext; reflexivity).
    destruct (attempt_getMyPosts
                {| PostApi.cursor := MyPosts.myPostsNextCursor st;
                   PostApi.sort := VUndef;
                   PostApi.limit := VNum (Fin MyPosts.MY_POSTS_PAGE_SIZE) |}
                w log)
      as (r & Hr & Hthrown & _).
    specialize (Hthrown e Hfail). subst r.
    unfold MyPosts.loadMyPosts. rewrite Hguard, Hlist.
    erewrite bind_returns by exact Hr.
    rewrite Hlater. unfold ret. f_equal. f_equal.
    destruct st; simpl in *; subst; reflexivity.
Qed.

Lemma failed_page_keeps_list_witness :
  Feed.loadPosts (H := decimal_coercions) Spec.feed_on_second_page
    Spec.not_found []
  = (inr Spec.feed_on_second_page,
     [] ++ [Spec.feed_request (H := decimal_coercions) (VStr (js "abc"))])
  /\ MyPosts.loadMyPosts (H := decimal_coercions) Spec.my_posts_on_second_page
       Spec.not_found []
     = (inr Spec.my_posts_on_second_page,
        [] ++ [Spec.my_posts_request (H := decimal_coercions) (VStr (js "abc"))]).
Proof.
  destruct (@failed_page_keeps_list decimal_coercions) as [Hfeed Hmine].
  split.
  - apply (Hfeed Spec.feed_on_second_page
             [PostCard.Card (VNum (Fin 1)) Spec.post1] Spec.not_found []
             (HttpError 404 "Not Found")); reflexivity.
  - apply (Hmine Spec.my_posts_on_second_page
             [PostCard.Card (VNum (Fin 1)) Spec.post1] Spec.not_found []
             (HttpError 404 "Not Found")); reflexivity.
Defined.

(** X3.  Once a list response says that no page follows ([hasNext] false
    or absent, or no [data] at all), the feed and the profile post list
    stop: the load that received it ends in a state from which any number
    of further triggers sends nothing and changes nothing. *)
Theorem loads_stop_after_last_page `{Coercions} :
  (forall (st : Feed.state) shown w log resp,
      Spec.feed_ready st = true ->
      Feed.postsList st = Some shown ->
      w log (Spec.feed_request (Feed.nextCursor st)) = inr resp ->
      nullish resp = false ->
      truthy (get_prop (get_prop resp "data") "hasNext") = false ->
      exists st',
        Feed.loadPosts st w log
        = (inr st', log ++ [Spec.feed_request (Feed.nextCursor st)])
        /\ forall n w' log',
             Spec.again Feed.loadPosts n st' w' log' = (inr st', log'))
  /\ (forall (st : MyPosts.state) shown w log resp,
      Spec.my_posts_ready st = true ->
      MyPosts.postsList st = Some shown ->
      w log (Spec.my_posts_request (MyPosts.myPostsNextCursor st)) = inr resp ->
      nullish resp = false ->
      truthy (get_prop (get_prop resp "data") "hasNext") = false ->
      exists st',
        MyPosts.loadMyPosts st w log
        = (inr st', log ++ [Spec.my_posts_request (MyPosts.myPostsNextCursor st)])
        /\ forall n w' log',
             Spec.again MyPosts.loadMyPosts n st' w' log' = (inr st', log')).
Proof.
  split.
  - intros st shown w log resp Hready Hlist Hresp Hobj Hlast.
    unfold Spec.feed_ready in Hready.
    apply andb_prop in Hready as [Hidle Hnext].
    apply negb_true_iff in Hidle.
    assert (Hguard : (Feed.isLoading st
                      || negb (truthy (Feed.hasNext st)))%bool = false)
      by (rewrite Hidle, Hnext; reflexivity).
    destruct (loadPosts_outcome st shown w log Hguard Hlist)
      as (r & st' & Hr & Hload & _ & Hfields).
    destruct (attempt_getPosts
                {| PostApi.cursor := Feed.nextCursor st;
                   PostApi.sort := VUndef;
                   PostApi.limit := VNum (Fin Feed.PAGE_SIZE) |} w log)
      as (r' & Hr' & _ & Hreturned).
    fold (Spec.feed_request (Feed.nextCursor st)) in Hr', Hreturned.
    rewrite Hr in Hr'. injection Hr' as <-.
    rewrite (Hreturned resp Hresp Hobj) in Hfields.
    destruct Hfields as [_ Hflag].
    exists st'. split; [exact Hload|].
    apply again_idle. intros w' log'. apply loadPosts_idle.
    rewrite Hflag.
    destruct (last_page_flag resp VNull Hlast) as [-> | Hnodata].
    + apply orb_true_r.
    + unfold coalesce at 2. rewrite Hnodata. apply orb_true_r.
  - intros st shown w log resp Hready Hlist Hresp Hobj Hlast.
    unfold Spec.my_posts_ready in Hready.
    apply andb_prop in Hready as [Hidle Hnext].
    apply negb_true_iff in Hidle.
    assert (Hguard : (MyPosts.myPostsIsLoading st
                      || negb (truthy (MyPosts.myPostsHasNext st)))%bool
                     = false)
      by (rewrite Hidle, Hnext; reflexivity).
    destruct (loadMyPosts_outcome st shown w log Hguard Hlist)
      as (r & st' & Hr & Hload & _ & Hfields).
    destruct (attempt_getMyPosts
                {| PostApi.cursor := MyPosts.myPostsNextCursor st;
                   PostApi.sort := VUndef;
                   PostApi.limit := VNum (Fin MyPosts.MY_POSTS_PAGE_SIZE) |}
                w log)
      as (r' & Hr' & _ & Hreturned).
    fold (Spec.my_posts_request (MyPosts.myPostsNextCursor st)) in Hr', Hreturned.
    rewrite Hr in Hr'. injection Hr' as <-.
    rewrite (Hreturned resp Hresp Hobj) in Hfields.
    destruct Hfields as [_ Hflag].
    exists st'. split; [exact Hload|].
    apply again_idle. intros w' log'. apply loadMyPosts_idle.
    rewrite Hflag.
    destruct (last_page_flag resp
                (VObj [("posts", VArr []); ("count", VNum (Fin 0));
                       ("nextCursor", VNull)]) Hlast) as [-> | Hnodata].
    + apply orb_true_r.
    + unfold coalesce at 2. rewrite Hnodata. apply orb_true_r.
Qed.

Lemma loads_stop_after_last_page_witness :
  (exists st',
      Feed.loadPosts (H := decimal_coercions) Spec.feed_on_second_page
        Spec.last_page_backend []
      = (inr st',
         [] ++ [Spec.feed_request (H := decimal_coercions) (VStr (js "abc"))])
      /\ forall n w' log',
           Spec.again (Feed.loadPosts (H := decimal_coercions)) n st' w' log'
           = (inr st', log'))
  /\ (exists st',
      MyPosts.loadMyPosts (H := decimal_coercions) Spec.my_posts_on_second_page
        Spec.last_page_backend []
      = (inr st',
         [] ++ [Spec.my_posts_request (H := decimal_coercions) (VStr (js "abc"))])
      /\ forall n w' log',
           Spec.again (MyPosts.loadMyPosts (H := decimal_coercions)) n st' w' log'
           = (inr st', log')).
Proof.
  destruct (@loads_stop_after_last_page decimal_coercions) as [Hfeed Hmine].
  split.
  - eapply (Hfeed Spec.feed_on_second_page); reflexivity.
  - eapply (Hmine Spec.my_posts_on_second_page); reflexivity.
Defined.

(** *** What the post client puts in a request *)

Section PostBodies.
Context `{Coercions}.

Lemma normalized_ids v w log :
  Spec.ids_shape_ok v = true ->
  exists ns,
    PostApi.normalizeImageIds v (VArr []) w log
    = (inr (VArr (List.map VNum ns)), log)
    /\ Forall (fun n => n <> NaN) ns.
Proof.
  destruct v; simpl; try discriminate; intros _;
    unfold PostApi.normalizeImageIds; simpl;
    try (exists []; split; [reflexivity | constructor]).
  eexists. split; [reflexivity|].
  apply List.Forall_forall. intros n Hn.
  apply List.filter_In in Hn as [_ Hn].
  destruct n; simpl in Hn; congruence.
Qed.

Lemma includes_number ns v :
  PostApi.array_includes (VArr (List.map VNum ns)) v = true ->
  exists n, In n ns /\ same_value_zero (VNum n) v = true.
Proof.
  unfold PostApi.array_includes. intros Hin.
  apply List.existsb_exists in Hin as (x & Hx & Hsame).
  apply List.in_map_iff in Hx as (n & <- & Hn). eauto.
Qed.

End PostBodies.

(** X4.  The image ids that [createPost] sends are numbers, none of them
    NaN, and [primaryImageId] is part of the body only when it equals one
    of the ids sent; otherwise the key is left out. *)
Theorem createPost_sends_clean_image_ids `{Coercions}
        (a : PostApi.CreatePostArgs) w log :
  Spec.within 2 26 (PostApi.title a) = true ->
  Spec.within 2 10000 (PostApi.content a) = true ->
  Spec.ids_shape_ok (PostApi.imageIds a) = true ->
  exists r ns,
    snd (PostApi.createPost a w log) = log ++ [r]
    /\ body_field r "imageIds" = VArr (List.map VNum ns)
    /\ Forall (fun n => n <> NaN) ns
    /\ (body_field r "primaryImageId" = VUndef
        \/ (body_field r "primaryImageId" = PostApi.primaryImageId a
            /\ exists n, In n ns
                         /\ same_value_zero (VNum n) (PostApi.primaryImageId a)
                            = true)).
Proof.
  intros Hwt Hwc Hids.
  destruct (within_is_string _ _ _ Hwt) as [t Ht].
  destruct (within_is_string _ _ _ Hwc) as [c Hc].
  destruct (normalized_ids _ w log Hids) as (ns & Hn & Hclean).
  unfold PostApi.createPost, bind at 1.
  rewrite (validateTitle_accepts _ w log Hwt).
  unfold bind at 1.
  rewrite (validateContent_accepts _ w log Hwc).
  unfold bind at 1.
  rewrite Hn, Ht, Hc.
  destruct (negb (strict_eq (PostApi.primaryImageId a) VUndef)
            && PostApi.array_includes (VArr (List.map VNum ns))
                 (PostApi.primaryImageId a))%bool eqn:Hprimary.
  - apply andb_prop in Hprimary as [_ Hin].
    apply includes_number in Hin.
    run_api. eexists; exists ns. split.
    + destruct (w log _) as [e|resp]; [reflexivity|].
      destruct (nullish resp); reflexivity.
    + repeat split; try assumption. right. split; [reflexivity | exact Hin].
  - run_api. eexists; exists ns. split.
    + destruct (w log _) as [e|resp]; [reflexivity|].
      destruct (nullish resp); reflexivity.
    + repeat split; try assumption. left. reflexivity.
Qed.

Lemma createPost_sends_clean_image_ids_witness :
  exists r ns,
    snd (PostApi.createPost (H := decimal_coercions)
           {| PostApi.title := VStr (js "my day");
              PostApi.content := VStr (js "hello world");
              PostApi.imageIds :=
                VArr [VNum (Fin 3); VStr (js "x"); VStr (js "12")];
              PostApi.primaryImageId := VNum (Fin 12) |}
           Spec.empty_envelope [])
    = [] ++ [r]
    /\ body_field r "imageIds" = VArr (List.map VNum ns)
    /\ Forall (fun n => n <> NaN) ns
    /\ (body_field r "primaryImageId" = VUndef
        \/ (body_field r "primaryImageId" = VNum (Fin 12)
            /\ exists n, In n ns
                         /\ same_value_zero (VNum n) (VNum (Fin 12)) = true)).
Proof.
  apply (@createPost_sends_clean_image_ids decimal_coercions
           {| PostApi.title := VStr (js "my day");
              PostApi.content := VStr (js "hello world");
              PostApi.imageIds :=
                VArr [VNum (Fin 3); VStr (js "x"); VStr (js "12")];
              PostApi.primaryImageId := VNum (Fin 12) |}
           Spec.empty_envelope []); reflexivity.
Defined.

Section Rejections.
Context `{Coercions}.

Lemma normalizeImageIds_rejects v d w log :
  Spec.ids_shape_ok v = false ->
  exists msg, PostApi.normalizeImageIds v d w log = (inl (Error msg), log).
Proof.
  destruct v; simpl; try discriminate; intros _;
    unfold PostApi.normalizeImageIds; simpl; eexists; reflexivity.
Qed.

Lemma createPost_rejects_ids (a : PostApi.CreatePostArgs) w log :
  Spec.ids_shape_ok (PostApi.imageIds a) = false ->
  exists msg, PostApi.createPost a w log = (inl (Error msg), log).
Proof.
  intros Hids.
  destruct (Spec.within 2 26 (PostApi.title a)
            && Spec.within 2 10000 (PostApi.content a))%bool eqn:Hvalid;
    [|apply createPost_rejects, Hvalid].
  apply andb_prop in Hvalid as [Hwt Hwc].
  destruct (normalizeImageIds_rejects _ (VArr []) w log Hids) as [msg Hmsg].
  exists msg. unfold PostApi.createPost, bind at 1.
  rewrite (validateTitle_accepts _ w log Hwt).
  unfold bind at 1.
  rewrite (validateContent_accepts _ w log Hwc).
  apply bind_throws, Hmsg.
Qed.

Lemma updatePost_rejects_nothing postId (a : PostApi.UpdatePostArgs) w log :
  (Spec.supplied (PostApi.u_title a) || Spec.supplied (PostApi.u_content a)
   || Spec.supplied (PostApi.u_imageIds a))%bool = false ->
  exists msg, PostApi.updatePost postId a w log = (inl (Error msg), log).
Proof.
  unfold Spec.supplied. intros Hnone.
  apply orb_false_iff in Hnone as [Hnone Hi].
  apply orb_false_iff in Hnone as [Ht Hc].
  unfold PostApi.updatePost.
  destruct (PostApi.missing_id postId); [eexists; reflexivity|].
  rewrite Ht, Hc, Hi. eexists. reflexivity.
Qed.

End Rejections.

(** X5.  Arguments that cannot name or change anything never reach the
    backend: a missing id (undefined, null or the empty string) makes
    [getPost], [updatePost], [deletePost], [getImage] and [deleteImage]
    throw an [Error] with nothing sent; so does an [updatePost] that
    supplies no field, a [createPost] whose [imageIds] is neither an
    array nor absent, and a [saveImageMetadata] without a stored file
    name. *)
Theorem malformed_arguments_send_nothing `{Coercions} :
  (forall id w log,
      PostApi.missing_id id = true ->
      (exists msg, PostApi.getPost id w log = (inl (Error msg), log))
      /\ (forall a, exists msg,
             PostApi.updatePost id a w log = (inl (Error msg), log))
      /\ (exists msg, PostApi.deletePost id w log = (inl (Error msg), log)))
  /\ (forall id w log,
      ImageApi.missing_id id = true ->
      (exists msg, ImageApi.getImage id w log = (inl (Error msg), log))
      /\ (exists msg, ImageApi.deleteImage id w log = (inl (Error msg), log)))
  /\ (forall id (a : PostApi.UpdatePostArgs) w log,
      (Spec.supplied (PostApi.u_title a) || Spec.supplied (PostApi.u_content a)
       || Spec.supplied (PostApi.u_imageIds a))%bool = false ->
      exists msg, PostApi.updatePost id a w log = (inl (Error msg), log))
  /\ (forall (a : PostApi.CreatePostArgs) w log,
      Spec.ids_shape_ok (PostApi.imageIds a) = false ->
      exists msg, PostApi.createPost a w log = (inl (Error msg), log))
  /\ (forall metadata options w log,
      truthy (get_prop metadata "storedFilename") = false ->
      exists msg,
        ImageApi.saveImageMetadata metadata options w log
        = (inl (Error msg), log)).
Proof.
  split; [|split; [|split; [|split]]].
  - intros id w log Hid. repeat split.
    + unfold PostApi.getPost. rewrite Hid. eexists. reflexivity.
    + intros a. unfold PostApi.updatePost. rewrite Hid. eexists. reflexivity.
    + unfold PostApi.deletePost. rewrite Hid. eexists. reflexivity.
  - intros id w log Hid. split.
    + unfold ImageApi.getImage. rewrite Hid. eexists. reflexivity.
    + unfold ImageApi.deleteImage. rewrite Hid. eexists. reflexivity.
  - intros id a w log. apply updatePost_rejects_nothing.
  - intros a w log. apply createPost_rejects_ids.
  - intros metadata options w log Hname.
    unfold ImageApi.saveImageMetadata. rewrite Hname, orb_true_r.
    eexists. reflexivity.
Qed.

Lemma malformed_arguments_send_nothing_witness :
  (exists msg,
      PostApi.getPost (VStr []) Spec.empty_envelope [] = (inl (Error msg), []))
  /\ (exists msg,
      ImageApi.deleteImage VNull Spec.empty_envelope [] = (inl (Error msg), []))
  /\ (exists msg,
      PostApi.updatePost (H := decimal_coercions) (VNum (Fin 7))
        {| PostApi.u_title := VUndef; PostApi.u_content := VUndef;
           PostApi.u_imageIds := VUndef |} Spec.empty_envelope []
      = (inl (Error msg), []))
  /\ (exists msg,
      PostApi.createPost (H := decimal_coercions)
        {| PostApi.title := VStr (js "my day");
           PostApi.content := VStr (js "hello world");
           PostApi.imageIds := VStr (js "12");
           PostApi.primaryImageId := VUndef |} Spec.empty_envelope []
      = (inl (Error msg), []))
  /\ (exists msg,
      ImageApi.saveImageMetadata (VObj [("originalFilename", VStr (js "a.png"))])
        VUndef Spec.empty_envelope []
      = (inl (Error msg), [])).
Proof.
  destruct (@malformed_arguments_send_nothing decimal_coercions)
    as (Hpost & Himage & Hnothing & Hids & Hmeta).
  split; [apply (Hpost (VStr []) Spec.empty_envelope [] eq_refl)|].
  split; [apply (Himage VNull Spec.empty_envelope [] eq_refl)|].
  split; [apply Hnothing; reflexivity|].
  split; [apply Hids; reflexivity | apply Hmeta; reflexivity].
Defined.

(** X6.  Whatever the caller passes, the list calls send [sort] as asc
    or desc, asc only when asked for exactly that string, and send a
    [cursor] only when it is not undefined, null or the empty string;
    the feed and the profile list, which pass no [sort], ask for desc. *)
Theorem list_query_sort_and_cursor `{Coercions} (a : PostApi.ListArgs) w log :
  (exists r,
      snd (PostApi.getPosts a w log) = log ++ [r]
      /\ query_param r "sort"
         = VStr (js (if strict_eq (PostApi.sort a) (VStr (js "asc"))
                     then "asc" else "desc"))
      /\ query_param r "cursor"
         = (if Spec.usable_cursor (PostApi.cursor a) then PostApi.cursor a
            else VUndef))
  /\ (exists r,
      snd (PostApi.getMyPosts a w log) = log ++ [r]
      /\ query_param r "sort"
         = VStr (js (if strict_eq (PostApi.sort a) (VStr (js "asc"))
                     then "asc" else "desc"))
      /\ query_param r "cursor"
         = (if Spec.usable_cursor (PostApi.cursor a) then PostApi.cursor a
            else VUndef))
  /\ (forall c,
      query_param (Spec.feed_request c) "sort" = VStr (js "desc")
      /\ query_param (Spec.my_posts_request c) "sort" = VStr (js "desc")).
Proof.
  assert (Hsort : forall dflt,
             get_prop (PostApi.list_query a dflt) "sort"
             = VStr (js (if strict_eq (PostApi.sort a) (VStr (js "asc"))
                         then "asc" else "desc"))).
  { intros dflt. unfold PostApi.list_query, PostApi.safeSort.
    cbn [get_prop lookup_field app String.eqb Ascii.eqb Bool.eqb].
    destruct (PostApi.sort a); cbn [default_param]; try reflexivity;
      match goal with
      | |- context [strict_eq ?x ?y] => destruct (strict_eq x y)
      end; reflexivity. }
  assert (Hcursor : forall dflt,
             get_prop (PostApi.list_query a dflt) "cursor"
             = (if Spec.usable_cursor (PostApi.cursor a) then PostApi.cursor a
                else VUndef)).
  { intros dflt. unfold PostApi.list_query, Spec.usable_cursor.
    destruct (negb (strict_eq (PostApi.cursor a) VUndef)
              && negb (strict_eq (PostApi.cursor a) VNull)
              && negb (strict_eq (PostApi.cursor a) (VStr [])))%bool;
      reflexivity. }
  split; [|split].
  - eexists. split; [apply getPosts_log|].
    unfold query_param. cbn [req_options get_prop lookup_field String.eqb
                             Ascii.eqb Bool.eqb].
    split; [apply Hsort | apply Hcursor].
  - eexists. split; [apply getMyPosts_log|].
    unfold query_param. cbn [req_options get_prop lookup_field String.eqb
                             Ascii.eqb Bool.eqb].
    split; [apply Hsort | apply Hcursor].
  - intros c. split; reflexivity.
Qed.

(** *** Trimming *)

Section Trim.

Lemma trimStart_head (s : jsstring) :
  trimStart s = []
  \/ exists c rest, trimStart s = c :: rest /\ is_white_space c = false.
Proof.
  induction s as [|c s IH]; [left; reflexivity|].
  cbn [trimStart]. destruct (is_white_space c) eqn:Hc; [exact IH|].
  right. eauto.
Qed.

Lemma trimStart_fixed c (rest : jsstring) :
  is_white_space c = false -> trimStart (c :: rest) = c :: rest.
Proof. intros Hc. cbn [trimStart]. rewrite Hc. reflexivity. Qed.

Lemma trimStart_idempotent (s : jsstring) :
  trimStart (trimStart s) = trimStart s.
Proof.
  destruct (trimStart_head s) as [-> | (c & rest & -> & Hc)];
    [reflexivity | apply trimStart_fixed, Hc].
Qed.

Lemma trimStart_keeps_last (s : jsstring) c :
  is_white_space c = false ->
  exists kept, trimStart (s ++ [c]) = kept ++ [c].
Proof.
  intros Hc. induction s as [|a s IH].
  - exists []. apply trimStart_fixed, Hc.
  - cbn [app trimStart]. destruct (is_white_space a); [exact IH|].
    exists (a :: s). reflexivity.
Qed.

Lemma trimEnd_keeps_head c (rest : jsstring) :
  is_white_space c = false ->
  exists kept, trimEnd (c :: rest) = c :: kept.
Proof.
  intros Hc. unfold trimEnd. cbn [List.rev].
  destruct (trimStart_keeps_last (List.rev rest) c Hc) as [kept ->].
  exists (List.rev kept). rewrite List.rev_app_distr. reflexivity.
Qed.

Lemma trimEnd_idempotent (s : jsstring) : trimEnd (trimEnd s) = trimEnd s.
Proof.
  unfold trimEnd. rewrite List.rev_involutive, trimStart_idempotent.
  reflexivity.
Qed.

Lemma trim_idempotent (s : jsstring) : trim (trim s) = trim s.
Proof.
  unfold trim.
  destruct (trimStart_head s) as [-> | (c & rest & -> & Hc)]; [reflexivity|].
  destruct (trimEnd_keeps_head c rest Hc) as [kept Hkept].
  rewrite Hkept, (trimStart_fixed c kept Hc), <- Hkept.
  apply trimEnd_idempotent.
Qed.

Lemma length_trimStart (s : jsstring) :
  (List.length (trimStart s) <= List.length s)%nat.
Proof.
  induction s as [|c s IH]; [reflexivity|].
  cbn [trimStart]. destruct (is_white_space c); simpl; lia.
Qed.

Lemma length_trim (s : jsstring) :
  (List.length (trim s) <= List.length s)%nat.
Proof.
  unfold trim, trimEnd. rewrite List.length_rev.
  etransitivity; [apply length_trimStart|].
  rewrite List.length_rev. apply length_trimStart.
Qed.

End Trim.

(** *** Submitting the write page *)

Section SubmitChecks.
Context `{Coercions}.




End SubmitChecks.



(** X8.  [handleSubmit] never throws, and it removes the draft only
    together with the navigation to the created post: in every other
    outcome (invalid input, expired images, a failed request, an answer
    without a post id) the local storage, the location and the two inputs
    are as before. *)
Theorem submit_keeps_draft_unless_created `{Coercions}
        now (pg : WritePage.page) w log :
  exists pg',
    fst (WritePage.handleSubmit now pg w log) = inr pg'
    /\ ((WritePage.localStorage pg' = WritePage.localStorage pg
         /\ WritePage.location pg' = WritePage.location pg
         /\ WritePage.titleValue pg' = WritePage.titleValue pg
         /\ WritePage.contentValue pg' = WritePage.contentValue pg)
        \/ (exists result,
               fst (PostApi.createPost (WritePage.buildCreatePostRequest pg)
                      w log) = inr result
               /\ strict_eq (get_prop result "postId") VUndef = false
               /\ WritePage.location pg'
                  = Some [Lit "/post/"; Param (get_prop result "postId")]
               /\ WritePage.localStorage pg'
                  = delete WritePage.DRAFT_STORAGE_KEY (WritePage.localStorage pg)
               /\ WritePage.uploadedImages pg' = [])).
Proof.
  unfold WritePage.handleSubmit.
  destruct (negb (WritePage.validateTitle pg && WritePage.validateContent pg)).
  { exists pg. split; [reflexivity|]. left. auto. }
  destruct (List.existsb (WritePage.expired now) (WritePage.uploadedImages pg)).
  { eexists. split; [reflexivity|]. left. repeat split; reflexivity. }
  unfold bind, attempt.
  destruct (PostApi.createPost (WritePage.buildCreatePostRequest pg) w log)
    as [[error|result] log'].
  { exists pg. split; [reflexivity|]. left. auto. }
  cbn beta iota.
  destruct (negb (truthy result)
            || strict_eq (get_prop result "postId") VUndef)%bool eqn:Hid.
  { exists pg. split; [reflexivity|]. left. auto. }
  apply orb_false_iff in Hid as [_ Hid].
  eexists. split; [reflexivity|]. right. exists result.
  repeat split; try reflexivity. exact Hid.
Qed.

(** *** The draft beyond the round trip *)

(** X9.  Saving when both inputs are empty removes the stored draft, so
    that [loadDraft] answers null, as it does after [clearDraft]; and
    neither [saveDraft] nor [clearDraft] touches any other key of the
    local storage. *)
Theorem draft_emptied_and_isolated :
  (forall now (pg : WritePage.page),
      Spec.has_text pg = false ->
      WritePage.localStorage (WritePage.saveDraft now pg)
        !! WritePage.DRAFT_STORAGE_KEY = None
      /\ WritePage.loadDraft (WritePage.saveDraft now pg)
         = Some (None, WritePage.saveDraft now pg))
  /\ (forall pg : WritePage.page,
      WritePage.loadDraft (WritePage.clearDraft pg)
      = Some (None, WritePage.clearDraft pg))
  /\ (forall now (pg : WritePage.page) k,
      k <> WritePage.DRAFT_STORAGE_KEY ->
      WritePage.localStorage (WritePage.saveDraft now pg) !! k
      = WritePage.localStorage pg !! k
      /\ WritePage.localStorage (WritePage.clearDraft pg) !! k
         = WritePage.localStorage pg !! k).
Proof.
  split; [|split].
  - intros now pg Htext.
    assert (Hgone : WritePage.localStorage (WritePage.saveDraft now pg)
                      !! WritePage.DRAFT_STORAGE_KEY = None).
    { unfold Spec.has_text in Htext. unfold WritePage.saveDraft.
      apply orb_false_iff in Htext as [-> ->].
      cbn [negb andb WritePage.with_storage WritePage.localStorage].
      apply lookup_delete_eq. }
    split; [exact Hgone|].
    unfold WritePage.loadDraft. rewrite Hgone. reflexivity.
  - intros pg. unfold WritePage.loadDraft.
    replace (WritePage.localStorage (WritePage.clearDraft pg)
               !! WritePage.DRAFT_STORAGE_KEY) with (@None jsstring);
      [reflexivity|].
    symmetry. unfold WritePage.clearDraft.
    cbn [WritePage.with_storage WritePage.localStorage].
    apply lookup_delete_eq.
  - intros now pg k Hk. split.
    + unfold WritePage.saveDraft.
      destruct (negb (truthy (VStr (WritePage.titleValue pg)))
                && negb (truthy (VStr (WritePage.contentValue pg))))%bool;
        cbn [WritePage.with_storage WritePage.localStorage].
      * apply lookup_delete_ne. congruence.
      * apply lookup_insert_ne. congruence.
    + unfold WritePage.clearDraft.
      cbn [WritePage.with_storage WritePage.localStorage].
      apply lookup_delete_ne. congruence.
Qed.

Lemma draft_emptied_and_isolated_witness :
  WritePage.localStorage
    (WritePage.saveDraft Spec.timestamp
       (WritePage.with_storage Spec.blank_page
          (WritePage.localStorage
             (WritePage.saveDraft Spec.timestamp Spec.hello_page)) true))
    !! WritePage.DRAFT_STORAGE_KEY = None
  /\ WritePage.localStorage
       (WritePage.saveDraft Spec.timestamp Spec.hello_page) !! "theme"
     = WritePage.localStorage Spec.hello_page !! "theme".
Proof.
  destruct draft_emptied_and_isolated as (Hempty & _ & Hother).
  split.
  - apply Hempty. reflexivity.
  - apply (Hother Spec.timestamp Spec.hello_page "theme"). discriminate.
Defined.

(** *** Background uploads *)

Lemma filter_other_refs r (imgs : list WritePage.image) :
  ~ In r (List.map WritePage.ref imgs) ->
  List.filter (fun img => negb (Nat.eqb (WritePage.ref img) r)) imgs = imgs.
Proof.
  induction imgs as [|img imgs IH]; [reflexivity|].
  cbn [List.map List.filter]. intros Hnot.
  destruct (Nat.eqb_spec (WritePage.ref img) r) as [Heq|Hne].
  - exfalso. apply Hnot. left. exact Heq.
  - cbn [negb]. f_equal. apply IH. intros Hin. apply Hnot. right. exact Hin.
Qed.

Lemma indexOf_splices_out r (imgs : list WritePage.image) :
  List.NoDup (List.map WritePage.ref imgs) ->
  match WritePage.indexOf r imgs with
  | Some idx => WritePage.splice_remove idx imgs
  | None => imgs
  end
  = List.filter (fun img => negb (Nat.eqb (WritePage.ref img) r)) imgs.
Proof.
  induction imgs as [|img imgs IH]; [reflexivity|].
  cbn [List.map WritePage.indexOf List.filter]. intros Hdistinct.
  apply List.NoDup_cons_iff in Hdistinct as [Hfresh Hdistinct].
  destruct (Nat.eqb_spec (WritePage.ref img) r) as [Heq|Hne].
  - cbn [negb]. subst r. symmetry.
    rewrite filter_other_refs by exact Hfresh. reflexivity.
  - cbn [negb]. specialize (IH Hdistinct).
    destruct (WritePage.indexOf r imgs) as [idx|]; cbn [option_map].
    + unfold WritePage.splice_remove in *. cbn [firstn skipn app].
      f_equal. exact IH.
    + f_equal. exact IH.
Qed.

(** X10.  The failure of one background upload removes the preview of
    that file and nothing else: the other previews stay, in their order,
    and the text, the local storage and the location are untouched. *)
Theorem upload_failure_removes_one_preview r (pg : WritePage.page) :
  List.NoDup (List.map WritePage.ref (WritePage.uploadedImages pg)) ->
  WritePage.uploadedImages (WritePage.uploadFailed r pg)
  = List.filter (fun img => negb (Nat.eqb (WritePage.ref img) r))
      (WritePage.uploadedImages pg)
  /\ WritePage.titleValue (WritePage.uploadFailed r pg) = WritePage.titleValue pg
  /\ WritePage.contentValue (WritePage.uploadFailed r pg)
     = WritePage.contentValue pg
  /\ WritePage.localStorage (WritePage.uploadFailed r pg)
     = WritePage.localStorage pg
  /\ WritePage.location (WritePage.uploadFailed r pg) = WritePage.location pg.
Proof.
  intros Hdistinct.
  pose proof (indexOf_splices_out r _ Hdistinct) as Hout.
  unfold WritePage.uploadFailed.
  destruct (WritePage.indexOf r (WritePage.uploadedImages pg));
    repeat split; try reflexivity; exact Hout.
Qed.

Lemma upload_failure_removes_one_preview_witness :
  WritePage.uploadedImages (WritePage.uploadFailed 2 Spec.three_previews)
  = [Spec.preview 1; Spec.preview 3].
Proof.
  destruct (upload_failure_removes_one_preview 2 Spec.three_previews)
    as [Himages _].
  - repeat constructor; simpl; intuition discriminate.
  - exact Himages.
Defined.

(** *** The image proxy beyond the allow list *)

Lemma starts_with_refl (s : jsstring) : starts_with s s = true.
Proof.
  induction s as [|c s IH]; [reflexivity|].
  cbn [starts_with]. rewrite N.eqb_refl. exact IH.
Qed.

Lemma includes_refl (s : jsstring) : includes s s = true.
Proof. destruct s; cbn [includes]; rewrite starts_with_refl; reflexivity. Qed.

Lemma allow_listed_matches (hostname : jsstring) :
  Spec.allow_listed hostname = true ->
  List.existsb (fun domain => includes hostname domain) Server.allowedDomains
  = true.
Proof.
  unfold Spec.allow_listed. intros Hlisted.
  apply List.existsb_exists in Hlisted as (domain & Hin & Heq).
  apply List.existsb_exists. exists domain. split; [exact Hin|].
  unfold jsstring_eqb in Heq. apply bool_decide_eq_true in Heq. subst domain.
  apply includes_refl.
Qed.

(** X11.  The image proxy fetches at most once, and only the URL it was
    given; a request without [url] is answered 400; a host that is one
    of the allow-listed domains is fetched; image bytes are sent only
    when the upstream answered ok, and they are the upstream's bytes
    under its content type, image/jpeg when it names none; the status of
    an upstream failure is relayed. *)
Theorem image_proxy_relays_upstream `{Server.Platform} (url : jsval) :
  (snd (Server.image_proxy url) = [] \/ snd (Server.image_proxy url) = [url])
  /\ (truthy url = false ->
      Server.image_proxy url
      = (Server.mkReply 400 (Server.error_body "URL parameter is required"), []))
  /\ (forall hostname,
      truthy url = true ->
      Server.URL_hostname url = Some hostname ->
      Spec.allow_listed hostname = true ->
      snd (Server.image_proxy url) = [url])
  /\ (forall ct data,
      Server.sent (fst (Server.image_proxy url)) = Server.Bytes ct data ->
      exists response,
        Server.fetch url = inr response
        /\ Server.ok response = true
        /\ Server.status (fst (Server.image_proxy url)) = 200%Z
        /\ ct = or_else (Server.contentType response) (VStr (js "image/jpeg"))
        /\ data = Server.arrayBuffer response)
  /\ (forall response,
      snd (Server.image_proxy url) = [url] ->
      Server.fetch url = inr response ->
      Server.ok response = false ->
      Server.status (fst (Server.image_proxy url))
      = Server.upstream_status response).
Proof.
  unfold Server.image_proxy.
  destruct (truthy url) eqn:Hurl; cbn [negb].
  2:{ repeat split; try (intros; discriminate); auto. }
  destruct (Server.URL_hostname url) as [hostname|] eqn:Hhost.
  2:{ repeat split; try (intros; discriminate); auto. }
  destruct (List.existsb (fun domain => includes hostname domain)
              Server.allowedDomains) eqn:Hmatch; cbn [negb].
  2:{ repeat split; try (intros; discriminate); auto.
      intros hostname' _ [= <-] Hlisted.
      apply allow_listed_matches in Hlisted. congruence. }
  destruct (Server.fetch url) as [message|response] eqn:Hfetch.
  { repeat split; try (intros; discriminate); auto. }
  destruct (Server.ok response) eqn:Hok; cbn [negb].
  - repeat split; auto; try (intros; congruence).
    intros ct data [= <- <-]. exists response. auto.
  - repeat split; auto; try (intros; discriminate).
    intros response' _ [= <-] _. reflexivity.
Qed.

Lemma image_proxy_relays_upstream_witness :
  snd (Server.image_proxy
         (H := Spec.plain_platform (fun _ => inr Spec.png_response))
         (VStr (js "https://s3.ap-northeast-2.amazonaws.com/bucket/x.png")))
  = [VStr (js "https://s3.ap-northeast-2.amazonaws.com/bucket/x.png")]
  /\ Server.image_proxy
       (H := Spec.plain_platform (fun _ => inr Spec.png_response)) VUndef
     = (Server.mkReply 400 (Server.error_body "URL parameter is required"), [])
  /\ (exists response,
         @Server.fetch (Spec.plain_platform (fun _ => inr Spec.png_response))
           (VStr (js "https://s3.ap-northeast-2.amazonaws.com/bucket/x.png"))
         = inr response
         /\ Server.ok response = true
         /\ Server.status
              (fst (Server.image_proxy
                      (H := Spec.plain_platform (fun _ => inr Spec.png_response))
                      (VStr (js "https://s3.ap-northeast-2.amazonaws.com/bucket/x.png"))))
            = 200%Z
         /\ VStr (js "image/png")
            = or_else (Server.contentType response) (VStr (js "image/jpeg"))
         /\ [137; 80; 78; 71]%N = Server.arrayBuffer response)
  /\ Server.status
       (fst (Server.image_proxy
               (H := Spec.plain_platform (fun _ => inr Spec.missing_response))
               (VStr (js "https://s3.ap-northeast-2.amazonaws.com/bucket/x.png"))))
     = 404%Z.
Proof.
  destruct (@image_proxy_relays_upstream
              (Spec.plain_platform (fun _ => inr Spec.png_response))
              (VStr (js "https://s3.ap-northeast-2.amazonaws.com/bucket/x.png")))
    as (_ & _ & Hlisted & Hbytes & _).
  destruct (@image_proxy_relays_upstream
              (Spec.plain_platform (fun _ => inr Spec.png_response)) VUndef)
    as (_ & Hmissing & _).
  destruct (@image_proxy_relays_upstream
              (Spec.plain_platform (fun _ => inr Spec.missing_response))
              (VStr (js "https://s3.ap-northeast-2.amazonaws.com/bucket/x.png")))
    as (_ & _ & _ & _ & Hrelay).
  split; [apply (Hlisted (js "s3.ap-northeast-2.amazonaws.com"));
          vm_compute; reflexivity|].
  split; [apply Hmissing; reflexivity|].
  split; [apply (Hbytes (VStr (js "image/png")) [137; 80; 78; 71]%N);
          vm_compute; reflexivity|].
  apply (Hrelay Spec.missing_response); vm_compute; reflexivity.
Defined.

(** *** The image generation route beyond its guards *)

(** X12.  The generate-image handler calls Gemini at most once, with the
    body built from the request, and it reports success only when the key
    is configured, the request carries a prompt and a profile image and
    the upstream answered ok, and then with status 200. *)
Theorem generate_image_success_needs_upstream `{AiRoute.Upstream} (body : jsval) :
  (snd (AiRoute.generate_image body) = []
   \/ snd (AiRoute.generate_image body) = [AiRoute.requestBody body])
  /\ (Spec.reply_field (fst (AiRoute.generate_image body)) "success"
      = VBool true ->
      Server.status (fst (AiRoute.generate_image body)) = 200%Z
      /\ snd (AiRoute.generate_image body) = [AiRoute.requestBody body]
      /\ truthy AiRoute.GEMINI_API_KEY = true
      /\ truthy (get_prop body "prompt") = true
      /\ truthy (get_prop body "profileImageBase64") = true
      /\ exists response,
           AiRoute.gemini (AiRoute.requestBody body) = inr response
           /\ Server.ok response = true).
Proof.
  unfold AiRoute.generate_image.
  destruct (truthy AiRoute.GEMINI_API_KEY) eqn:Hkey; cbn [negb].
  2:{ repeat split; auto; intros; discriminate. }
  destruct (nullish body) eqn:Hbody.
  { repeat split; auto; intros; discriminate. }
  destruct (truthy (get_prop body "prompt")) eqn:Hprompt; cbn [negb].
  2:{ repeat split; auto; intros; discriminate. }
  destruct (truthy (get_prop body "profileImageBase64")) eqn:Hprofile;
    cbn [negb].
  2:{ repeat split; auto; intros; discriminate. }
  destruct (AiRoute.gemini (AiRoute.requestBody body)) as [message|response]
    eqn:Hcall.
  { repeat split; auto; intros; discriminate. }
  destruct (Server.ok response) eqn:Hok; cbn [negb].
  2:{ split; [right; reflexivity | intros; discriminate]. }
  split.
  - destruct (Server.json response) as [message|data];
      [right; reflexivity|].
    destruct (nullish data); [right; reflexivity|].
    destruct (or_else _ _); try (right; reflexivity).
    destruct (AiRoute.find_image xs) as [message|[image|]];
      right; reflexivity.
  - destruct (Server.json response) as [message|data];
      [intros; discriminate|].
    destruct (nullish data); [intros; discriminate|].
    destruct (or_else _ _); try (intros; discriminate).
    destruct (AiRoute.find_image xs) as [message|[image|]];
      try (intros; discriminate).
    intros _. repeat split; auto. exists response. auto.
Qed.

Lemma generate_image_success_needs_upstream_witness :
  Server.status
    (fst (AiRoute.generate_image (H := Spec.generating) Spec.image_request))
  = 200%Z
  /\ snd (AiRoute.generate_image (H := Spec.generating) Spec.image_request)
     = [AiRoute.requestBody Spec.image_request].
Proof.
  destruct (@generate_image_success_needs_upstream Spec.generating
              Spec.image_request) as [_ Hsuccess].
  destruct (Hsuccess eq_refl) as (Hstatus & Hcalls & _).
  split; assumption.
Defined.

(** *** The modal: Escape, the overlay, and a closed modal *)

(** X13.  After any history of the modal, a click on the overlay and the
    Escape key do exactly what a click on cancel does; and once the modal
    is closed, clicks on confirm, cancel or the overlay and the Escape key
    run no callback and change nothing. *)
Theorem modal_cancel_paths_and_closed_modal (events : list Layout.event) :
  let st := Layout.run events Layout.loadModal in
  let closed := Layout.closeModal st in
  (Layout.clickOverlay st = Layout.clickCancel st
   /\ Layout.pressEscape st = Layout.clickCancel st)
  /\ (Layout.clickConfirm closed = closed
      /\ Layout.clickCancel closed = closed
      /\ Layout.clickOverlay closed = closed
      /\ Layout.pressEscape closed = closed)
  /\ (Layout.hidden closed = true /\ Layout.no_listeners closed
      /\ Layout.invoked closed = Layout.invoked st).
Proof.
  intros st closed.
  assert (Htidy : Spec.tidy st) by apply run_tidy, loadModal_tidy.
  pose proof (events_on_tidy st Htidy) as Hev.
  assert (Hclosed : closed
                    = Layout.mkState true true [] [] [] [] None
                        (Layout.fresh st) (Layout.invoked st))
    by apply closeModal_tidy, Htidy.
  split; [|split].
  - destruct (Layout.currentModalHandlers st) as [h|];
      destruct Hev as (_ & -> & -> & ->); split; reflexivity.
  - rewrite Hclosed. repeat split; reflexivity.
  - rewrite Hclosed. repeat split; reflexivity.
Qed.

(** *** The carousel of the post page *)






(** *** The post id in the address *)

Lemma split_slash_pieces (s : jsstring) :
  exists piece pieces, PostPage.split_slash s = piece :: pieces.
Proof.
  destruct s as [|c rest]; cbn [PostPage.split_slash]; [eauto|].
  destruct (N.eqb c 47); [eauto|].
  destruct (PostPage.split_slash rest); eauto.
Qed.

Lemma split_slash_plain (id : jsstring) :
  Forall (fun c => c <> 47%N) id -> PostPage.split_slash id = [id].
Proof.
  induction 1 as [|c id Hc _ IH]; [reflexivity|].
  cbn [PostPage.split_slash].
  destruct (N.eqb_spec c 47); [contradiction|].
  rewrite IH. reflexivity.
Qed.

Lemma split_slash_no_slash (s : jsstring) :
  Forall (fun piece => Forall (fun c => c <> 47%N) piece) (PostPage.split_slash s).
Proof.
  induction s as [|c rest IH]; cbn [PostPage.split_slash].
  - repeat constructor.
  - destruct (N.eqb_spec c 47) as [Heq|Hne].
    + constructor; [constructor | exact IH].
    + destruct (PostPage.split_slash rest) as [|piece pieces].
      * repeat constructor. exact Hne.
      * apply List.Forall_cons_iff in IH as [Hpiece Hpieces].
        constructor; [constructor; assumption | exact Hpieces].
Qed.

Lemma last_after_slash (prefix id : jsstring) :
  exists piece pieces,
    PostPage.split_slash (prefix ++ 47%N :: id) = piece :: pieces
    /\ pieces <> []
    /\ List.last pieces [] = List.last (PostPage.split_slash id) [].
Proof.
  induction prefix as [|c prefix IH].
  - cbn [app PostPage.split_slash N.eqb Pos.eqb].
    destruct (split_slash_pieces id) as (piece & pieces & Hid).
    exists [], (PostPage.split_slash id).
    split; [reflexivity|]. split; [rewrite Hid; discriminate | reflexivity].
  - destruct IH as (piece & pieces & Hsplit & Hsome & Hlast).
    cbn [app PostPage.split_slash]. rewrite Hsplit.
    destruct (N.eqb c 47).
    + exists [], (piece :: pieces).
      split; [reflexivity|]. split; [discriminate|].
      rewrite <- Hlast. destruct pieces; [contradiction | reflexivity].
    + exists (c :: piece), pieces. auto.
Qed.

Lemma last_piece (prefix id : jsstring) :
  Forall (fun c => c <> 47%N) id ->
  List.last (PostPage.split_slash (prefix ++ 47%N :: id)) [] = id.
Proof.
  intros Hplain.
  destruct (last_after_slash prefix id) as (piece & pieces & -> & Hsome & Hlast).
  rewrite (split_slash_plain id Hplain) in Hlast. cbn [List.last] in Hlast.
  rewrite <- Hlast. destruct pieces; [contradiction | reflexivity].
Qed.

(** X15.  The id of the post page is what follows the last slash of the
    path: it is read back from every address that ends in a slash and an
    id, and the page gets no id, never an empty or bogus one, when the
    path ends in a slash or in one of the words undefined and null.  An
    id returned holds no slash. *)
Theorem post_id_is_last_segment :
  (forall prefix id : jsstring,
      Forall (fun c => c <> 47%N) id ->
      id <> [] -> id <> js "undefined" -> id <> js "null" ->
      PostPage.getPostIdFromUrl (prefix ++ 47%N :: id) = Some id)
  /\ (forall prefix : jsstring,
      PostPage.getPostIdFromUrl (prefix ++ js "/") = None
      /\ PostPage.getPostIdFromUrl (prefix ++ js "/undefined") = None
      /\ PostPage.getPostIdFromUrl (prefix ++ js "/null") = None)
  /\ (forall pathname id : jsstring,
      PostPage.getPostIdFromUrl pathname = Some id ->
      id <> [] /\ id <> js "undefined" /\ id <> js "null"
      /\ Forall (fun c => c <> 47%N) id).
Proof.
  split; [|split].
  - intros prefix id Hplain Hsome Hundef Hnull.
    unfold PostPage.getPostIdFromUrl. rewrite (last_piece prefix id Hplain).
    unfold jsstring_eqb.
    rewrite (bool_decide_eq_false_2 _ Hundef), (bool_decide_eq_false_2 _ Hnull).
    destruct id; [contradiction | reflexivity].
  - intros prefix. unfold PostPage.getPostIdFromUrl.
    change (js "/") with (47%N :: []).
    change (js "/undefined") with (47%N :: js "undefined").
    change (js "/null") with (47%N :: js "null").
    rewrite !last_piece by (repeat constructor; discriminate).
    repeat split; reflexivity.
  - intros pathname id. unfold PostPage.getPostIdFromUrl.
    pose proof (split_slash_no_slash pathname) as Hpieces.
    destruct (split_slash_pieces pathname) as (piece & pieces & Hsplit).
    assert (Hlast : Forall (fun c => c <> 47%N)
                      (List.last (PostPage.split_slash pathname) [])).
    { rewrite Hsplit in Hpieces |- *.
      apply List.Forall_forall with (x := List.last (piece :: pieces) []) in Hpieces;
        [exact Hpieces|].
      clear. revert piece. induction pieces as [|p pieces IH]; intros piece.
      - left. reflexivity.
      - right. apply IH. }
    destruct (negb (truthy (VStr (List.last (PostPage.split_slash pathname) [])))
              || jsstring_eqb (List.last (PostPage.split_slash pathname) [])
                   (js "undefined")
              || jsstring_eqb (List.last (PostPage.split_slash pathname) [])
                   (js "null"))%bool eqn:Hbad; [discriminate|].
    intros [= <-].
    apply orb_false_iff in Hbad as [Hbad Hnull].
    apply orb_false_iff in Hbad as [Hempty Hundef].
    unfold jsstring_eqb in Hundef, Hnull.
    apply bool_decide_eq_false in Hundef, Hnull.
    repeat split; try assumption.
    intros Heq. rewrite Heq in Hempty. discriminate Hempty.
Qed.

Lemma post_id_is_last_segment_witness :
  PostPage.getPostIdFromUrl (js "/post" ++ 47%N :: js "128") = Some (js "128")
  /\ (js "128" <> [] /\ js "128" <> js "undefined" /\ js "128" <> js "null"
      /\ Forall (fun c => c <> 47%N) (js "128")).
Proof.
  destruct post_id_is_last_segment as (Hread & _ & Hreturned).
  split.
  - apply Hread; [repeat constructor; discriminate | discriminate ..].
  - apply (Hreturned (js "/post/128")). reflexivity.
Defined.

(** *** The back button and the bottom navigation *)

(** X16.  The back button goes back in the history only when the page
    was reached from the same origin and the history holds more than the
    current page; otherwise it leads to /profile from the profile editor
    and to /feed from every other page. *)
Theorem smart_back_destinations (referrer origin path : jsstring) (len : Z) :
  Header.handleSmartBack referrer origin path len
  = (if (negb (Nat.eqb (List.length referrer) 0)
         && starts_with origin referrer && Z.ltb 1 len)%bool
     then Header.HistoryBack
     else Header.Assign (js (if starts_with (js "/profile/edit") path
                             then "/profile" else "/feed"))).
Proof.
  unfold Header.handleSmartBack, Header.defaultBackRoutes.
  cbn [Header.backUrl truthy].
  destruct (negb (Nat.eqb (List.length referrer) 0)
            && starts_with origin referrer && Z.ltb 1 len)%bool;
    [reflexivity|].
  destruct (starts_with (js "/profile/edit") path); [reflexivity|].
  destruct (starts_with (js "/profile") path); [reflexivity|].
  destruct (starts_with (js "/post/") path); [reflexivity|].
  destruct (starts_with (js "/write") path); reflexivity.
Qed.







(** *** The edit page *)

Section EditSubmit.
Context `{Coercions}.

Lemma changed_runs k trimmed (pg : EditPage.page) old w log :
  truthy (EditPage.currentPost pg) = true ->
  get_prop (EditPage.currentPost pg) k = VStr old ->
  EditPage.changed k trimmed pg w log
  = (inr (negb (jsstring_eqb trimmed (trim old))), log).
Proof.
  intros Hpost Hold. unfold EditPage.changed. rewrite Hpost, Hold. reflexivity.
Qed.

Lemma edit_title_valid (pg : EditPage.page) :
  EditPage.validateTitle pg = true ->
  Spec.within 2 26 (VStr (trim (EditPage.titleValue pg))) = true.
Proof.
  unfold EditPage.validateTitle, Spec.within. rewrite trim_idempotent.
  destruct (Z.ltb_spec (Z.of_nat (List.length (trim (EditPage.titleValue pg)))) 2);
    [discriminate|].
  destruct (Z.ltb_spec 26 (Z.of_nat (List.length (trim (EditPage.titleValue pg)))));
    [discriminate|].
  intros _. apply andb_true_intro. split; apply Z.leb_le; lia.
Qed.

Lemma edit_content_valid (pg : EditPage.page) :
  EditPage.validateContent pg = true ->
  Spec.within 2 10000 (VStr (trim (EditPage.contentValue pg))) = true.
Proof.
  unfold EditPage.validateContent, Spec.within. rewrite trim_idempotent.
  destruct (Z.ltb_spec (Z.of_nat (List.length (trim (EditPage.contentValue pg)))) 2);
    [discriminate|].
  destruct (Z.ltb_spec 10000
              (Z.of_nat (List.length (trim (EditPage.contentValue pg)))));
    [discriminate|].
  intros _. apply andb_true_intro. split; apply Z.leb_le; lia.
Qed.

Lemma string_id_present (id : jsstring) :
  id <> [] -> PostApi.missing_id (VStr id) = false /\ truthy (VStr id) = true.
Proof.
  intros Hid. unfold PostApi.missing_id. cbn [strict_eq orb truthy].
  unfold jsstring_eqb. rewrite (bool_decide_eq_false_2 _ Hid).
  split; [reflexivity|]. destruct id; [contradiction | reflexivity].
Qed.

End EditSubmit.

(** X18.  The edit page sends only what the user changed.  With valid
    inputs on a loaded post and no image picked or removed: when the
    trimmed title and content equal those of the post, nothing is sent
    and the page stays; otherwise exactly one PATCH goes to the post,
    carrying the trimmed title if and only if the title changed and the
    trimmed content if and only if the content changed. *)
Theorem edit_sends_only_changes `{Coercions}
        (upload : jsval -> api jsval) (pg : EditPage.page)
        (id oldTitle oldContent : jsstring) w log :
  EditPage.validateTitle pg = true ->
  EditPage.validateContent pg = true ->
  EditPage.postId pg = VStr id ->
  id <> [] ->
  truthy (EditPage.currentPost pg) = true ->
  get_prop (EditPage.currentPost pg) "title" = VStr oldTitle ->
  get_prop (EditPage.currentPost pg) "content" = VStr oldContent ->
  EditPage.selectedImage pg = None ->
  EditPage.removeCurrentImage pg = false ->
  let titleChanged :=
    negb (jsstring_eqb (trim (EditPage.titleValue pg)) (trim oldTitle)) in
  let contentChanged :=
    negb (jsstring_eqb (trim (EditPage.contentValue pg)) (trim oldContent)) in
  if (negb titleChanged && negb contentChanged)%bool
  then EditPage.handleSubmit upload pg w log = (inr pg, log)
  else
    exists r,
      snd (EditPage.handleSubmit upload pg w log) = log ++ [r]
      /\ req_method r = PATCH
      /\ req_path r = [Lit "/posts/"; Param (VStr id)]
      /\ body_field r "title"
         = (if titleChanged then VStr (trim (EditPage.titleValue pg))
            else VUndef)
      /\ body_field r "content"
         = (if contentChanged then VStr (trim (EditPage.contentValue pg))
            else VUndef).
Proof.
  intros Ht Hc Hpost Hid Hloaded HoldT HoldC Hnone Hkeep tc cc.
  destruct (string_id_present id Hid) as [Hpresent Htruthy].
  unfold EditPage.handleSubmit.
  rewrite Ht, Hc, Hpost, Htruthy. cbn [andb negb].
  erewrite bind_returns by (apply changed_runs; eassumption).
  erewrite bind_returns by (apply changed_runs; eassumption).
  rewrite Hnone, Hkeep. fold tc cc. clearbody tc cc.
  destruct (negb tc && negb cc)%bool eqn:Hsame.
  { erewrite bind_returns with (a := inr false) (log' := log);
      [reflexivity|].
    unfold attempt, bind, ret. cbn [strict_eq andb]. reflexivity. }
  assert (Hvalid :
            ((Spec.supplied (if tc then VStr (trim (EditPage.titleValue pg))
                             else VUndef)
              && negb (Spec.within 2 26
                         (if tc then VStr (trim (EditPage.titleValue pg))
                          else VUndef)))
             || (Spec.supplied (if cc then VStr (trim (EditPage.contentValue pg))
                                else VUndef)
                 && negb (Spec.within 2 10000
                            (if cc then VStr (trim (EditPage.contentValue pg))
                             else VUndef))))%bool = false).
  { destruct tc, cc; cbn [Spec.supplied strict_eq negb andb orb];
      rewrite ?(edit_title_valid pg Ht), ?(edit_content_valid pg Hc);
      reflexivity. }
  assert (Hsome :
            (Spec.supplied (if tc then VStr (trim (EditPage.titleValue pg))
                            else VUndef)
             || Spec.supplied (if cc then VStr (trim (EditPage.contentValue pg))
                               else VUndef)
             || Spec.supplied VUndef)%bool = true).
  { destruct tc, cc; try reflexivity. discriminate Hsame. }
  destruct (updatePost_sends (VStr id)
              {| PostApi.u_title :=
                   if tc then VStr (trim (EditPage.titleValue pg)) else VUndef;
                 PostApi.u_content :=
                   if cc then VStr (trim (EditPage.contentValue pg)) else VUndef;
                 PostApi.u_imageIds := VUndef |} w log
              Hpresent Hvalid eq_refl Hsome)
    as (r & Hsent & Hm & Hpath & Htitle & Hcontent & HnoTitle & HnoContent).
  cbn [PostApi.u_title PostApi.u_content] in Htitle, Hcontent, HnoTitle, HnoContent.
  exists r. split; [|split; [exact Hm|split; [exact Hpath|split]]].
  - rewrite <- Hsent. unfold bind at 1. unfold attempt.
    unfold bind at 1. unfold ret at 1. cbn [strict_eq andb]. unfold bind.
    destruct (PostApi.updatePost _ _ w log) as [[e|v] log']; reflexivity.
  - destruct tc; [|apply HnoTitle; reflexivity].
    rewrite (Htitle _ eq_refl), trim_idempotent. reflexivity.
  - destruct cc; [|apply HnoContent; reflexivity].
    rewrite (Hcontent _ eq_refl), trim_idempotent. reflexivity.
Qed.

Lemma edit_sends_only_changes_witness :
  exists r,
    snd (EditPage.handleSubmit (H := decimal_coercions) Spec.no_upload
           Spec.retitled_page Spec.empty_envelope [])
    = [] ++ [r]
    /\ req_method r = PATCH
    /\ req_path r = [Lit "/posts/"; Param (VStr (js "7"))]
    /\ body_field r "title" = VStr (js "second")
    /\ body_field r "content" = VUndef.
Proof.
  apply (@edit_sends_only_changes decimal_coercions Spec.no_upload
           Spec.retitled_page (js "7") (js "first") (js "hello world")
           Spec.empty_envelope []);
    try reflexivity; discriminate.
Defined.

(** *** The configuration cache *)

Lemma fetchConfig_consistent (st : ApiConfig.state) :
  Spec.config_consistent st -> Spec.config_consistent (ApiConfig.fetchConfig st).
Proof.
  unfold Spec.config_consistent, ApiConfig.fetchConfig.
  destruct (ApiConfig.configPromise st) as [[|config]|] eqn:Hp.
  - intros (Hf & Hd & Hc). rewrite Hc. cbn. rewrite ?Hp. auto.
  - intros (Hf & Hw & Hc & Hd).
    destruct (truthy (ApiConfig.configCache st)); cbn; rewrite ?Hp;
      repeat split; try assumption;
      apply List.Forall_app; split; try assumption;
      constructor; [exact Hc | constructor | reflexivity | constructor].
  - intros (Hf & Hw & Hd & Hc). rewrite Hc. cbn. rewrite Hf. auto.
Qed.

Lemma settle_consistent outcome (st : ApiConfig.state) :
  Spec.config_consistent st -> Spec.config_consistent (ApiConfig.settle outcome st).
Proof.
  unfold Spec.config_consistent, ApiConfig.settle.
  destruct (ApiConfig.configPromise st) as [[|config]|] eqn:Hp;
    [|rewrite Hp; auto ..].
  intros (Hf & Hd & Hc). cbn. rewrite Hd. cbn [app].
  repeat split; try assumption.
  apply List.Forall_forall. intros v Hv. apply List.repeat_spec in Hv. exact Hv.
Qed.

Lemma config_run_consistent (events : list ApiConfig.event) (st : ApiConfig.state) :
  Spec.config_consistent st -> Spec.config_consistent (ApiConfig.run events st).
Proof.
  revert st. induction events as [|e events IH]; intros st Hst; [exact Hst|].
  cbn [ApiConfig.run List.fold_left]. apply IH.
  destruct e; [apply fetchConfig_consistent | apply settle_consistent]; exact Hst.
Qed.

(** X19.  However many callers ask for the configuration, before, while
    and after the request for /config is under way, the request is made
    at most once, and every caller served receives the same value, the
    one kept in the cache; when the request fails, that value is the
    fallback with the base URL /api/. *)
Theorem config_fetched_once (events : list ApiConfig.event) :
  let st := ApiConfig.run events ApiConfig.initial in
  (ApiConfig.fetches st <= 1)%nat
  /\ Forall (fun v => v = ApiConfig.configCache st) (ApiConfig.delivered st)
  /\ (ApiConfig.delivered st <> [] -> ApiConfig.fetches st = 1%nat)
  /\ (forall message,
      ApiConfig.configPromise st = Some ApiConfig.Pending ->
      ApiConfig.configCache (ApiConfig.settle (inl message) st)
      = ApiConfig.fallback
      /\ get_prop (ApiConfig.configCache (ApiConfig.settle (inl message) st))
           "API_BASE_URL" = VStr (js "/api/")).
Proof.
  intros st.
  assert (Hst : Spec.config_consistent st).
  { apply config_run_consistent. cbn. auto. }
  unfold Spec.config_consistent in Hst.
  destruct (ApiConfig.configPromise st) as [[|config]|] eqn:Hp.
  - destruct Hst as (Hf & Hd & Hc). rewrite Hf, Hd.
    repeat split; try (intros; congruence); auto.
    + unfold ApiConfig.settle. rewrite Hp. reflexivity.
    + unfold ApiConfig.settle. rewrite Hp. reflexivity.
  - destruct Hst as (Hf & Hw & Hc & Hd). rewrite Hf, Hc.
    repeat split; try (intros; congruence); auto.
  - destruct Hst as (Hf & Hw & Hd & Hc). rewrite Hf, Hd.
    repeat split; try (intros; congruence); auto.
Qed.

Lemma config_fetched_once_witness :
  ApiConfig.configCache
    (ApiConfig.settle (inl "Failed to fetch")
       (ApiConfig.run [ApiConfig.Call; ApiConfig.Call] ApiConfig.initial))
  = ApiConfig.fallback
  /\ get_prop
       (ApiConfig.configCache
          (ApiConfig.settle (inl "Failed to fetch")
             (ApiConfig.run [ApiConfig.Call; ApiConfig.Call] ApiConfig.initial)))
       "API_BASE_URL" = VStr (js "/api/").
Proof.
  destruct (config_fetched_once [ApiConfig.Call; ApiConfig.Call])
    as (_ & _ & _ & Hfail).
  apply Hfail. reflexivity.
Defined.

(** *** Toasts *)

Lemma toasts_without_container (st : Toast.state) :
  Spec.toasts_contained st -> Toast.container st = None -> Toast.toasts st = [].
Proof.
  intros (Hhome & _ & _) Hnone.
  destruct (Toast.toasts st) as [|x rest]; [reflexivity|].
  apply List.Forall_inv in Hhome. destruct Hhome as [Hx _]. congruence.
Qed.

Lemma NoDup_snoc {A} (l : list A) (x : A) :
  List.NoDup l -> ~ In x l -> List.NoDup (l ++ [x]).
Proof.
  induction l as [|y l IH]; cbn [app]; intros Hd Hx.
  - constructor; [intros [] | constructor].
  - apply List.NoDup_cons_iff in Hd as [Hy Hd]. constructor.
    + rewrite List.in_app_iff. intros [Hin|[Heq|[]]]; [contradiction|].
      apply Hx. left. symmetry. exact Heq.
    + apply IH; [exact Hd|]. intros Hin. apply Hx. right. exact Hin.
Qed.

Lemma showToast_contained message type (st : Toast.state) :
  Spec.toasts_contained st ->
  Spec.toasts_contained (Toast.showToast message type st).
Proof.
  intros Hst. pose proof (toasts_without_container st Hst) as Hnone.
  destruct Hst as (Hhome & Hempty & Hdistinct).
  unfold Spec.toasts_contained, Toast.showToast.
  destruct (Toast.container st) as [c|] eqn:Hc.
  - cbn [Toast.container Toast.toasts Toast.fresh]. split; [|split].
    + apply List.Forall_app. split.
      * eapply List.Forall_impl; [|exact Hhome]. cbn. intros x [Hx Hlt].
        split; [exact Hx | lia].
      * repeat constructor.
    + intros Hnil. apply List.app_eq_nil in Hnil as [_ Hnil]. discriminate Hnil.
    + rewrite List.map_app. cbn [List.map Toast.tid].
      apply NoDup_snoc; [exact Hdistinct|].
      intros Hin. apply List.in_map_iff in Hin as (x & Hx & Hin).
      apply (proj1 (List.Forall_forall _ _) Hhome) in Hin as [_ Hlt]. lia.
  - rewrite (Hnone eq_refl).
    cbn [Toast.container Toast.toasts Toast.fresh app List.map Toast.tid].
    split; [|split].
    + repeat constructor.
    + discriminate.
    + repeat constructor. intros [].
Qed.

Lemma fadeOut_contained t (st : Toast.state) :
  Spec.toasts_contained st -> Spec.toasts_contained (Toast.fadeOut t st).
Proof.
  intros (Hhome & Hempty & Hdistinct).
  unfold Spec.toasts_contained, Toast.fadeOut.
  cbn [Toast.container Toast.toasts Toast.fresh]. split; [|split].
  - apply List.Forall_map. eapply List.Forall_impl; [|exact Hhome].
    cbn. intros x Hx. destruct (Nat.eqb (Toast.tid x) t); exact Hx.
  - intros Hnil. apply Hempty.
    destruct (Toast.toasts st); [reflexivity | discriminate Hnil].
  - rewrite List.map_map.
    erewrite List.map_ext; [exact Hdistinct|].
    intros x. cbn. destruct (Nat.eqb (Toast.tid x) t); reflexivity.
Qed.

Lemma NoDup_map_filter {A B} (f : A -> B) (keep : A -> bool) (l : list A) :
  List.NoDup (List.map f l) -> List.NoDup (List.map f (List.filter keep l)).
Proof.
  induction l as [|x l IH]; [auto|]. cbn [List.map List.filter].
  intros Hd. apply List.NoDup_cons_iff in Hd as [Hfresh Hd].
  destruct (keep x); [|apply IH, Hd].
  cbn [List.map]. constructor; [|apply IH, Hd].
  intros Hin. apply Hfresh.
  apply List.in_map_iff in Hin as (y & Hy & Hin).
  apply List.filter_In in Hin as [Hin _].
  apply List.in_map_iff. eauto.
Qed.

Lemma removeToast_contained t c (st : Toast.state) :
  Spec.toasts_contained st ->
  Toast.home_of t st = Some c ->
  Spec.toasts_contained (Toast.removeToast t c st).
Proof.
  intros (Hhome & Hempty & Hdistinct) Hfound.
  assert (Hc : Toast.container st = Some c).
  { unfold Toast.home_of in Hfound.
    destruct (List.find _ (Toast.toasts st)) as [x|] eqn:Hx; [|discriminate].
    apply List.find_some in Hx as [Hin _].
    apply (proj1 (List.Forall_forall _ _) Hhome) in Hin as [Hin _].
    destruct (Toast.fading x); [|discriminate].
    injection Hfound as <-. exact Hin. }
  set (rest := List.filter (fun x => negb (Nat.eqb (Toast.tid x) t))
                 (Toast.toasts st)).
  assert (Hrest : Forall (fun x => Toast.container st = Some (Toast.home x)
                                   /\ (Toast.tid x < Toast.fresh st)%nat) rest).
  { apply List.Forall_forall. intros x Hin.
    apply List.filter_In in Hin as [Hin _].
    apply (proj1 (List.Forall_forall _ _) Hhome), Hin. }
  assert (Hchildren : List.filter (fun x => Nat.eqb (Toast.home x) c) rest = rest).
  { apply List.forallb_filter_id. apply List.forallb_forall. intros x Hin.
    apply (proj1 (List.Forall_forall _ _) Hrest) in Hin as [Hin _].
    rewrite Hc in Hin. injection Hin as ->. apply Nat.eqb_refl. }
  unfold Spec.toasts_contained, Toast.removeToast. fold rest.
  rewrite Hchildren, Hc.
  cbn [Toast.container Toast.toasts Toast.fresh].
  destruct rest as [|x rest'] eqn:Hlist.
  - rewrite Nat.eqb_refl. split; [constructor|]. split; [reflexivity|constructor].
  - split; [|split].
    + rewrite <- Hc. exact Hrest.
    + discriminate.
    + rewrite <- Hlist. apply NoDup_map_filter, Hdistinct.
Qed.

Lemma toast_run_contained (events : list Toast.event) (st : Toast.state) :
  Spec.toasts_contained st -> Spec.toasts_contained (Toast.run events st).
Proof.
  revert st. induction events as [|e events IH]; intros st Hst; [exact Hst|].
  cbn [Toast.run List.fold_left]. apply IH.
  destruct e as [message type|t|t]; cbn [Toast.step].
  - apply showToast_contained, Hst.
  - apply fadeOut_contained, Hst.
  - destruct (Toast.home_of t st) as [c|] eqn:Hfound; [|exact Hst].
    apply removeToast_contained; assumption.
Qed.

(** X20.  However toasts are shown and their timers fire, the document
    holds a toast container exactly while it holds a toast: the container
    is created with the first toast, every toast shown sits in it, and it
    is removed with the last one. *)
Theorem toast_container_lives_with_toasts (events : list Toast.event) :
  let st := Toast.run events Toast.initial in
  (Toast.container st = None <-> Toast.toasts st = [])
  /\ Forall (fun x => Toast.container st = Some (Toast.home x)) (Toast.toasts st)
  /\ List.NoDup (List.map Toast.tid (Toast.toasts st)).
Proof.
  intros st.
  assert (Hst : Spec.toasts_contained st).
  { apply toast_run_contained. split; [constructor|].
    split; [reflexivity | constructor]. }
  pose proof (toasts_without_container st Hst) as Hnone.
  destruct Hst as (Hhome & Hempty & Hdistinct).
  split; [split; assumption|]. split; [|exact Hdistinct].
  eapply List.Forall_impl; [|exact Hhome]. cbn. intros x [Hx _]. exact Hx.
Qed.

(** *** Leaving the account *)

(** X21.  Logging out removes the post draft and leads to /login
    whether the logout call returns or throws, so that the write page
    then finds no draft; deleting the account does the same when the call
    succeeds and changes nothing when it fails.  Other keys of the local
    storage are kept, and no request is made besides the call itself. *)
Theorem logout_clears_draft (logout deleteCurrentUser : api jsval)
        (pg : Profile.page) w log :
  (exists pg',
      Profile.handleLogout logout pg w log = (inr pg', snd (logout w log))
      /\ Profile.localStorage pg' !! WritePage.DRAFT_STORAGE_KEY = None
      /\ Profile.location pg' = Some (js "/login")
      /\ (forall k, k <> WritePage.DRAFT_STORAGE_KEY ->
                    Profile.localStorage pg' !! k = Profile.localStorage pg !! k)
      /\ (forall wp : WritePage.page,
             WritePage.localStorage wp = Profile.localStorage pg' ->
             WritePage.loadDraft wp = Some (None, wp)))
  /\ match fst (deleteCurrentUser w log) with
     | inl _ =>
         Profile.handleDeleteAccount deleteCurrentUser pg w log
         = (inr pg, snd (deleteCurrentUser w log))
     | inr _ =>
         exists pg',
           Profile.handleDeleteAccount deleteCurrentUser pg w log
           = (inr pg', snd (deleteCurrentUser w log))
           /\ Profile.localStorage pg' !! WritePage.DRAFT_STORAGE_KEY = None
           /\ Profile.location pg' = Some (js "/login")
     end.
Proof.
  split.
  - eexists. split; [|split; [|split; [|split]]].
    + unfold Profile.handleLogout, bind, attempt, ret.
      destruct (logout w log) as [r log']. reflexivity.
    + apply lookup_delete_eq.
    + reflexivity.
    + intros k Hk. cbn [Profile.localStorage].
      apply lookup_delete_ne. unfold WritePage.DRAFT_STORAGE_KEY in Hk. congruence.
    + intros wp Hwp. unfold WritePage.loadDraft. rewrite Hwp.
      cbn [Profile.localStorage].
      replace (delete "anoo_post_draft" (Profile.localStorage pg)
                 !! WritePage.DRAFT_STORAGE_KEY) with (@None jsstring);
        [reflexivity|].
      symmetry. apply lookup_delete_eq.
  - unfold Profile.handleDeleteAccount, bind, attempt, ret.
    destruct (deleteCurrentUser w log) as [[e|v] log']; cbn [fst snd].
    + reflexivity.
    + eexists. split; [reflexivity|]. split; [apply lookup_delete_eq | reflexivity].
Qed.

Lemma logout_clears_draft_witness :
  exists pg',
    Profile.handleLogout Spec.failing_call Spec.profile_with_draft
      Spec.not_found []
    = (inr pg', [])
    /\ WritePage.loadDraft
         (WritePage.with_storage Spec.blank_page (Profile.localStorage pg')
            false)
       = Some (None, WritePage.with_storage Spec.blank_page
                       (Profile.localStorage pg') false)
    /\ Profile.localStorage pg' !! "theme"
       = Profile.localStorage Spec.profile_with_draft !! "theme".
Proof.
  destruct (logout_clears_draft Spec.failing_call Spec.failing_call
              Spec.profile_with_draft Spec.not_found [])
    as [(pg' & Hout & _ & _ & Hother & Hnext) _].
  exists pg'. split; [exact Hout|]. split.
  - apply Hnext. reflexivity.
  - apply Hother. discriminate.
Defined.

(** *** The feedback form *)




(** *** Onboarding *)






